(** * Verification of the roleplay validator's scoring pipeline

    A shallow embedding of [prompting/validators/forward.py] and of
    [neurons/validators/validator.py], and the properties of the
    peer sampler, the response normalizer, the reward aggregator, the
    trust ledger and the epoch loop.

    Conventions of the embedding.
    - A Python exception is the [Raise] branch of [result]; code that
      raises nothing returns [Ok].
    - A one-dimensional torch tensor is a [list Qc]: float32 values are
      idealised as exact rationals, so that [+], [*] and [==] are the
      exact ones.  Shapes, broadcasting and the errors torch raises on
      ill-shaped arguments are kept.  The conversion of a configured
      Python float to float32 is the one place where the code compares a
      rounded value with a constant: there the rounding is modelled
      (to nearest, ties to even).
    - A peer id (uid) is a [nat], a position of the registry; a tensor of
      uids carries its dtype, which decides whether it can index.
    - [str] is [string]; characters are the 8-bit code points of [ascii].
    - Collaborators that live outside the two source files (the dendrite,
      the gating model, the reward, masking and penalty functions) are
      fields of the validator object, as they are attributes of [self];
      an object that a call changes (the blacklist, the gating model) is
      followed by the record of the calls that changed it.
      [check_uid_availability] is a module-level import and is a class
      parameter.  Debug logging and wall-clock times are left out; the
      errors that are logged are kept in traces. *)

From Stdlib Require Import ZArith QArith Qcanon Ascii String Lia.
From stdpp Require Import base option list strings numbers.
From stdpp Require pretty.
From Stdlib Require Qpower Qround Lqa.

Set Default Proof Using "Type".

(* ================================================================= *)
(** * Part I: definitions *)
(* ================================================================= *)

(** ** Exceptions and results *)

Inductive exn : Type :=
  | ValueError (msg : string)
  | IndexError (msg : string)
  | RuntimeError (msg : string)
  | Exception (msg : string).

Inductive result (A : Type) : Type :=
  | Ok (a : A)
  | Raise (e : exn).
Arguments Ok {A} a.
Arguments Raise {A} e.

#[export] Instance result_ret : MRet result := fun A a => Ok a.
#[export] Instance result_bind : MBind result := fun A B f m =>
  match m with
  | Ok a => f a
  | Raise e => Raise e
  end.

#[export] Instance result_fmap : FMap result := fun A B f m =>
  match m with
  | Ok a => Ok (f a)
  | Raise e => Raise e
  end.

#[export] Instance exn_eq_dec : EqDecision exn.
Proof. solve_decision. Defined.

#[export] Instance result_eq_dec {A} `{EqDecision A} : EqDecision (result A).
Proof. solve_decision. Defined.

Definition raises {A} (r : result A) : Prop := exists e, r = Raise e.

(** [str(err)] of an exception: its message. *)
Definition exn_str (e : exn) : string :=
  match e with
  | ValueError m | IndexError m | RuntimeError m | Exception m => m
  end.

(** ** Python strings *)

Module PyStr.

(** [s.lstrip(chars)], [s.rstrip(chars)] and [s.strip(chars)], the set
    [chars] given as a predicate. *)
Fixpoint lstrip (p : ascii -> bool) (s : string) : string :=
  match s with
  | EmptyString => EmptyString
  | String c s' => if p c then lstrip p s' else s
  end.

Fixpoint rstrip (p : ascii -> bool) (s : string) : string :=
  match s with
  | EmptyString => EmptyString
  | String c s' =>
      match rstrip p s' with
      | EmptyString => if p c then EmptyString else String c EmptyString
      | r => String c r
      end
  end.

Definition strip (p : ascii -> bool) (s : string) : string :=
  rstrip p (lstrip p s).

(** The characters [str.strip()] removes when it is given no argument. *)
Definition is_space (c : ascii) : bool :=
  let n := nat_of_ascii c in
  ((9 <=? n) && (n <=? 13)) || ((28 <=? n) && (n <=? 32))
  || (n =? 133) || (n =? 160).

(** The set of characters of a one-character string [c]. *)
Definition is_char (c : ascii) : ascii -> bool := fun a => Ascii.eqb a c.

(** [c in s] for a one-character string [c]. *)
Fixpoint has_char (c : ascii) (s : string) : bool :=
  match s with
  | EmptyString => false
  | String a s' => is_char c a || has_char c s'
  end.

(** [sub in s]. *)
Fixpoint contains (sub s : string) : bool :=
  String.prefix sub s ||
  match s with
  | EmptyString => false
  | String _ s' => contains sub s'
  end.

(** [s.split(sep)] for a one-character separator: never the empty list. *)
Fixpoint split (sep : ascii) (s : string) : list string :=
  match s with
  | EmptyString => [EmptyString]
  | String c s' =>
      if is_char sep c then EmptyString :: split sep s'
      else match split sep s' with
           | w :: ws => String c w :: ws
           | [] => [String c EmptyString]
           end
  end.

(** [sep.join(ws)]. *)
Definition join (sep : string) (ws : list string) : string :=
  String.concat sep ws.

(** [l[0]] and [l[-1]] on the result of a [split], which is not empty. *)
Definition first (l : list string) : string := default EmptyString (list.head l).
Definition final (l : list string) : string := default EmptyString (list.last l).

(** [l[-n:]] for [n > 0]: the last [n] elements, all of them when there
    are fewer. *)
Definition last_n {A} (n : nat) (l : list A) : list A :=
  drop (length l - n) l.

End PyStr.

(** ** Responses and the response normalizer (forward.py, lines 81-99) *)

Record Response : Type := mkResponse {
  completion : string;
  status_code : string;
  status_message : string;
  process_time : option Qc;
}.

Definition set_completion (r : Response) (c : string) : Response :=
  {| completion := c;
     status_code := status_code r;
     status_message := status_message r;
     process_time := process_time r |}.

Definition dot : ascii := "."%char.
Definition qmark : ascii := "?"%char.
Definition space : ascii := " "%char.

Definition max_words : nat := 40.

(** The body of the loop of [restrict_format_followup_responses]: the value
    of [response.completion] after the iteration.  The stripped text is
    assigned back only inside the follow-up branch. *)
Definition restrict_format_completion (task_name c0 : string) : string :=
  let c := PyStr.strip (PyStr.is_char dot) c0 in
  if PyStr.contains "followup" task_name && (0 <? String.length c) then
    if PyStr.has_char qmark c then
      let c := PyStr.final (PyStr.split dot (PyStr.first (PyStr.split qmark c))) in
      String.append
        (PyStr.join " " (PyStr.last_n max_words (PyStr.split space c))) "?"
    else
      let c := PyStr.final (PyStr.split dot (PyStr.final (PyStr.split dot c))) in
      PyStr.join " " (PyStr.last_n max_words (PyStr.split space c))
  else c0.

Definition restrict_format_followup_responses
    (responses : list Response) (task_name : string) : list Response :=
  map (fun r => set_completion r (restrict_format_completion task_name (completion r)))
      responses.

(** ** Tensors (the fragment of torch the two files use) *)

Abbreviation Tensor := (list Qc) (only parsing).

(** [l[i]] on a Python list or a tensor: an IndexError out of range. *)
Definition py_index {A} (l : list A) (i : nat) : result A :=
  match l !! i with
  | Some x => Ok x
  | None => Raise (IndexError "list index out of range")
  end.

Module Torch.

(** [torch.zeros(n)]. *)
Definition zeros (n : nat) : Tensor := replicate n 0%Qc.

(** Broadcasting of a one-dimensional operand to [n] entries: the same
    size, or size one; torch raises a RuntimeError otherwise. *)
Definition expand_to (n : nat) (t : Tensor) : result Tensor :=
  if length t =? n then Ok t
  else match t with
       | [x] => Ok (replicate n x)
       | _ => Raise (RuntimeError "The size of tensor a must match the size of tensor b")
       end.

(** [w * t] for a scalar [w]. *)
Definition scale (w : Qc) (t : Tensor) : Tensor := Qcmult w <$> t.

(** [a += b] and [a *= b]: the result has the shape of [a]. *)
Definition iadd (a b : Tensor) : result Tensor :=
  b' ← Torch.expand_to (length a) b; mret (zip_with Qcplus a b').

Definition imul (a b : Tensor) : result Tensor :=
  b' ← Torch.expand_to (length a) b; mret (zip_with Qcmult a b').

(** [a + b], out of place: either side may be broadcast. *)
Definition add (a b : Tensor) : result Tensor :=
  if length a =? length b then Ok (zip_with Qcplus a b)
  else match a, b with
       | [x], _ => Ok (Qcplus x <$> b)
       | _, [y] => Ok ((fun x => x + y)%Qc <$> a)
       | _, _ => Raise (RuntimeError "The size of tensor a must match the size of tensor b")
       end.

(** [t.argmax(dim=0)]: a position of the largest entry (the first one:
    torch leaves the choice among equal entries open); an IndexError on the
    empty tensor. *)
Fixpoint argmax_from (best_i : nat) (best : Qc) (i : nat) (t : Tensor) : nat :=
  match t with
  | [] => best_i
  | x :: t' =>
      if bool_decide (best < x)%Qc then argmax_from i x (S i) t'
      else argmax_from best_i best (S i) t'
  end.

Definition argmax (t : Tensor) : result nat :=
  match t with
  | [] => Raise (IndexError "argmax(): Expected reduction dim 0 to have non-zero size.")
  | x :: t' => Ok (argmax_from 0 x 1 t')
  end.

(** [self.scatter(0, index, src)], out of place: a copy of [self] in which
    position [index[j]] holds [src[j]].  The index may not be longer than
    the source and has to stay inside [self]. *)
Definition scatter (self : Tensor) (index : list nat) (src : Tensor) : result Tensor :=
  if (length index <=? length src) && forallb (fun i => i <? length self) index
  then Ok (foldl (fun acc '(i, v) => <[i := v]> acc) self (zip index src))
  else Raise (RuntimeError "index out of bounds in scatter").

(** *** Tensors of indices *)

Inductive dtype : Type := int64 | float32.

(** A tensor of uids: its dtype and its entries.  Only the empty tensor
    is ever a float one here. *)
Record IndexTensor : Type := mkIndexTensor {
  index_dtype : dtype;
  tolist : list nat;
}.

(** [torch.LongTensor(l)]. *)
Definition LongTensor (l : list nat) : IndexTensor := mkIndexTensor int64 l.

(** [torch.tensor(l)] on a list of Python ints: the dtype is inferred from
    the entries, int64 for ints; the empty list has no entry and gets the
    default dtype, float32. *)
Definition tensor (l : list nat) : IndexTensor :=
  mkIndexTensor (match l with [] => float32 | _ => int64 end) l.

(** [t[index]]: the index has to be of an integer dtype, and every entry
    a position of [t]. *)
Definition index (t : Tensor) (idx : IndexTensor) : result Tensor :=
  match index_dtype idx with
  | int64 => mapM (py_index t) (tolist idx)
  | float32 =>
      Raise (IndexError "tensors used as indices must be long, int, byte or bool tensors")
  end.

(** *** Conversion to float32 *)

(** The nearest integer, ties to the even one. *)
Definition round_half_even (x : Q) : Z :=
  let f := Qround.Qfloor x in
  match (x - inject_Z f ?= 1 # 2)%Q with
  | Lt => f
  | Gt => (f + 1)%Z
  | Eq => if Z.even f then f else (f + 1)%Z
  end.

(** The exponent [e] of a positive rational: [2^e <= x < 2^(e+1)]. *)
Definition binade (x : Q) : Z :=
  let e := (Z.log2 (Qnum x) - Z.log2 (Zpos (Qden x)))%Z in
  if Qle_bool (2 ^ e) x then e else (e - 1)%Z.

(** A positive rational in float32: 24 significant bits, exponents from
    -126 (smaller values are subnormal, in steps of [2^-149]), round to
    nearest, ties to even; [None] stands for the infinity that a value
    rounding to [2^128] or more becomes. *)
Definition round_to_float32 (x : Q) : option Q :=
  let e := (binade x `max` (-126))%Z in
  let ulp := (2 ^ (e - 23))%Q in
  let r := (inject_Z (round_half_even (x / ulp)) * ulp)%Q in
  if Qle_bool (2 ^ 128) r then None else Some r.

(** A Python float (a finite one) as an entry of a float32 tensor. *)
Definition to_float32 (x : Qc) : option Qc :=
  match (x ?= 0)%Qc with
  | Eq => Some 0%Qc
  | Gt => Q2Qc <$> round_to_float32 x
  | Lt => (fun r => - Q2Qc r)%Qc <$> round_to_float32 (- x)
  end.

(** [torch.tensor(xs, dtype=torch.float32)] on Python floats: [None] when
    an entry becomes an infinity. *)
Definition tensor_float32 (xs : list Qc) : option Tensor := mapM to_float32 xs.

End Torch.

(** ** The validator object *)

Record RoleplayTask : Type := mkTask {
  task_name : string;
  task_type : string;
  base_text : string;
  compose_instruction : string;
  compose_prompt : string;
  character_name : string;
  character_description : string;
  get_criteria_strs : list string;
}.

Record Message : Type := mkMessage { msg_name : string; msg_content : string }.

Record Prompting : Type := mkPrompting {
  syn_character_name : string;
  syn_character_info : string;
  syn_char_names : list string;
  syn_user_names : list string;
  syn_messages : list Message;
  syn_criteria : list string;
}.

Definition AxonInfo : Type := string.

Record Metagraph : Type := mkMetagraph {
  n : nat;
  axons : list AxonInfo;
  hotkeys : list string;
}.

Record Config : Type := mkConfig {
  vpermit_tao_limit : Z;
  moving_average_alpha : Qc;
  followup_sample_size : Z;
  followup_timeout : Qc;
  num_concurrent_forwards : nat;
  epoch_length_override : Z;
  epoch_length : Z;
}.

(** [fn.apply(base_text, responses, task_name)]: the normalized scores. *)
Definition RewardFn : Type := string -> list Response -> string -> Tensor.

(** [fn.apply_penalties(responses, task)]: raw, adjusted and applied
    penalties. *)
Definition PenaltyFn : Type := list Response -> RoleplayTask -> Tensor * Tensor * Tensor.

(** The attributes of [self] that the two files read or write.  The
    dendrite is what it answers when called; [blacklist_added] records the
    batches handed to [self.blacklist.add].  The gating model is trained by
    its [backward]: [gating_trained] records the scores and rewards handed
    to [backward] so far, and what the model scores ([gating_forward]) and
    the loss it reports ([gating_backward]) depend on that record. *)
Record neuron : Type := mkNeuron {
  config : Config;
  wallet_hotkey : string;
  metagraph : Metagraph;
  moving_averaged_scores : Tensor;
  reward_weights : list Qc;
  reward_functions : list RewardFn;
  masking_functions : list RewardFn;
  penalty_functions : list PenaltyFn;
  dendrite : AxonInfo -> Prompting -> Qc -> Response;
  gating_forward : list (Tensor * Tensor) -> string -> Tensor;
  gating_backward : list (Tensor * Tensor) -> Tensor -> Tensor -> Qc;
  gating_trained : list (Tensor * Tensor);
  blacklist_added : list (list string);
  prev_block : Z;
  step : nat;
}.

Definition set_moving_averaged_scores (self : neuron) (t : Tensor) : neuron :=
  mkNeuron (config self) (wallet_hotkey self) (metagraph self) t
    (reward_weights self) (reward_functions self) (masking_functions self)
    (penalty_functions self) (dendrite self) (gating_forward self)
    (gating_backward self) (gating_trained self) (blacklist_added self) (prev_block self) (step self).

Definition set_blacklist_added (self : neuron) (b : list (list string)) : neuron :=
  mkNeuron (config self) (wallet_hotkey self) (metagraph self)
    (moving_averaged_scores self)
    (reward_weights self) (reward_functions self) (masking_functions self)
    (penalty_functions self) (dendrite self) (gating_forward self)
    (gating_backward self) (gating_trained self) b (prev_block self) (step self).

Definition set_metagraph (self : neuron) (mg : Metagraph) : neuron :=
  mkNeuron (config self) (wallet_hotkey self) mg
    (moving_averaged_scores self)
    (reward_weights self) (reward_functions self) (masking_functions self)
    (penalty_functions self) (dendrite self) (gating_forward self)
    (gating_backward self) (gating_trained self) (blacklist_added self) (prev_block self) (step self).

Definition set_prev_block (self : neuron) (b : Z) : neuron :=
  mkNeuron (config self) (wallet_hotkey self) (metagraph self)
    (moving_averaged_scores self)
    (reward_weights self) (reward_functions self) (masking_functions self)
    (penalty_functions self) (dendrite self) (gating_forward self)
    (gating_backward self) (gating_trained self) (blacklist_added self) b (step self).

Definition set_gating_trained (self : neuron) (g : list (Tensor * Tensor)) : neuron :=
  mkNeuron (config self) (wallet_hotkey self) (metagraph self)
    (moving_averaged_scores self)
    (reward_weights self) (reward_functions self) (masking_functions self)
    (penalty_functions self) (dendrite self) (gating_forward self)
    (gating_backward self) g (blacklist_added self) (prev_block self) (step self).

(** [self.gating_model(prompt)]: the scores of the model as trained so
    far. *)
Definition gating_model (self : neuron) (prompt : string) : Tensor :=
  gating_forward self (gating_trained self) prompt.

Definition set_step (self : neuron) (s : nat) : neuron :=
  mkNeuron (config self) (wallet_hotkey self) (metagraph self)
    (moving_averaged_scores self)
    (reward_weights self) (reward_functions self) (masking_functions self)
    (penalty_functions self) (dendrite self) (gating_forward self)
    (gating_backward self) (gating_trained self) (blacklist_added self) (prev_block self) s.

(** [prompting.validators.utils.check_uid_availability] is imported by
    forward.py and is not part of the two files: the development is
    parametric in it. *)
Class Utils : Type := {
  check_uid_availability : Metagraph -> nat -> Z -> bool;
}.

(** ** The peer sampler (forward.py, lines 47-78) *)

(** The source of randomness: the [i]-th raw draw. *)
Definition Rng : Type := nat -> nat.

(** [random.sample(population, k)] of the Python standard library, by its
    contract: [k] draws without replacement, a ValueError when [k] is
    negative or larger than the population. *)
Fixpoint draw {A} (rng : Rng) (i k : nat) (pool : list A) : list A :=
  match k with
  | 0 => []
  | S k' =>
      let j := rng i mod length pool in
      match pool !! j with
      | Some x => x :: draw rng (S i) k' (delete j pool)
      | None => []
      end
  end.

Definition random_sample {A} (rng : Rng) (population : list A) (k : Z) : result (list A) :=
  if bool_decide (0 <= k <= Z.of_nat (length population))%Z
  then Ok (draw rng 0 (Z.to_nat k) population)
  else Raise (ValueError "Sample larger than population or is negative").

(** [exclude is None or uid not in exclude]. *)
Definition uid_is_not_excluded (exclude : option (list nat)) (uid : nat) : bool :=
  match exclude with
  | None => true
  | Some ex => negb (bool_decide (uid ∈ ex))
  end.

(** The loop that fills [candidate_uids]. *)
Definition candidate_uids `{Utils} (self : neuron) (exclude : option (list nat)) : list nat :=
  foldl (fun acc uid =>
           let uid_is_available :=
             check_uid_availability (metagraph self) uid (vpermit_tao_limit (config self)) in
           if uid_is_available && uid_is_not_excluded exclude uid
           then acc ++ [uid] else acc)
        [] (seq 0 (n (metagraph self))).

Definition get_random_uids `{Utils} (self : neuron) (rng : Rng) (k : Z)
    (exclude : option (list nat)) : result (list nat) :=
  let candidates := candidate_uids self exclude in
  let k := if bool_decide (Z.of_nat (length candidates) < k)%Z
           then Z.of_nat (length candidates) else k in
  match candidates with
  | [] => Ok []
  | _ => random_sample rng candidates k
  end.

(** The tensor [get_random_uids] returns, with its dtype: the entries are
    those of [get_random_uids] above; [torch.tensor] of the sample is an
    int64 tensor unless the sample is empty, and [torch.LongTensor([])],
    returned when there is no candidate, is an int64 tensor. *)
Definition get_random_uids_tensor `{Utils} (self : neuron) (rng : Rng) (k : Z)
    (exclude : option (list nat)) : result Torch.IndexTensor :=
  let candidates := candidate_uids self exclude in
  let k := if bool_decide (Z.of_nat (length candidates) < k)%Z
           then Z.of_nat (length candidates) else k in
  match candidates with
  | [] => Ok (Torch.LongTensor [])
  | _ => Torch.tensor <$> random_sample rng candidates k
  end.

(** ** The reward aggregator (forward.py, lines 102-146) *)

(** The three loops of [compute_rewards], each as a fold of its body over
    the configured functions.  The event fields that the functions return
    beside their scores go to the log only and are left out. *)

Definition apply_weighted (base : string) (responses : list Response) (name : string)
    (rewards : result Tensor) (wf : Qc * RewardFn) : result Tensor :=
  r ← rewards; Torch.iadd r (Torch.scale wf.1 (wf.2 base responses name)).

Definition apply_masking (base : string) (responses : list Response) (name : string)
    (rewards : result Tensor) (f : RewardFn) : result Tensor :=
  r ← rewards; Torch.imul r (f base responses name).

Definition apply_penalty (responses : list Response) (task : RoleplayTask)
    (rewards : result Tensor) (f : PenaltyFn) : result Tensor :=
  r ← rewards; Torch.imul r (f responses task).2.

Definition compute_rewards (self : neuron) (task : RoleplayTask)
    (responses : list Response) (name : string) : result Tensor :=
  let rewards := Ok (Torch.zeros (length responses)) in
  let rewards :=
    foldl (apply_weighted (base_text task) responses name) rewards
          (zip (reward_weights self) (reward_functions self)) in
  let rewards :=
    foldl (apply_masking (base_text task) responses name) rewards
          (masking_functions self) in
  foldl (apply_penalty responses task) rewards (penalty_functions self).

(** ** One round (forward.py, lines 149-263) *)

Record Event : Type := mkEvent {
  ev_name : string;
  ev_task_type : string;
  ev_prompt : string;
  ev_uids : list nat;
  ev_completions : list string;
  ev_completion_times : list Qc;
  ev_completion_status_messages : list string;
  ev_completion_status_codes : list string;
  ev_rewards : Tensor;
  ev_gating_loss : Qc;
  ev_best : string;
}.

(** The trust-ledger update at the end of [run_step] (lines 221-232). *)
Definition update_moving_averaged_scores (alpha : Qc) (scores : Tensor)
    (uids : list nat) (rewards : Tensor) : result Tensor :=
  scattered_rewards ← Torch.scatter scores uids rewards;
  Torch.add (Torch.scale alpha scattered_rewards) (Torch.scale (1 - alpha)%Qc scores).

(** [run_step].  The sample keeps the dtype [get_random_uids] gave it:
    iterating over it and [tolist] read its entries, while
    [gating_scores[uids]] and [scatter] need an integer index.  The call of
    [backward] trains the gating model. *)
Definition run_step `{Utils} (self : neuron) (rng : Rng) (task : RoleplayTask)
    (k : Z) (timeout : Qc) (exclude : list nat) : result (neuron * Event) :=
  let name := task_name task in
  let task_message := mkMessage "system" (compose_instruction task) in
  let prompt := compose_prompt task in
  uids ← get_random_uids_tensor self rng k (Some exclude);
  axons ← mapM (py_index (axons (metagraph self))) (Torch.tolist uids);
  let synapse :=
    mkPrompting (character_name task) (character_description task)
      [character_name task] ["user"%string] [task_message]
      (get_criteria_strs task) in
  let responses := map (fun axon => dendrite self axon synapse timeout) axons in
  let self :=
    set_blacklist_added self
      (blacklist_added self ++
       [filter (fun c => c ≠ EmptyString) (map completion responses)]) in
  let responses := restrict_format_followup_responses responses name in
  rewards ← compute_rewards self task responses name;
  let gating_scores := gating_model self prompt in
  selected ← Torch.index gating_scores uids;
  let gating_loss := gating_backward self (gating_trained self) selected rewards in
  let self := set_gating_trained self (gating_trained self ++ [(selected, rewards)]) in
  let completions := map completion responses in
  let completion_status_message := map status_message responses in
  let completion_status_codes := map status_code responses in
  best_i ← Torch.argmax rewards;
  best ← PyStr.strip PyStr.is_space <$> py_index completions best_i;
  let completion_times := map (fun r => default 0%Qc (process_time r)) responses in
  let alpha := moving_average_alpha (config self) in
  scores ←
    match Torch.index_dtype uids with
    | Torch.int64 =>
        update_moving_averaged_scores alpha (moving_averaged_scores self)
          (Torch.tolist uids) rewards
    | Torch.float32 => Raise (RuntimeError "scatter(): Expected dtype int64 for index")
    end;
  let self := set_moving_averaged_scores self scores in
  mret (self,
        mkEvent name (task_type task) prompt (Torch.tolist uids) completions completion_times
          completion_status_message completion_status_codes rewards gating_loss best).

(** [forward]: one character flow.  The task is produced by the task
    generator from a character and is an input here; the event is dropped. *)
Definition forward `{Utils} (self : neuron) (rng : Rng) (task : RoleplayTask) : result neuron :=
  fst <$> run_step self rng task (followup_sample_size (config self))
            (followup_timeout (config self)) [].

(** ** Construction of the scoring pipeline (validator.py, lines 88-178) *)

Inductive RewardModelType : Type :=
  | rmt_blacklist | rmt_nsfw | rmt_mistral | rmt_relevance | rmt_diversity.

Inductive RewardModel : Type :=
  | MistralRewardModel
  | Blacklist
  | RelevanceRewardModel
  | DiversityRewardModel
  | NSFWRewardModel
  | MockRewardModel (name : RewardModelType).

Inductive PenaltyModel : Type :=
  | TaskValidationPenaltyModel (max_penalty : Qc)
  | ContentMatchPenaltyModel (max_penalty : Qc)
  | KeywordMatchPenaltyModel (max_penalty : Qc).

(** The configuration entries that [init_reward_models] reads.  The weight
    is a Python float, a finite one, as the rational it is. *)
Record RewardConfig : Type := mkRewardConfig {
  mock_reward_models : bool;
  mistral_weight : Qc;
  blacklist_off : bool;
  relevance_off : bool;
  diversity_off : bool;
  nsfw_off : bool;
}.

(** The attributes [init_reward_models] leaves on [self]. *)
Record RewardModels : Type := mkRewardModels {
  rm_reward_weights : list Qc;
  rm_reward_functions : list RewardModel;
  rm_blacklist : RewardModel;
  rm_diversity_model : option RewardModel;
  rm_masking_functions : list RewardModel;
  rm_penalty_functions : list PenaltyModel;
}.

(** What construction leaves in the log at level error, and the call of
    [init_wandb]. *)
Inductive InitEvent : Type :=
  | InitLogError (msg : string)
  | InitWandb.

(** [t.sum()]. *)
Definition tensor_sum (t : Tensor) : Qc := foldr Qcplus 0%Qc t.

(** The weights [init_reward_models] assigns to [self.reward_weights]
    before any check: none in the mock configuration, and the float32
    tensor of the configured weight otherwise ([None]: an infinite
    entry). *)
Definition configured_reward_weights (cfg : RewardConfig) : option Tensor :=
  if mock_reward_models cfg then Some [] else Torch.tensor_float32 [mistral_weight cfg].

(** [bt.logging.error(message); raise Exception(message)]. *)
Definition log_and_raise {A} (message : string) : list InitEvent * result A :=
  ([InitLogError message], Raise (Exception message)).

(** [init_reward_models]: the errors it logs and its outcome.  The sum that
    is compared with 1 is the sum of the float32 tensor; a tensor with an
    infinite entry has an infinite sum, which is not 1.  Each raise is
    preceded by the error log of the same message; the messages are
    abridged (the source interpolates the sum and the two lengths).  The
    constructors of the models are taken to return. *)
Definition init_reward_models (cfg : RewardConfig) : list InitEvent * result RewardModels :=
  if mock_reward_models cfg then
    let blacklist := MockRewardModel rmt_blacklist in
    ([], Ok {| rm_reward_weights := [];
               rm_reward_functions := [];
               rm_blacklist := blacklist;
               rm_diversity_model := None;
               rm_masking_functions := [blacklist; MockRewardModel rmt_nsfw];
               rm_penalty_functions :=
                 [TaskValidationPenaltyModel (Q2Qc (3 # 4));
                  ContentMatchPenaltyModel (Q2Qc (1 # 5));
                  KeywordMatchPenaltyModel 1%Qc] |})
  else
    match Torch.tensor_float32 [mistral_weight cfg] with
    | None => log_and_raise "Reward function weights do not sum to 1"
    | Some reward_weights =>
        if bool_decide (tensor_sum reward_weights ≠ 1%Qc) then
          log_and_raise "Reward function weights do not sum to 1"
        else
          let reward_functions :=
            [if bool_decide (0 < mistral_weight cfg)%Qc then MistralRewardModel
             else MockRewardModel rmt_mistral] in
          if bool_decide (length reward_functions ≠ length reward_weights) then
            log_and_raise
              "Length of reward function weights and reward functions do not match."
          else
            let blacklist :=
              if negb (blacklist_off cfg) then Blacklist else MockRewardModel rmt_blacklist in
            let relevance_model :=
              if negb (relevance_off cfg) then RelevanceRewardModel
              else MockRewardModel rmt_relevance in
            let diversity_model :=
              if negb (diversity_off cfg) then DiversityRewardModel
              else MockRewardModel rmt_diversity in
            let nsfw_model :=
              if negb (nsfw_off cfg) then NSFWRewardModel else MockRewardModel rmt_nsfw in
            ([], Ok {| rm_reward_weights := reward_weights;
                       rm_reward_functions := reward_functions;
                       rm_blacklist := blacklist;
                       rm_diversity_model := Some diversity_model;
                       rm_masking_functions := [blacklist; nsfw_model];
                       rm_penalty_functions :=
                         [TaskValidationPenaltyModel (Q2Qc (3 # 5));
                          ContentMatchPenaltyModel (Q2Qc (1 # 5));
                          KeywordMatchPenaltyModel 1%Qc] |})
    end.

(** ** The epoch loop (validator.py, lines 286-342) *)

(** The end of [__init__]: the epoch length is the override when it is set
    (truthy), and 100 otherwise. *)
Definition init_epoch_length (epoch_length_override : Z) : Z :=
  if bool_decide (epoch_length_override ≠ 0%Z) then epoch_length_override else 100%Z.

Definition set_epoch_length (cfg : Config) (len : Z) : Config :=
  mkConfig (vpermit_tao_limit cfg) (moving_average_alpha cfg) (followup_sample_size cfg)
    (followup_timeout cfg) (num_concurrent_forwards cfg) (epoch_length_override cfg) len.

Definition set_config (self : neuron) (cfg : Config) : neuron :=
  mkNeuron cfg (wallet_hotkey self) (metagraph self)
    (moving_averaged_scores self)
    (reward_weights self) (reward_functions self) (masking_functions self)
    (penalty_functions self) (dendrite self) (gating_forward self)
    (gating_backward self) (gating_trained self) (blacklist_added self) (prev_block self) (step self).

(** The last statements of [__init__] (lines 286-292), given the height
    [ttl_get_block] returns. *)
Definition init_epoch_state (self : neuron) (block : Z) : neuron :=
  let cfg := config self in
  let self := set_config self (set_epoch_length cfg (init_epoch_length (epoch_length_override cfg))) in
  set_step (set_prev_block self block) 0.

(** [should_update], given the height [ttl_get_block] returns. *)
Definition should_update (cur_block : Z) (self : neuron) : bool :=
  bool_decide (cur_block - prev_block self > epoch_length (config self))%Z.

(** What one iteration of the loop reads from its collaborators: the block
    heights [ttl_get_block] returns, the random draws and the task of each
    forward, what [checkpoint] leaves in the registry and the trust vector,
    what [should_set_weights] and [should_reinit_wandb] answer, and whether
    the chain accepted the weights ([set_weights] logs a failure and
    returns). *)
Record Round : Type := mkRound {
  block_at_log : Z;
  forward_inputs : nat -> Rng * RoleplayTask;
  block_at_check : Z;
  resynced : Metagraph * Tensor;
  weights_due : bool;
  commit_ok : bool;
  block_at_record : Z;
  wandb_due : bool;
}.

Inductive LoopEvent : Type :=
  | LogStep (step : nat) (block : Z)
  | Forwarded
  | Checkpoint
  | SetWeights (accepted : bool)
  | SaveState
  | ReinitWandb
  | LogError (title msg : string)
  | PrintException (err : exn).

(** [run_forward]: the forwards of one iteration; they update the shared
    state one after the other, and the first exception ends the gather. *)
Definition run_forward `{Utils} (self : neuron) (inputs : nat -> Rng * RoleplayTask)
    : result neuron :=
  foldl (fun acc i => self ← acc; forward self (inputs i).1 (inputs i).2)
        (Ok self) (seq 0 (num_concurrent_forwards (config self))).

(** The body of [if self.should_update():]. *)
Definition epoch_boundary (rd : Round) (self : neuron) : list LoopEvent * neuron :=
  let self := set_moving_averaged_scores (set_metagraph self (resynced rd).1) (resynced rd).2 in
  let commit := if weights_due rd then [SetWeights (commit_ok rd); SaveState] else [] in
  (Checkpoint :: commit, set_prev_block self (block_at_record rd)).

(** The body of [while True:]. *)
Definition iteration `{Utils} (rd : Round) (self : neuron) : list LoopEvent * result neuron :=
  if negb (bool_decide (wallet_hotkey self ∈ hotkeys (metagraph self))) then
    ([], Raise (Exception ("Validator is not registered - hotkey " +:+ wallet_hotkey self
                           +:+ " not in metagraph")))
  else
    let log := LogStep (step self) (block_at_log rd) in
    match run_forward self (forward_inputs rd) with
    | Raise err => ([log], Raise err)
    | Ok self =>
        let '(epoch, self) :=
          if should_update (block_at_check rd) self then epoch_boundary rd self
          else ([], self) in
        let wandb := if wandb_due rd then [ReinitWandb] else [] in
        (log :: Forwarded :: epoch ++ wandb, Ok (set_step self (S (step self))))
    end.

Inductive Outcome : Type :=
  | Running (self : neuron)
  | Stopped (err : exn).

(** [run], from the state [load_state] and the first [checkpoint] leave:
    the loop inside [try], and the handler that logs and ends it.  The loop
    runs for as many iterations as the environment describes. *)
Fixpoint run `{Utils} (rounds : list Round) (self : neuron) : list LoopEvent * Outcome :=
  match rounds with
  | [] => ([], Running self)
  | rd :: rest =>
      match iteration rd self with
      | (tr, Ok self') => let '(tr', out) := run rest self' in (tr ++ tr', out)
      | (tr, Raise err) =>
          (tr ++ [LogError "Error in training loop" (exn_str err); PrintException err],
           Stopped err)
      end
  end.

(** ** The trust ledger over several rounds, and as the specification words it *)

(** The ledger update of [run_step], round after round: each round brings
    the uids it queried and their rewards. *)
Fixpoint update_rounds (alpha : Qc) (scores : Tensor)
    (rounds : list (list nat * Tensor)) : result Tensor :=
  match rounds with
  | [] => Ok scores
  | (uids, rewards) :: rest =>
      scores' ← update_moving_averaged_scores alpha scores uids rewards;
      update_rounds alpha scores' rest
  end.

(** The update in the words of the specification: the rewards are scattered
    into a zero vector of the size of the registry, and the new trust is
    [alpha] times that sparse vector plus [1 - alpha] times the previous
    trust. *)
Definition sparse_trust_update (alpha : Qc) (scores : Tensor)
    (uids : list nat) (rewards : Tensor) : result Tensor :=
  sparse_scatter ← Torch.scatter (Torch.zeros (length scores)) uids rewards;
  Torch.add (Torch.scale alpha sparse_scatter) (Torch.scale (1 - alpha)%Qc scores).

(** The step of the loop of [Torch.scatter], on a pair. *)
Definition put (acc : Tensor) (iv : nat * Qc) : Tensor := <[iv.1 := iv.2]> acc.

(** A round the ledger accepts: distinct uids of the registry, a reward
    for each. *)
Definition round_ok (size : nat) (round : list nat * Tensor) : Prop :=
  NoDup round.1 /\ length round.1 <= length round.2 /\ Forall (fun u => u < size) round.1.

(** ** End-to-end scenario A *)

(** A registry of 5 peers, all available; previous trust all 0; one weighted
    scoring function of weight 1 that returns [0.2, 0.4, 0.6] on a batch of
    three responses; no masking and no penalty function; [alpha = 0.5]; a
    gating model that scores every registry position. *)
Definition scenario_A `{Utils} (self : neuron) (task : RoleplayTask) : Prop :=
  n (metagraph self) = 5
  /\ length (axons (metagraph self)) = 5
  /\ (forall uid, uid < 5 ->
        check_uid_availability (metagraph self) uid (vpermit_tao_limit (config self)) = true)
  /\ moving_averaged_scores self = Torch.zeros 5
  /\ reward_weights self = [1%Qc]
  /\ (exists f : RewardFn,
        reward_functions self = [f]
        /\ forall base responses name,
             length responses = 3 ->
             f base responses name = [Q2Qc (1 # 5); Q2Qc (2 # 5); Q2Qc (3 # 5)])
  /\ masking_functions self = []
  /\ penalty_functions self = []
  /\ moving_average_alpha (config self) = Q2Qc (1 # 2)
  /\ length (gating_model self (compose_prompt task)) = 5.

(** ** Readings of a loop trace *)

Definition is_checkpoint (ev : LoopEvent) : bool :=
  match ev with Checkpoint => true | _ => false end.

(** How many times a trace enters the epoch boundary: [checkpoint] is its
    first call. *)
Definition boundary_entries (tr : list LoopEvent) : nat :=
  length (List.filter is_checkpoint tr).

(** The part of the validator a forward leaves alone. *)
Definition same_loop_state (a b : neuron) : Prop :=
  config a = config b /\ wallet_hotkey a = wallet_hotkey b
  /\ metagraph a = metagraph b /\ prev_block a = prev_block b /\ step a = step b.

(** ** Predicates of the statements *)

(** The ends of the interval of the numbers that float32 rounds to 1:
    [1 - 2^-25] and [1 + 2^-24]. *)
Definition float32_one_min : Qc := Q2Qc (33554431 # 33554432).
Definition float32_one_max : Qc := Q2Qc (16777217 # 16777216).

(** The string [s] does not hold the character [c]. *)
Definition nochar (c : ascii) (s : string) : Prop := PyStr.has_char c s = false.

(** A word of a normalized completion: no space, period or question mark. *)
Definition word_ok (w : string) : Prop :=
  nochar space w /\ nochar dot w /\ nochar qmark w.

(** What the follow-up branch leaves before the question mark: at most
    [max_words] such words, joined by single spaces. *)
Definition normal_form (s : string) : Prop :=
  exists ws, s = PyStr.join " " ws /\ ws <> [] /\ length ws <= max_words
             /\ Forall word_ok ws.

(** The eligibility check of the sampler: a position of the registry that
    [check_uid_availability] accepts under the configured ceiling and that
    the exclusion list does not name. *)
Definition eligible `{Utils} (self : neuron) (exclude : option (list nat)) (uid : nat) : Prop :=
  uid < n (metagraph self)
  /\ check_uid_availability (metagraph self) uid (vpermit_tao_limit (config self)) = true
  /\ forall ex, exclude = Some ex -> uid ∉ ex.

(** The test of the loop of [get_random_uids], as one boolean. *)
Definition candidate `{Utils} (self : neuron) (exclude : option (list nat)) (uid : nat) : bool :=
  check_uid_availability (metagraph self) uid (vpermit_tao_limit (config self))
  && uid_is_not_excluded exclude uid.

(** The step shared by the masking loop and the penalty loop of
    [compute_rewards]: [rewards *= g x]. *)
Definition imul_step {X} (g : X -> Tensor) (acc : result Tensor) (x : X) : result Tensor :=
  r ← acc; Torch.imul r (g x).

(** The call contract of the scoring functions on a batch: one score, mask
    or penalty factor per response. *)
Definition well_shaped (self : neuron) (task : RoleplayTask)
    (responses : list Response) (name : string) : Prop :=
  Forall (fun f : RewardFn => length (f (base_text task) responses name) = length responses)
         (reward_functions self)
  /\ Forall (fun f : RewardFn => length (f (base_text task) responses name) = length responses)
            (masking_functions self)
  /\ Forall (fun f : PenaltyFn => length (f responses task).2 = length responses)
            (penalty_functions self).

(** ** Concrete validators, on which the statements are instantiated *)

Module Examples.

(** Two availability checks: every peer serves, and none does. *)
Definition all_available : Utils := {| check_uid_availability := fun _ _ _ => true |}.
Definition none_available : Utils := {| check_uid_availability := fun _ _ _ => false |}.

Definition half : Qc := Q2Qc (1 # 2).

(** A peer answers with the name of its endpoint. *)
Definition echo : AxonInfo -> Prompting -> Qc -> Response :=
  fun axon _ _ => mkResponse axon "200" "Success" None.

Definition registry : Metagraph :=
  mkMetagraph 5 ["a0"; "a1"; "a2"; "a3"; "a4"]%string ["hk0"; "hk1"]%string.

Definition settings : Config := mkConfig 4096 half 3 (Q2Qc 10) 1 0 100.

(** The scoring function of scenario A. *)
Definition score_A : RewardFn :=
  fun _ _ _ => [Q2Qc (1 # 5); Q2Qc (2 # 5); Q2Qc (3 # 5)].

(** Scenario A: the validator is registered under ["hk0"]. *)
Definition validator_A : neuron :=
  mkNeuron settings "hk0" registry (Torch.zeros 5)
    [1%Qc] [score_A] [] []
    echo (fun _ _ => Torch.zeros 5) (fun _ _ _ => 0%Qc) [] [] 1000 0.

(** Scenario B: every response scores 0.5 and the blacklist flags the
    second one. *)
Definition score_B : RewardFn := fun _ _ _ => [half; half; half].
Definition mask_B : RewardFn := fun _ _ _ => [1%Qc; 0%Qc; 1%Qc].

Definition validator_B : neuron :=
  mkNeuron settings "hk0" registry (Torch.zeros 5)
    [1%Qc] [score_B] [mask_B] []
    echo (fun _ _ => Torch.zeros 5) (fun _ _ _ => 0%Qc) [] [] 1000 0.

Definition responses_B : list Response :=
  [echo "a0" (mkPrompting "" "" [] [] [] []) 1%Qc;
   echo "a1" (mkPrompting "" "" [] [] [] []) 1%Qc;
   echo "a2" (mkPrompting "" "" [] [] [] []) 1%Qc].

(** A validator whose functions score a batch of any size: every response
    scores 0.5, nothing is masked, nothing is penalized. *)
Definition score_C : RewardFn := fun _ responses _ => (fun _ => half) <$> responses.
Definition mask_C : RewardFn := fun _ responses _ => (fun _ => 1%Qc) <$> responses.
Definition penalty_C : PenaltyFn :=
  fun responses _ =>
    let ones := (fun _ => 1%Qc) <$> responses in
    let zeros := (fun _ => 0%Qc) <$> responses in
    (zeros, zeros, ones).

Definition validator_C : neuron :=
  mkNeuron settings "hk0" registry (Torch.zeros 5)
    [1%Qc] [score_C] [mask_C] [penalty_C]
    echo (fun _ _ => Torch.zeros 5) (fun _ _ _ => 0%Qc) [] [] 1000 0.

(** A validator whose hotkey has left the registry. *)
Definition validator_gone : neuron :=
  mkNeuron settings "hk9" registry (Torch.zeros 5)
    [1%Qc] [score_A] [] []
    echo (fun _ _ => Torch.zeros 5) (fun _ _ _ => 0%Qc) [] [] 1000 0.

Definition task_A : RoleplayTask :=
  mkTask "followup" "roleplay" "Your name is Ada." "Your task is to ask a question."
    "Ask a question." "Ada" "Ada is a mathematician." ["Be brief."%string].

Definition rng_A : Rng := fun i => 7 * i + 3.

(** A round of the loop, 101 blocks after the last recorded height: the
    weights are due and the chain refuses them. *)
Definition round_A : Round :=
  mkRound 1101 (fun _ => (rng_A, task_A)) 1101 (registry, Torch.zeros 5)
    true false 1102 false.

(** The validator of scenario A after the forward of [round_A]. *)
Definition validator_A_forwarded : neuron :=
  match @run_forward all_available validator_A (forward_inputs round_A) with
  | Ok self => self
  | Raise _ => validator_A
  end.

(** A round whose resync brings a registry without the hotkey ["hk0"]. *)
Definition registry_without_hk0 : Metagraph :=
  mkMetagraph 5 ["a0"; "a1"; "a2"; "a3"; "a4"]%string ["hk1"; "hk2"]%string.

Definition round_drop : Round :=
  mkRound 1101 (fun _ => (rng_A, task_A)) 1101 (registry_without_hk0, Torch.zeros 5)
    true true 1102 false.

(** The trace and the validator of scenario A after [round_drop]. *)
Definition trace_dropped : list LoopEvent :=
  (@run all_available [round_drop] validator_A).1.

Definition validator_dropped : neuron :=
  match (@run all_available [round_drop] validator_A).2 with
  | Running self => self
  | Stopped _ => validator_A
  end.

Definition mock_config : RewardConfig := mkRewardConfig true 1%Qc false false false false.
Definition live_config : RewardConfig := mkRewardConfig false 1%Qc false false false false.

(** A weight of [1 + 2^-30]. *)
Definition rounded_config : RewardConfig :=
  mkRewardConfig false (Q2Qc (1073741825 # 1073741824)) false false false false.

End Examples.

(** ** Readings of scores, used in the statements on the aggregator *)

(** A value of the unit interval. *)
Definition in_unit (q : Qc) : Prop := (0 <= q)%Qc /\ (q <= 1)%Qc.

(** The weighted sum of the entries [i] of weighted score vectors. *)
Definition weighted_sum_at (wts : list (Qc * list Qc)) (i : nat) : Qc :=
  foldr (fun wt acc => (wt.1 * default 0%Qc (wt.2 !! i) + acc)%Qc) 0%Qc wts.

(** The product of the entries [i] of a list of vectors. *)
Definition product_at (ts : list (list Qc)) (i : nat) : Qc :=
  foldr (fun t acc => (default 1%Qc (t !! i) * acc)%Qc) 1%Qc ts.

(** What the configured functions of a validator return on a batch: the
    weighted scores in the pairing of [zip], the masks, and the applied
    penalties. *)
Definition weighted_scores (self : neuron) (task : RoleplayTask)
    (responses : list Response) (name : string) : list (Qc * list Qc) :=
  (fun wf : Qc * RewardFn => (wf.1, wf.2 (base_text task) responses name))
    <$> zip (reward_weights self) (reward_functions self).

Definition masks (self : neuron) (task : RoleplayTask)
    (responses : list Response) (name : string) : list (list Qc) :=
  (fun f : RewardFn => f (base_text task) responses name) <$> masking_functions self.

Definition applied_penalties (self : neuron) (task : RoleplayTask)
    (responses : list Response) : list (list Qc) :=
  (fun f : PenaltyFn => (f responses task).2) <$> penalty_functions self.

(** The validator with other masking functions. *)
Definition set_masking_functions (self : neuron) (fs : list RewardFn) : neuron :=
  mkNeuron (config self) (wallet_hotkey self) (metagraph self)
    (moving_averaged_scores self)
    (reward_weights self) (reward_functions self) fs
    (penalty_functions self) (dendrite self) (gating_forward self)
    (gating_backward self) (gating_trained self) (blacklist_added self) (prev_block self) (step self).

(** ** Further readings of a loop trace *)

(** The two events of the handler of [run]. *)
Definition is_error_event (ev : LoopEvent) : bool :=
  match ev with
  | LogError _ _ | PrintException _ => true
  | _ => false
  end.

(** ** Further concrete inputs *)

Module MoreExamples.

(** A round 50 blocks after the height that the validators of [Examples]
    recorded: the epoch has not elapsed. *)
Definition round_quiet : Round :=
  mkRound 1050 (fun _ => (Examples.rng_A, Examples.task_A)) 1050
    (Examples.registry, Torch.zeros 5) true true 1051 false.

(** A validator whose second masking function returns a single entry. *)
Definition mask_scalar : RewardFn := fun _ _ _ => [Examples.half].

Definition validator_D : neuron :=
  mkNeuron Examples.settings "hk0" Examples.registry (Torch.zeros 5)
    [1%Qc] [Examples.score_C] [Examples.mask_C; mask_scalar] [Examples.penalty_C]
    Examples.echo (fun _ _ => Torch.zeros 5) (fun _ _ _ => 0%Qc) [] [] 1000 0.

(** The mock configuration of the scoring pipeline: no weighted function. *)
Definition validator_mock : neuron :=
  mkNeuron Examples.settings "hk0" Examples.registry (Torch.zeros 5)
    [] [] [Examples.mask_C] [Examples.penalty_C]
    Examples.echo (fun _ _ => Torch.zeros 5) (fun _ _ _ => 0%Qc) [] [] 1000 0.

(** A validator with two masking functions: the blacklist of scenario B
    and a mask that lets everything pass. *)
Definition validator_E : neuron :=
  mkNeuron Examples.settings "hk0" Examples.registry (Torch.zeros 5)
    [1%Qc] [Examples.score_C] [Examples.mask_B; Examples.mask_C] [Examples.penalty_C]
    Examples.echo (fun _ _ => Torch.zeros 5) (fun _ _ _ => 0%Qc) [] [] 1000 0.

End MoreExamples.

(** ** The character flow (forward.py, lines 266-293) *)

Record Character : Type := mkCharacter {
  char_name : string;
  char_description : string;
}.

(** [s.split(sep, maxsplit=m)] for a one-character separator and [m >= 0]:
    at most [m] splits, the rest of the string in the last piece. *)
Fixpoint py_split_max (sep : ascii) (s : string) (maxsplit : nat) : list string :=
  match s with
  | EmptyString => [EmptyString]
  | String c s' =>
      match maxsplit with
      | 0 => [s]
      | S m =>
          if PyStr.is_char sep c then EmptyString :: py_split_max sep s' m
          else match py_split_max sep s' maxsplit with
               | w :: ws => String c w :: ws
               | [] => [String c EmptyString]
               end
      end
  end.

(** [".".join(description.split(".", maxsplit=cutoff)[:-1])]. *)
Definition truncate_description (description : string) (random_sentence_cutoff : nat)
    : string :=
  PyStr.join "." (removelast (py_split_max dot description random_sentence_cutoff)).

(** The text handed to [create_message_from_description_task]. *)
Definition description_prompt (character : Character) (random_sentence_cutoff : nat)
    : string :=
  "Your name is " +:+ char_name character
  +:+ ". Here is your character description: "
  +:+ truncate_description (char_description character) random_sentence_cutoff +:+ ".".

(** [run_character_flow], given the character that the character set
    yields and the cutoff that [random.randint(20, 30)] draws.  The task
    constructor lives in [prompting.validators.tasks] and is a parameter. *)
Definition run_character_flow `{Utils}
    (create_message_from_description_task : string -> Character -> RoleplayTask)
    (self : neuron) (rng : Rng) (character : Character) (random_sentence_cutoff : nat)
    : result neuron :=
  let message_from_description_task :=
    create_message_from_description_task
      (description_prompt character random_sentence_cutoff) character in
  fst <$> run_step self rng message_from_description_task
            (followup_sample_size (config self)) (followup_timeout (config self)) [].

(** ** Construction of the validator (validator.py, lines 80-86 and 180-292) *)

Inductive CharacterSetModel : Type := CharacterSet | MockCharacterSet.

Inductive GatingModelKind : Type :=
  | MockGatingModel (num_uids : nat)
  | SentenceEmbedGatingModel
  | GatingModel.

Inductive DendriteKind : Type := MockDendrite | Dendrite.

(** The configuration entries that [__init__] reads. *)
Record NeuronConfig : Type := mkNeuronConfig {
  netuid : Z;
  wallet_mock : bool;
  mock_character_set : bool;
  gating_num_uids : Z;
  mock_gating_model : bool;
  use_custom_gating_model : bool;
  axon_off : bool;
  mock_dendrite_pool : bool;
  wandb_off : bool;
  reward_config : RewardConfig;
  neuron_epoch_length_override : Z;
}.

(** What the collaborators answer during [__init__], each call in the order
    of the source: a call that raises is a [Raise].  [config_loaded] stands
    for the calls before the subtensor (the configuration, its check, the
    logger, the device). *)
Record InitEnv : Type := mkInitEnv {
  config_loaded : result unit;
  subtensor_created : result unit;
  wallet_created : result unit;
  hotkey_registered : result bool;
  synced_metagraph : result Metagraph;
  character_set_loaded : result unit;
  subtensor_max_n : result Z;
  gating_model_created : result unit;
  axon_created : result unit;
  axon_served : result unit;
  dendrite_created : result unit;
  event_loop : result unit;
  wandb_inited : result unit;
  init_block : result Z;
}.

(** The attributes [__init__] leaves on [self]. *)
Record Constructed : Type := mkConstructed {
  c_metagraph : Metagraph;
  c_hotkeys : list string;
  c_moving_averaged_scores : list Qc;
  c_character_set : CharacterSetModel;
  c_gating_num_uids : Z;
  c_gating_model : GatingModelKind;
  c_dendrite : DendriteKind;
  c_reward_models : RewardModels;
  c_epoch_length : Z;
  c_prev_block : Z;
  c_step : nat;
}.

(** A call that returns. *)
Definition returns {A} (r : result A) : Prop := exists a, r = Ok a.

Definition init_characterset (cfg : NeuronConfig) (env : InitEnv) : result CharacterSetModel :=
  _ ← character_set_loaded env;
  mret (if mock_character_set cfg then MockCharacterSet else CharacterSet).

(** The registration check of [__init__]: the chain is asked only when the
    wallet is not a mock. *)
Definition check_registered (cfg : NeuronConfig) (env : InitEnv) : result unit :=
  if negb (wallet_mock cfg) then
    registered ← hotkey_registered env;
    if negb registered then
      Raise (Exception ("Wallet not currently registered on netuid "
                        +:+ pretty.pretty (netuid cfg)
                        +:+ ", please first register wallet before running"))
    else mret ()
  else mret ().

(** The block that serves the axon: both failures are logged and passed
    over. *)
Definition serve_axon (cfg : NeuronConfig) (env : InitEnv) : list InitEvent :=
  if negb (axon_off cfg) then
    match axon_created env with
    | Ok _ =>
        match axon_served env with
        | Ok _ => []
        | Raise e => [InitLogError ("Failed to serve Axon with exception: " +:+ exn_str e)]
        end
    | Raise e =>
        [InitLogError ("Failed to create Axon initialize with exception: " +:+ exn_str e)]
    end
  else [].

(** [__init__] up to the block that serves the axon: nothing is logged at
    level error there. *)
Definition init_before_axon (cfg : NeuronConfig) (env : InitEnv)
    : result (Metagraph * list string * list Qc * CharacterSetModel * Z * GatingModelKind) :=
  _ ← config_loaded env;
  _ ← subtensor_created env;
  _ ← wallet_created env;
  _ ← check_registered cfg env;
  metagraph ← synced_metagraph env;
  let hotkeys := hotkeys metagraph in
  let moving_averaged_scores := Torch.zeros (n metagraph) in
  character_set ← init_characterset cfg env;
  num_uids ←
    (if bool_decide (gating_num_uids cfg ≠ 0%Z) then mret (gating_num_uids cfg)
     else subtensor_max_n env);
  _ ← gating_model_created env;
  let gating_model :=
    if mock_gating_model cfg then MockGatingModel (n metagraph)
    else if use_custom_gating_model cfg then SentenceEmbedGatingModel
    else GatingModel in
  mret (metagraph, hotkeys, moving_averaged_scores, character_set, num_uids, gating_model).

(** [__init__] after [init_reward_models]: the event loop, wandb and the
    block height. *)
Definition init_after_reward_models (cfg : NeuronConfig) (env : InitEnv)
    : result (list InitEvent * Z) :=
  _ ← event_loop env;
  wandb ← (if negb (wandb_off cfg) then _ ← wandb_inited env; mret [InitWandb]
           else mret []);
  block ← init_block env;
  mret (wandb, block).

Definition neuron_init (cfg : NeuronConfig) (env : InitEnv)
    : list InitEvent * result Constructed :=
  match init_before_axon cfg env with
  | Raise e => ([], Raise e)
  | Ok (metagraph, hotkeys, moving_averaged_scores, character_set, num_uids, gating_model) =>
      let axon_log := serve_axon cfg env in
      match dendrite_created env with
      | Raise e => (axon_log, Raise e)
      | Ok _ =>
          let dendrite := if mock_dendrite_pool cfg then MockDendrite else Dendrite in
          match init_reward_models (reward_config cfg) with
          | (log, Raise e) => (axon_log ++ log, Raise e)
          | (log, Ok models) =>
              match init_after_reward_models cfg env with
              | Raise e => (axon_log ++ log, Raise e)
              | Ok (wandb, block) =>
                  (axon_log ++ log ++ wandb,
                   Ok (mkConstructed metagraph hotkeys moving_averaged_scores character_set
                         num_uids gating_model dendrite models
                         (init_epoch_length (neuron_epoch_length_override cfg))
                         block 0))
              end
          end
      end
  end.

(** The errors in the log of a construction. *)
Definition is_init_error (ev : InitEvent) : bool :=
  match ev with InitLogError _ => true | InitWandb => false end.

(** A construction in which the axon cannot be created: a mock wallet is
    not used, the chain knows the hotkey, and every other call returns. *)
Definition config_axon_fails : NeuronConfig :=
  mkNeuronConfig 1 false true 0 true false false true true Examples.live_config 0.

Definition env_axon_fails : InitEnv :=
  mkInitEnv (Ok ()) (Ok ()) (Ok ()) (Ok true) (Ok Examples.registry) (Ok ()) (Ok 256%Z)
    (Ok ()) (Raise (RuntimeError "port in use")) (Ok ()) (Ok ()) (Ok ()) (Ok ())
    (Ok 1000%Z).

(* ================================================================= *)
(** * Part II: properties *)
(* ================================================================= *)


(** ** Python strings *)

Section PyStrFacts.
Import PyStr.
Implicit Types (c d : ascii) (s t w : string) (ws : list string).

Lemma is_char_refl c : is_char c c = true.
Proof. apply Ascii.eqb_refl. Qed.

Lemma nochar_cons c a s : nochar c (String a s) <-> is_char c a = false /\ nochar c s.
Proof. unfold nochar; simpl. apply orb_false_iff. Qed.

Lemma has_char_app c s t : has_char c (s +:+ t) = has_char c s || has_char c t.
Proof.
  induction s as [|a s IH]; simpl; [reflexivity|].
  change (String.append s t) with (s +:+ t). rewrite IH. apply orb_assoc.
Qed.

Lemma nochar_app c s t : nochar c s -> nochar c t -> nochar c (s +:+ t).
Proof. unfold nochar. rewrite has_char_app. intros -> ->. reflexivity. Qed.

Lemma lstrip_nochar c s : nochar c s -> lstrip (is_char c) s = s.
Proof. destruct s as [|a s]; [reflexivity|]. intros [Ha _]%nochar_cons. simpl. by rewrite Ha. Qed.

Lemma rstrip_nochar c s : nochar c s -> rstrip (is_char c) s = s.
Proof.
  induction s as [|a s IH]; [reflexivity|].
  intros [Ha Hs]%nochar_cons. simpl. rewrite (IH Hs), Ha. by destruct s.
Qed.

Lemma strip_nochar c s : nochar c s -> strip (is_char c) s = s.
Proof. intros Hs. unfold strip. by rewrite lstrip_nochar, rstrip_nochar. Qed.

Lemma split_not_nil c s : split c s <> [].
Proof.
  induction s as [|a s IH]; simpl; [discriminate|].
  destruct (is_char c a); [discriminate|]. by destruct (split c s).
Qed.

Lemma split_nochar c s : nochar c s -> split c s = [s].
Proof.
  induction s as [|a s IH]; [reflexivity|].
  intros [Ha Hs]%nochar_cons. simpl. by rewrite Ha, (IH Hs).
Qed.

(** The pieces of a split hold no separator, *)
Lemma split_pieces c s : Forall (nochar c) (split c s).
Proof.
  induction s as [|a s IH]; simpl.
  - by constructor.
  - destruct (is_char c a) eqn:Ha.
    + by constructor.
    + destruct (split c s) as [|w ws]; [by repeat constructor; apply nochar_cons|].
      inversion_clear IH. constructor; [by apply nochar_cons|done].
Qed.

(** and no character that the whole string did not hold. *)
Lemma split_keeps_nochar c d s : nochar d s -> Forall (nochar d) (split c s).
Proof.
  induction s as [|a s IH]; simpl; intros Hs.
  - by constructor.
  - apply nochar_cons in Hs as [Ha Hs]. specialize (IH Hs).
    destruct (is_char c a).
    + by constructor.
    + destruct (split c s) as [|w ws]; [by repeat constructor; apply nochar_cons|].
      inversion_clear IH. constructor; [by apply nochar_cons|done].
Qed.

Lemma split_app_sep c w t : nochar c w -> split c (w +:+ String c t) = w :: split c t.
Proof.
  induction w as [|a w IH]; simpl.
  - intros _. by rewrite is_char_refl.
  - intros [Ha Hw]%nochar_cons. rewrite Ha.
    change (String.append w (String c t)) with (w +:+ String c t). by rewrite (IH Hw).
Qed.

Lemma first_in (P : string -> Prop) ws : ws <> [] -> Forall P ws -> P (first ws).
Proof. destruct ws; [done|]. intros _ Hf. by inversion_clear Hf. Qed.

Lemma final_in (P : string -> Prop) ws : ws <> [] -> Forall P ws -> P (final ws).
Proof.
  intros Hne Hf. unfold final.
  destruct (list.last ws) as [w|] eqn:Hl; [|by apply last_None in Hl].
  apply last_Some in Hl as [l' ->]. apply Forall_app in Hf as [_ Hf]. by inversion_clear Hf.
Qed.

Lemma last_n_Forall {A} (P : A -> Prop) k (l : list A) : Forall P l -> Forall P (last_n k l).
Proof. apply Forall_drop. Qed.

Lemma last_n_length {A} k (l : list A) : length (last_n k l) <= k.
Proof. unfold last_n. rewrite length_drop. lia. Qed.

Lemma last_n_all {A} k (l : list A) : length l <= k -> last_n k l = l.
Proof. intros Hk. unfold last_n. by replace (length l - k) with 0 by lia. Qed.

Lemma last_n_not_nil {A} k (l : list A) : 0 < k -> l <> [] -> last_n k l <> [].
Proof.
  intros Hk Hl Heq. apply (f_equal length) in Heq. unfold last_n in Heq.
  rewrite length_drop in Heq. destruct l; [done|]. simpl in *. lia.
Qed.

Lemma join_nochar d ws : nochar d " " -> Forall (nochar d) ws -> nochar d (join " " ws).
Proof.
  intros Hd. induction 1 as [|w ws Hw Hws IH]; [reflexivity|].
  unfold join in *. simpl. destruct ws as [|w' ws']; [done|].
  apply nochar_app; [done|]. by apply (nochar_app _ " ").
Qed.

Lemma split_join c ws :
  ws <> [] -> Forall (nochar c) ws -> split c (join (String c "") ws) = ws.
Proof.
  intros Hne Hf. induction Hf as [|w ws Hw Hws IH]; [done|].
  unfold join in *. simpl. destruct ws as [|w' ws'].
  - by apply split_nochar.
  - change (String c "" +:+ String.concat (String c "") (w' :: ws'))
      with (String c (String.concat (String c "") (w' :: ws'))).
    rewrite split_app_sep by done. by rewrite IH.
Qed.

End PyStrFacts.

(** ** The response normalizer *)

Section Normalizer.
Import PyStr.
Implicit Types (s t w x : string) (ws : list string).

Lemma normal_form_fragment x :
  nochar dot x -> nochar qmark x ->
  normal_form (join " " (last_n max_words (split space x))).
Proof.
  intros Hdot Hq. exists (last_n max_words (split space x)). split; [done|].
  split; [apply last_n_not_nil; [unfold max_words; lia | apply split_not_nil]|].
  split; [apply last_n_length|].
  apply last_n_Forall.
  pose proof (split_pieces space x) as H1.
  pose proof (split_keeps_nochar space dot x Hdot) as H2.
  pose proof (split_keeps_nochar space qmark x Hq) as H3.
  rewrite Forall_forall in *. intros w Hw. repeat split; auto.
Qed.

Lemma normal_form_nochar s : normal_form s -> nochar dot s /\ nochar qmark s.
Proof.
  intros (ws & -> & _ & _ & Hf).
  split; apply join_nochar; try reflexivity;
    (eapply List.Forall_impl; [|exact Hf]); by intros w (? & ? & ?).
Qed.

Lemma normal_form_words s :
  normal_form s -> join " " (last_n max_words (split space s)) = s.
Proof.
  intros (ws & -> & Hne & Hlen & Hf).
  change " "%string with (String space "").
  rewrite split_join; [by rewrite last_n_all|done|].
  eapply List.Forall_impl; [|exact Hf]. by intros w (? & ? & ?).
Qed.

Lemma length_snoc_pos s t : (0 <? String.length (s +:+ String qmark t)) = true.
Proof. apply Nat.ltb_lt. destruct s; simpl; lia. Qed.

(** A normalized question is left as it is. *)
Lemma restrict_format_question_fixed t s :
  contains "followup" t = true -> normal_form s ->
  restrict_format_completion t (s +:+ "?") = s +:+ "?".
Proof.
  intros Ht Hs. destruct (normal_form_nochar s Hs) as [Hdot Hq].
  unfold restrict_format_completion.
  rewrite strip_nochar by (by apply nochar_app).
  rewrite Ht. change "?"%string with (String qmark "").
  rewrite length_snoc_pos. simpl andb. cbv iota.
  rewrite has_char_app. replace (has_char qmark (String qmark "")) with true by done.
  rewrite orb_true_r.
  rewrite split_app_sep by done. unfold first at 1. simpl head. simpl default.
  rewrite (split_nochar dot s) by done. unfold final at 1. simpl list.last. simpl default.
  by rewrite normal_form_words.
Qed.

(** So is a normalized sentence that is no question. *)
Lemma restrict_format_plain_fixed t s :
  normal_form s -> restrict_format_completion t s = s.
Proof.
  intros Hs. destruct (normal_form_nochar s Hs) as [Hdot Hq].
  unfold restrict_format_completion.
  rewrite strip_nochar by done.
  destruct (contains "followup" t && (0 <? String.length s)); [|done].
  rewrite Hq. rewrite (split_nochar dot s) by done.
  unfold final at 2. simpl list.last. simpl default.
  rewrite (split_nochar dot s) by done. unfold final at 1. simpl list.last. simpl default.
  by rewrite normal_form_words.
Qed.

Lemma restrict_format_completion_idem t c :
  restrict_format_completion t (restrict_format_completion t c)
  = restrict_format_completion t c.
Proof.
  unfold restrict_format_completion at 2 3.
  set (c1 := strip (is_char dot) c).
  destruct (contains "followup" t && (0 <? String.length c1)) eqn:Hc;
    [|unfold restrict_format_completion; fold c1; by rewrite Hc].
  apply andb_true_iff in Hc as [Ht Hlen].
  destruct (has_char qmark c1) eqn:Hq.
  - apply restrict_format_question_fixed; [done|].
    apply normal_form_fragment.
    + apply (final_in (nochar dot)); [apply split_not_nil | apply split_pieces].
    + apply (final_in (nochar qmark)); [apply split_not_nil|].
      apply split_keeps_nochar.
      apply (first_in (nochar qmark)); [apply split_not_nil | apply split_pieces].
  - apply restrict_format_plain_fixed.
    apply normal_form_fragment.
    + apply (final_in (nochar dot)); [apply split_not_nil | apply split_pieces].
    + apply (final_in (nochar qmark)); [apply split_not_nil|].
      apply split_keeps_nochar.
      apply (final_in (nochar qmark)); [apply split_not_nil|].
      by apply split_keeps_nochar.
Qed.

End Normalizer.

(** C5.  Applying the response normalizer twice gives the responses that
    applying it once gives, completions included, for every list of
    responses and every task name (a follow-up name or any other). *)
Theorem restrict_format_followup_responses_idempotent
    (responses : list Response) (task_name : string) :
  restrict_format_followup_responses
    (restrict_format_followup_responses responses task_name) task_name
  = restrict_format_followup_responses responses task_name
  /\ map completion
       (restrict_format_followup_responses
          (restrict_format_followup_responses responses task_name) task_name)
     = map completion (restrict_format_followup_responses responses task_name).
Proof.
  assert (restrict_format_followup_responses
            (restrict_format_followup_responses responses task_name) task_name
          = restrict_format_followup_responses responses task_name) as Heq.
  { unfold restrict_format_followup_responses. rewrite map_map.
    apply map_ext. intros r. unfold set_completion; simpl.
    by rewrite restrict_format_completion_idem. }
  split; [exact Heq | by rewrite Heq].
Qed.

(** C9 as stated fails: the normalizer keeps the case of the letters, so
    the follow-up completion is not turned into the lower-case text. *)
Lemma restrict_format_scenario_D_not_lowercase :
  restrict_format_completion "followup" "What do you like?." <> "what do you like?"%string.
Proof. vm_compute. discriminate. Qed.

(** C9, amended.  For a follow-up task, the completion "What do you like?."
    is normalized to "What do you like?", the case of its letters kept; the
    result has at most 40 words and ends in a question mark. *)
Theorem restrict_format_scenario_D (task_name : string) :
  PyStr.contains "followup" task_name = true ->
  let out := restrict_format_completion task_name "What do you like?." in
  out = "What do you like?"%string
  /\ length (PyStr.split space out) <= 40
  /\ exists w, out = w +:+ "?".
Proof.
  intros Ht. cbv zeta.
  assert (restrict_format_completion task_name "What do you like?."
          = "What do you like?"%string) as ->.
  { unfold restrict_format_completion.
    change (PyStr.strip (PyStr.is_char dot) "What do you like?.")
      with "What do you like?"%string.
    rewrite Ht. reflexivity. }
  split; [reflexivity|]. split; [vm_compute; lia|].
  by exists "What do you like"%string.
Qed.

Lemma restrict_format_scenario_D_witness :
  let out := restrict_format_completion "followup" "What do you like?." in
  out = "What do you like?"%string
  /\ length (PyStr.split space out) <= 40
  /\ exists w, out = w +:+ "?".
Proof. apply (restrict_format_scenario_D "followup"). reflexivity. Defined.

(** ** The peer sampler *)

Section Sampler.
Context `{Utils}.
Implicit Types (self : neuron) (rng : Rng) (uid : nat) (uids : list nat).

Lemma candidate_loop_filter self exclude (l acc : list nat) :
  foldl (fun acc uid => if candidate self exclude uid then acc ++ [uid] else acc) acc l
  = acc ++ List.filter (candidate self exclude) l.
Proof.
  revert acc. induction l as [|uid l IH]; intros acc; simpl.
  - by rewrite app_nil_r.
  - rewrite IH. destruct (candidate self exclude uid); [|done].
    by rewrite <- app_assoc.
Qed.

Lemma candidate_uids_filter self exclude :
  candidate_uids self exclude
  = List.filter (candidate self exclude) (seq 0 (n (metagraph self))).
Proof. unfold candidate_uids. apply (candidate_loop_filter self exclude _ []). Qed.

Lemma uid_is_not_excluded_spec exclude uid :
  uid_is_not_excluded exclude uid = true <-> forall ex, exclude = Some ex -> uid ∉ ex.
Proof.
  destruct exclude as [ex|]; simpl.
  - rewrite negb_true_iff, bool_decide_eq_false. split.
    + by intros Hn ex' [= <-].
    + intros Hn. by apply Hn.
  - split; [by intros _ ex [=] | done].
Qed.

Lemma elem_of_candidate_uids self exclude uid :
  uid ∈ candidate_uids self exclude <-> eligible self exclude uid.
Proof.
  rewrite candidate_uids_filter, list_elem_of_In, filter_In, in_seq.
  unfold candidate, eligible. rewrite andb_true_iff, uid_is_not_excluded_spec.
  intuition lia.
Qed.

Lemma NoDup_candidate_uids self exclude : NoDup (candidate_uids self exclude).
Proof.
  rewrite candidate_uids_filter.
  apply NoDup_ListNoDup, List.NoDup_filter, NoDup_ListNoDup, NoDup_seq.
Qed.

(** [k] draws take [k] elements out of the pool and leave the others. *)
Lemma draw_Permutation {A} rng (k i : nat) (pool : list A) :
  k <= length pool ->
  length (draw rng i k pool) = k /\ exists rest, pool ≡ₚ draw rng i k pool ++ rest.
Proof.
  revert i pool. induction k as [|k IH]; intros i pool Hk; simpl.
  - split; [done|]. by exists pool.
  - assert (rng i mod length pool < length pool) as Hj
      by (apply Nat.mod_upper_bound; lia).
    destruct (lookup_lt_is_Some_2 pool _ Hj) as [x Hx]. rewrite Hx.
    pose proof (delete_Permutation pool _ x Hx) as Hp.
    destruct (IH (S i) (delete (rng i mod length pool) pool)) as [Hlen [rest Hrest]].
    { rewrite length_delete by eauto. lia. }
    split; [simpl; lia|].
    exists rest. simpl. etrans; [exact Hp|]. by apply Permutation_skip.
Qed.

Lemma draw_all {A} rng (i : nat) (pool : list A) :
  draw rng i (length pool) pool ≡ₚ pool.
Proof.
  destruct (draw_Permutation rng (length pool) i pool) as [Hlen [rest Hrest]]; [done|].
  assert (rest = []) as ->.
  { apply Permutation_length in Hrest. rewrite length_app, Hlen in Hrest.
    destruct rest; [done | simpl in Hrest; lia]. }
  by rewrite app_nil_r in Hrest.
Qed.

Lemma get_random_uids_draw self rng (k : Z) exclude :
  (0 <= k)%Z ->
  get_random_uids self rng k exclude
  = Ok (draw rng 0 (Z.to_nat k `min` length (candidate_uids self exclude))
          (candidate_uids self exclude)).
Proof.
  intros Hk. unfold get_random_uids.
  destruct (candidate_uids self exclude) as [|c cs] eqn:Hc.
  - by destruct (Z.to_nat k `min` length []).
  - rewrite <- Hc. unfold random_sample.
    destruct (bool_decide (Z.of_nat (length (candidate_uids self exclude)) < k)%Z)
      eqn:Hlt.
    + apply bool_decide_eq_true in Hlt.
      rewrite bool_decide_eq_true_2 by lia. f_equal. f_equal. lia.
    + apply bool_decide_eq_false in Hlt.
      rewrite bool_decide_eq_true_2 by lia. f_equal. f_equal. lia.
Qed.

End Sampler.

(** C4.  For every registry, every [k >= 0] and every exclusion list,
    [get_random_uids] returns at most [k] ids without repetition, each of
    them eligible (a registry position that passes the availability check
    under the configured ceiling and is not excluded); and when fewer than
    [k] peers are eligible it returns exactly the eligible ids, without
    padding and without an error. *)
Theorem get_random_uids_spec `{Utils} (self : neuron) (rng : Rng) (k : Z)
    (exclude : option (list nat)) :
  (0 <= k)%Z ->
  exists uids,
    get_random_uids self rng k exclude = Ok uids
    /\ (Z.of_nat (length uids) <= k)%Z
    /\ NoDup uids
    /\ (forall uid, uid ∈ uids -> eligible self exclude uid)
    /\ (forall all_eligible : list nat,
          NoDup all_eligible ->
          (forall uid, uid ∈ all_eligible <-> eligible self exclude uid) ->
          (Z.of_nat (length all_eligible) < k)%Z ->
          uids ≡ₚ all_eligible).
Proof.
  intros Hk. rewrite get_random_uids_draw by done.
  set (cs := candidate_uids self exclude).
  set (k' := Z.to_nat k `min` length cs).
  destruct (draw_Permutation rng k' 0 cs) as [Hlen [rest Hrest]]; [lia|].
  eexists. split; [done|]. split; [lia|].
  pose proof (NoDup_candidate_uids self exclude) as Hnd. fold cs in Hnd.
  split; [|split].
  - rewrite Hrest in Hnd. by apply list.NoDup_app in Hnd as [? _].
  - intros uid Huid. apply elem_of_candidate_uids. fold cs.
    rewrite Hrest. apply elem_of_app. by left.
  - intros el Hel Hiff Hlt.
    assert (el ≡ₚ cs) as Hperm.
    { apply NoDup_Permutation; [done..|].
      intros uid. rewrite Hiff. symmetry. apply elem_of_candidate_uids. }
    rewrite Hperm. replace k' with (length cs).
    + apply draw_all.
    + apply Permutation_length in Hperm. lia.
Qed.

(** ** The reward aggregator *)

Section Aggregator.
Implicit Types (r m t : Tensor) (i : nat).

Lemma expand_to_same (k : nat) t : length t = k -> Torch.expand_to k t = Ok t.
Proof. intros Hk. unfold Torch.expand_to. by rewrite (proj2 (Nat.eqb_eq _ _) Hk). Qed.

Lemma expand_to_spec (k : nat) t t' :
  Torch.expand_to k t = Ok t' ->
  length t' = k /\ forall i x, i < k -> t !! i = Some x -> t' !! i = Some x.
Proof.
  unfold Torch.expand_to. destruct (length t =? k) eqn:Hk.
  - intros [= <-]. apply Nat.eqb_eq in Hk. by split.
  - destruct t as [|y [|? ?]]; try discriminate. intros [= <-].
    split; [apply length_replicate|].
    intros [|i] x Hi [=]; subst. by apply lookup_replicate_2.
Qed.

Lemma imul_spec r m r' :
  Torch.imul r m = Ok r' ->
  length r' = length r
  /\ forall i, r !! i = Some 0%Qc \/ (i < length r /\ m !! i = Some 0%Qc) ->
               r' !! i = Some 0%Qc.
Proof.
  unfold Torch.imul. destruct (Torch.expand_to (length r) m) as [m'|e] eqn:Hm; [|done].
  intros [= <-]. apply expand_to_spec in Hm as [Hlen Hm].
  split; [rewrite length_zip_with; lia|].
  intros i Hi. rewrite lookup_zip_with.
  assert (i < length r) as Hlt.
  { destruct Hi as [Hi|[? _]]; [by apply lookup_lt_Some in Hi | done]. }
  destruct (lookup_lt_is_Some_2 r i Hlt) as [x Hx].
  destruct (lookup_lt_is_Some_2 m' i ltac:(lia)) as [y Hy].
  rewrite Hx, Hy. simpl. f_equal.
  destruct Hi as [Hi|[_ Hi]].
  - rewrite Hx in Hi. injection Hi as ->. ring.
  - rewrite (Hm i 0%Qc Hlt Hi) in Hy. injection Hy as <-. ring.
Qed.

Lemma iadd_spec r m r' : Torch.iadd r m = Ok r' -> length r' = length r.
Proof.
  unfold Torch.iadd. destruct (Torch.expand_to (length r) m) as [m'|e] eqn:Hm; [|done].
  intros [= <-]. apply expand_to_spec in Hm as [Hlen _].
  rewrite length_zip_with. lia.
Qed.

Lemma imul_total r m : length m = length r -> exists r', Torch.imul r m = Ok r'.
Proof. intros Hm. unfold Torch.imul. rewrite expand_to_same by done. by eexists. Qed.

Lemma iadd_total r m : length m = length r -> exists r', Torch.iadd r m = Ok r'.
Proof. intros Hm. unfold Torch.iadd. rewrite expand_to_same by done. by eexists. Qed.

(** *** Folds of in-place products: masking and penalties *)

Context {X : Type} (g : X -> Tensor).

Lemma foldl_imul_Raise (xs : list X) e : foldl (imul_step g) (Raise e) xs = Raise e.
Proof. induction xs; simpl; auto. Qed.

Lemma foldl_imul_keep (xs : list X) acc r' :
  foldl (imul_step g) acc xs = Ok r' ->
  exists r, acc = Ok r /\ length r' = length r
            /\ forall i, r !! i = Some 0%Qc -> r' !! i = Some 0%Qc.
Proof.
  revert acc. induction xs as [|x xs IH]; intros acc; simpl.
  - intros ->. by exists r'.
  - intros Hf. apply IH in Hf as (r1 & Hstep & Hlen & Hz).
    destruct acc as [r|e]; [|done]. simpl in Hstep.
    apply imul_spec in Hstep as [Hlen1 Hz1].
    exists r. split; [done|]. split; [lia|]. intros i Hi. apply Hz, Hz1. by left.
Qed.

Lemma foldl_imul_hit (xs : list X) x r r' i :
  x ∈ xs -> g x !! i = Some 0%Qc -> i < length r ->
  foldl (imul_step g) (Ok r) xs = Ok r' -> r' !! i = Some 0%Qc.
Proof.
  revert r. induction xs as [|x0 xs IH]; intros r Hx Hg Hi; [by apply elem_of_nil in Hx|].
  simpl. intros Hf.
  destruct (foldl_imul_keep _ _ _ Hf) as (r1 & Hstep & Hlen & Hz).
  rewrite Hstep in Hf. pose proof (imul_spec _ _ _ Hstep) as [Hlen1 Hz1].
  apply elem_of_cons in Hx as [->|Hx].
  - apply Hz, Hz1. by right.
  - apply (IH r1); [done..|lia|done].
Qed.

Lemma foldl_imul_total (xs : list X) r :
  Forall (fun x => length (g x) = length r) xs ->
  exists r', foldl (imul_step g) (Ok r) xs = Ok r' /\ length r' = length r.
Proof.
  revert r. induction xs as [|x xs IH]; intros r Hf; simpl.
  - by exists r.
  - inversion_clear Hf as [|? ? Hx Hxs].
    destruct (imul_total r (g x) Hx) as [r1 Hr1]. rewrite Hr1.
    pose proof (imul_spec _ _ _ Hr1) as [Hlen1 _].
    destruct (IH r1) as (r' & Hr' & Hlen').
    { eapply List.Forall_impl; [|exact Hxs]. simpl. intros; lia. }
    exists r'. split; [done | lia].
Qed.

End Aggregator.

Section AggregatorWeighted.
Context (base : string) (responses : list Response) (name : string).

Lemma foldl_weighted_keep (wfs : list (Qc * RewardFn)) acc r' :
  foldl (apply_weighted base responses name) acc wfs = Ok r' ->
  exists r, acc = Ok r /\ length r' = length r.
Proof.
  revert acc. induction wfs as [|wf wfs IH]; intros acc; simpl.
  - intros ->. by exists r'.
  - intros Hf. apply IH in Hf as (r1 & Hstep & Hlen).
    destruct acc as [r|e]; [|done]. simpl in Hstep.
    apply iadd_spec in Hstep. exists r. split; [done | lia].
Qed.

Lemma foldl_weighted_total (wfs : list (Qc * RewardFn)) r :
  Forall (fun wf => length (wf.2 base responses name) = length r) wfs ->
  exists r', foldl (apply_weighted base responses name) (Ok r) wfs = Ok r'
             /\ length r' = length r.
Proof.
  revert r. induction wfs as [|wf wfs IH]; intros r Hf; simpl.
  - by exists r.
  - inversion_clear Hf as [|? ? Hx Hxs].
    destruct (iadd_total r (Torch.scale wf.1 (wf.2 base responses name))) as [r1 Hr1].
    { unfold Torch.scale. by rewrite length_fmap. }
    rewrite Hr1. pose proof (iadd_spec _ _ _ Hr1) as Hlen1.
    destruct (IH r1) as (r' & Hr' & Hlen').
    { eapply List.Forall_impl; [|exact Hxs]. simpl. intros; lia. }
    exists r'. split; [done | lia].
Qed.

End AggregatorWeighted.

Lemma Forall_zip_snd {A B} (P : B -> Prop) (l : list A) (k : list B) :
  Forall P k -> Forall (fun ab => P ab.2) (zip l k).
Proof.
  intros Hk. revert l. induction Hk as [|b k Hb Hk IH]; intros [|a l]; simpl;
    constructor; auto.
Qed.

(** Whatever the scoring functions return, a reward vector that
    [compute_rewards] returns is zero wherever a masking function is zero. *)
Lemma compute_rewards_masked_if_returns (self : neuron) (task : RoleplayTask)
    (responses : list Response) (name : string) (m : RewardFn) (i : nat) rewards :
  compute_rewards self task responses name = Ok rewards ->
  m ∈ masking_functions self ->
  i < length responses ->
  m (base_text task) responses name !! i = Some 0%Qc ->
  rewards !! i = Some 0%Qc.
Proof.
  unfold compute_rewards. intros Hp Hm Hi Hz.
  apply (foldl_imul_keep (fun f : PenaltyFn => (f responses task).2)) in Hp
    as (r2 & Hmask & _ & Hkeep).
  apply Hkeep. clear Hkeep.
  pose proof (foldl_imul_keep (fun f : RewardFn => f (base_text task) responses name)
                _ _ _ Hmask) as (r1 & Hw & Hlen & _).
  pose proof (foldl_weighted_keep _ _ _ _ _ _ Hw) as (r0 & [= <-] & Hlen0).
  unfold apply_masking in Hmask. rewrite Hw in Hmask.
  apply (foldl_imul_hit (fun f : RewardFn => f (base_text task) responses name)
           (masking_functions self) m r1 r2 i); [done..| |done].
  unfold Torch.zeros in Hlen0. rewrite length_replicate in Hlen0. lia.
Qed.

(** Under the call contract the aggregation returns, one reward per
    response: it tolerates every batch, the empty one included. *)
Lemma compute_rewards_total (self : neuron) (task : RoleplayTask)
    (responses : list Response) (name : string) :
  well_shaped self task responses name ->
  exists rewards,
    compute_rewards self task responses name = Ok rewards
    /\ length rewards = length responses.
Proof.
  intros (Hw & Hmk & Hp). unfold compute_rewards.
  assert (length (Torch.zeros (length responses)) = length responses) as Hz0
    by apply length_replicate.
  destruct (foldl_weighted_total (base_text task) responses name
              (zip (reward_weights self) (reward_functions self))
              (Torch.zeros (length responses))) as (r1 & -> & Hlen1).
  { apply (Forall_zip_snd (fun f : RewardFn => length (f _ _ _) = _)).
    by rewrite Hz0. }
  destruct (foldl_imul_total (fun f : RewardFn => f (base_text task) responses name)
              (masking_functions self) r1) as (r2 & Hr2 & Hlen2).
  { by rewrite Hlen1, Hz0. }
  unfold apply_masking, apply_penalty. unfold imul_step in Hr2. rewrite Hr2.
  destruct (foldl_imul_total (fun f : PenaltyFn => (f responses task).2)
              (penalty_functions self) r2) as (r3 & Hr3 & Hlen3).
  { by rewrite Hlen2, Hlen1, Hz0. }
  exists r3. split; [exact Hr3 | lia].
Qed.

(** C2.  For every response batch, every set of weighted scoring functions
    (whatever their values, those of [0,1] included), every set of masking
    and penalty functions, and every index [i] of the batch: if a masking
    function returns 0 at [i], then every reward vector [compute_rewards]
    returns is 0 at [i]; and it does return one, with an entry per
    response, when the scoring functions return an entry per response. *)
Theorem compute_rewards_masked (self : neuron) (task : RoleplayTask)
    (responses : list Response) (name : string) (m : RewardFn) (i : nat) :
  m ∈ masking_functions self ->
  i < length responses ->
  m (base_text task) responses name !! i = Some 0%Qc ->
  (forall rewards,
     compute_rewards self task responses name = Ok rewards ->
     rewards !! i = Some 0%Qc)
  /\ (well_shaped self task responses name ->
      exists rewards,
        compute_rewards self task responses name = Ok rewards
        /\ length rewards = length responses
        /\ rewards !! i = Some 0%Qc).
Proof.
  intros Hm Hi Hz.
  assert (forall rewards,
            compute_rewards self task responses name = Ok rewards ->
            rewards !! i = Some 0%Qc) as Hzero.
  { intros rewards Hr.
    by apply (compute_rewards_masked_if_returns self task responses name m i). }
  split; [exact Hzero|]. intros Hws.
  destruct (compute_rewards_total self task responses name Hws) as (rewards & Hr & Hlen).
  exists rewards. split; [done|]. split; [done|]. by apply Hzero.
Qed.

(** ** The trust ledger *)

Section Ledger.
Implicit Types (t scores rewards : Tensor) (uids : list nat) (alpha : Qc).

Lemma scatter_fold t uids rewards :
  foldl (fun acc '(i, v) => <[i := v]> acc) t (zip uids rewards)
  = foldl put t (zip uids rewards).
Proof.
  generalize (zip uids rewards). intros ivs. revert t.
  induction ivs as [|[i v] ivs IH]; intros t; simpl; [done | by rewrite IH].
Qed.

Lemma foldl_put_length t (ivs : list (nat * Qc)) : length (foldl put t ivs) = length t.
Proof.
  revert t. induction ivs as [|iv ivs IH]; intros t; simpl; [done|].
  rewrite IH. apply length_insert.
Qed.

Lemma foldl_put_other t (ivs : list (nat * Qc)) j :
  j ∉ ivs.*1 -> foldl put t ivs !! j = t !! j.
Proof.
  revert t. induction ivs as [|[i v] ivs IH]; intros t Hj; simpl; [done|].
  simpl in Hj. apply not_elem_of_cons in Hj as [Hne Hj].
  rewrite IH by done. unfold put; simpl. by apply list_lookup_insert_ne.
Qed.

Lemma foldl_put_at t (ivs : list (nat * Qc)) p u v :
  NoDup ivs.*1 -> ivs !! p = Some (u, v) -> u < length t ->
  foldl put t ivs !! u = Some v.
Proof.
  revert t p. induction ivs as [|[i w] ivs IH]; intros t p Hnd Hp Hu; [done|].
  simpl in Hnd. apply list.NoDup_cons in Hnd as [Hi Hnd]. simpl.
  destruct p as [|p]; simpl in Hp.
  - injection Hp as -> ->. rewrite foldl_put_other by done.
    unfold put; simpl. by apply list_lookup_insert_eq.
  - apply (IH _ p); [done..|]. unfold put. by rewrite length_insert.
Qed.

Lemma scatter_spec t uids rewards :
  length uids <= length rewards -> Forall (fun u => u < length t) uids ->
  exists t', Torch.scatter t uids rewards = Ok t'
    /\ length t' = length t
    /\ (forall j, j ∉ uids -> t' !! j = t !! j)
    /\ (NoDup uids -> forall p u v,
          uids !! p = Some u -> rewards !! p = Some v -> t' !! u = Some v).
Proof.
  intros Hlen Hin. unfold Torch.scatter.
  rewrite (proj2 (Nat.leb_le _ _) Hlen).
  assert (forallb (fun i => i <? length t) uids = true) as ->.
  { apply forallb_forall. intros u Hu. apply Nat.ltb_lt.
    rewrite Forall_forall in Hin. by apply Hin. }
  simpl. eexists. split; [done|]. rewrite scatter_fold.
  split; [apply foldl_put_length|]. split.
  - intros j Hj. apply foldl_put_other. by rewrite fst_zip.
  - intros Hnd p u v Hu Hv. apply (foldl_put_at _ _ p).
    + by rewrite fst_zip.
    + by apply lookup_zip_Some.
    + rewrite Forall_forall in Hin. apply Hin, list_elem_of_In.
      by eapply list_elem_of_lookup_2.
Qed.

Lemma add_scaled_lookup alpha (a b : Tensor) :
  length a = length b ->
  exists c, Torch.add (Torch.scale alpha a) (Torch.scale (1 - alpha)%Qc b) = Ok c
    /\ length c = length b
    /\ (forall j x y, a !! j = Some x -> b !! j = Some y ->
                      c !! j = Some (alpha * x + (1 - alpha) * y)%Qc).
Proof.
  intros Hlen. unfold Torch.add, Torch.scale. rewrite !length_fmap.
  rewrite (proj2 (Nat.eqb_eq _ _) Hlen). eexists. split; [done|].
  split; [rewrite length_zip_with, !length_fmap; lia|].
  intros j x y Hx Hy. rewrite lookup_zip_with, !list_lookup_fmap, Hx, Hy. done.
Qed.

(** One update: the moving average at the queried positions, the previous
    trust at the others. *)
Lemma update_step_spec alpha scores uids rewards :
  round_ok (length scores) (uids, rewards) ->
  exists new,
    update_moving_averaged_scores alpha scores uids rewards = Ok new
    /\ length new = length scores
    /\ (forall p u v x,
          uids !! p = Some u -> rewards !! p = Some v -> scores !! u = Some x ->
          new !! u = Some (alpha * v + (1 - alpha) * x)%Qc)
    /\ (forall j, j ∉ uids -> new !! j = scores !! j).
Proof.
  intros (Hnd & Hlen & Hin). simpl in *.
  destruct (scatter_spec scores uids rewards Hlen Hin) as (t' & Ht' & Hl' & Hother & Hat).
  destruct (add_scaled_lookup alpha t' scores Hl') as (new & Hnew & Hln & Hlook).
  exists new. unfold update_moving_averaged_scores. rewrite Ht'. simpl.
  split; [done|]. split; [done|]. split.
  - intros p u v x Hu Hv Hx. apply Hlook; [|done]. by apply (Hat Hnd p).
  - intros j Hj. destruct (scores !! j) as [x|] eqn:Hx.
    + rewrite (Hlook j x x); [f_equal; ring | by rewrite Hother | done].
    + apply lookup_ge_None. apply lookup_ge_None in Hx. lia.
Qed.

(** Round after round, a position that no round queries keeps its trust. *)
Lemma update_rounds_spec alpha scores (rounds : list (list nat * Tensor)) :
  Forall (round_ok (length scores)) rounds ->
  exists new,
    update_rounds alpha scores rounds = Ok new
    /\ length new = length scores
    /\ (forall j, Forall (fun round => j ∉ round.1) rounds -> new !! j = scores !! j).
Proof.
  revert scores. induction rounds as [|[uids rewards] rounds IH]; intros scores Hok.
  - exists scores. by repeat split.
  - inversion_clear Hok as [|? ? Hrd Hrest].
    destruct (update_step_spec alpha scores uids rewards Hrd)
      as (s1 & Hs1 & Hl1 & _ & Hkeep1).
    destruct (IH s1) as (new & Hnew & Hln & Hkeep); [by rewrite Hl1|].
    exists new. simpl. rewrite Hs1. simpl.
    split; [done|]. split; [lia|].
    intros j Hj. inversion_clear Hj as [|? ? Hj1 Hjrest].
    rewrite Hkeep by done. by apply Hkeep1.
Qed.

End Ledger.

(** C1 as stated fails: the rewards are scattered into a copy of the
    previous trust vector, not into zeros.  With trust [1, 1], peer 0
    queried with reward 0 and [alpha = 1/2], peer 1 keeps the trust 1, where
    the update of the specification leaves it 1/2. *)
Lemma update_moving_averaged_scores_not_sparse :
  (0 < Q2Qc (1 # 2) /\ Q2Qc (1 # 2) <= 1)%Qc
  /\ update_moving_averaged_scores (Q2Qc (1 # 2)) [1; 1]%Qc [0] [0%Qc]
     = Ok [Q2Qc (1 # 2); 1%Qc]
  /\ sparse_trust_update (Q2Qc (1 # 2)) [1; 1]%Qc [0] [0%Qc]
     = Ok [Q2Qc (1 # 2); Q2Qc (1 # 2)]
  /\ update_moving_averaged_scores (Q2Qc (1 # 2)) [1; 1]%Qc [0] [0%Qc]
     <> sparse_trust_update (Q2Qc (1 # 2)) [1; 1]%Qc [0] [0%Qc].
Proof. repeat split; compute_done. Qed.

(** C1, amended.  For every update whose uids are distinct positions of the
    registry, each with a reward, the new trust vector has the size of the
    previous one; at a queried position it is [alpha] times the reward plus
    [1 - alpha] times the previous trust; at every other position it is the
    previous trust, unchanged (the rewards are scattered into a copy of the
    previous trust vector).  Consequently a peer that no round queries
    across N consecutive rounds keeps its prior trust. *)
Theorem update_moving_averaged_scores_spec (alpha : Qc) (scores : Tensor) :
  (forall uids rewards,
     round_ok (length scores) (uids, rewards) ->
     exists new,
       update_moving_averaged_scores alpha scores uids rewards = Ok new
       /\ length new = length scores
       /\ (forall p u v x,
             uids !! p = Some u -> rewards !! p = Some v -> scores !! u = Some x ->
             new !! u = Some (alpha * v + (1 - alpha) * x)%Qc)
       /\ (forall j, j ∉ uids -> new !! j = scores !! j))
  /\ (forall rounds,
        Forall (round_ok (length scores)) rounds ->
        exists new,
          update_rounds alpha scores rounds = Ok new
          /\ length new = length scores
          /\ (forall j, Forall (fun round => j ∉ round.1) rounds ->
                        new !! j = scores !! j)).
Proof.
  split.
  - intros uids rewards. apply update_step_spec.
  - apply update_rounds_spec.
Qed.

(** ** One round *)

Lemma bind_Ok {A B} (a : A) (f : A -> result B) : (Ok a ≫= f) = f a.
Proof. reflexivity. Qed.

Lemma bind_Raise {A B} (e : exn) (f : A -> result B) : (Raise e ≫= f) = Raise e.
Proof. reflexivity. Qed.

Lemma fmap_Ok {A B} (a : A) (f : A -> B) : (f <$> Ok a) = Ok (f a).
Proof. reflexivity. Qed.

Lemma py_index_Some {A} (l : list A) (i : nat) (x : A) :
  l !! i = Some x -> py_index l i = Ok x.
Proof. unfold py_index. by intros ->. Qed.

(** [[l[i] for i in idx]] succeeds when every index is in range. *)
Lemma mapM_py_index_ok {A} (l : list A) (idx : list nat) :
  Forall (fun i => i < length l) idx ->
  exists xs, mapM (py_index l) idx = Ok xs /\ length xs = length idx.
Proof.
  induction 1 as [|i idx Hi Hidx (xs & Hxs & Hlen)]; simpl.
  - by exists [].
  - destruct (lookup_lt_is_Some_2 l i Hi) as [x Hx].
    exists (x :: xs). rewrite (py_index_Some l i x Hx), bind_Ok, Hxs, bind_Ok.
    split; [done | simpl; lia].
Qed.

Section Round.
Context `{Utils}.

(** The tensor of the sampler holds the sample of [get_random_uids]; it is
    a float tensor exactly when the sample is empty although there are
    candidates. *)
Lemma get_random_uids_tensor_spec (self : neuron) rng k exclude :
  get_random_uids_tensor self rng k exclude
  = (fun uids =>
       Torch.mkIndexTensor
         (match candidate_uids self exclude, uids with
          | _ :: _, [] => Torch.float32
          | _, _ => Torch.int64
          end) uids)
    <$> get_random_uids self rng k exclude.
Proof.
  unfold get_random_uids_tensor, get_random_uids.
  destruct (candidate_uids self exclude) as [|c cs]; [done|].
  destruct (random_sample rng (c :: cs) _) as [[|u uids]|e]; done.
Qed.

(** A sample that is not empty indexes as an int64 tensor. *)
Lemma get_random_uids_tensor_cons (self : neuron) rng k exclude u uids :
  get_random_uids self rng k exclude = Ok (u :: uids) ->
  get_random_uids_tensor self rng k exclude = Ok (Torch.LongTensor (u :: uids)).
Proof.
  intros Huids. rewrite get_random_uids_tensor_spec, Huids.
  by destruct (candidate_uids self exclude).
Qed.

(** What a returned tensor holds. *)
Lemma get_random_uids_tensor_Ok (self : neuron) rng k exclude uids :
  get_random_uids_tensor self rng k exclude = Ok uids ->
  get_random_uids self rng k exclude = Ok (Torch.tolist uids)
  /\ (Torch.index_dtype uids = Torch.int64 \/ Torch.tolist uids = []).
Proof.
  rewrite get_random_uids_tensor_spec.
  destruct (get_random_uids self rng k exclude) as [l|e]; [|done].
  intros [= <-]. split; [done|]. simpl.
  destruct (candidate_uids self exclude), l; auto.
Qed.

(** When every position of the registry is available and nothing is
    excluded, the candidates are all the positions. *)
Lemma candidate_uids_all (self : neuron) :
  (forall uid, uid < n (metagraph self) ->
     check_uid_availability (metagraph self) uid (vpermit_tao_limit (config self)) = true) ->
  candidate_uids self (Some []) = seq 0 (n (metagraph self)).
Proof.
  intros Hav. rewrite candidate_uids_filter. apply forallb_filter_id.
  apply forallb_forall. intros uid [_ Huid]%in_seq. unfold candidate.
  rewrite Hav by lia. unfold uid_is_not_excluded.
  rewrite bool_decide_eq_false_2 by apply not_elem_of_nil. done.
Qed.

(** The blacklist update leaves the scoring functions as they are. *)
Lemma compute_rewards_set_blacklist_added (self : neuron) b task responses name :
  compute_rewards (set_blacklist_added self b) task responses name
  = compute_rewards self task responses name.
Proof. reflexivity. Qed.

(** One weighted function of weight 1, no masking, no penalty: the reward
    vector is the score vector. *)
Lemma compute_rewards_single (self : neuron) task responses name (f : RewardFn) :
  reward_weights self = [1%Qc] -> reward_functions self = [f] ->
  masking_functions self = [] -> penalty_functions self = [] ->
  length (f (base_text task) responses name) = length responses ->
  compute_rewards self task responses name = Ok (f (base_text task) responses name).
Proof.
  intros Hw Hf Hm Hp Hlen. unfold compute_rewards. rewrite Hw, Hf, Hm, Hp. simpl.
  unfold Torch.iadd, Torch.zeros, Torch.scale.
  rewrite length_replicate, expand_to_same by (by rewrite length_fmap).
  rewrite bind_Ok. f_equal. apply list_eq. intros i.
  rewrite lookup_zip_with, list_lookup_fmap.
  destruct (f (base_text task) responses name !! i) as [x|] eqn:Hx; simpl.
  - apply lookup_lt_Some in Hx as Hi. rewrite lookup_replicate_2 by lia. simpl.
    f_equal. ring.
  - by destruct (replicate (length responses) 0%Qc !! i).
Qed.

End Round.

(** C8.  In scenario A (registry of 5 peers, previous trust all 0, [k = 3],
    one scoring function of weight 1.0 returning [0.2, 0.4, 0.6], no masking
    or penalty, [alpha = 0.5]) one round step samples three distinct peers
    and leaves the trust [0.1, 0.2, 0.3] at their positions and 0 at every
    other position. *)
Theorem run_step_scenario_A `{Utils} (self : neuron) (rng : Rng)
    (task : RoleplayTask) (timeout : Qc) :
  scenario_A self task ->
  exists self' event u0 u1 u2,
    run_step self rng task 3 timeout [] = Ok (self', event)
    /\ ev_uids event = [u0; u1; u2]
    /\ NoDup [u0; u1; u2]
    /\ ev_rewards event = [Q2Qc (1 # 5); Q2Qc (2 # 5); Q2Qc (3 # 5)]
    /\ length (moving_averaged_scores self') = 5
    /\ moving_averaged_scores self' !! u0 = Some (Q2Qc (1 # 10))
    /\ moving_averaged_scores self' !! u1 = Some (Q2Qc (1 # 5))
    /\ moving_averaged_scores self' !! u2 = Some (Q2Qc (3 # 10))
    /\ (forall j, j < 5 -> j ∉ [u0; u1; u2] ->
                  moving_averaged_scores self' !! j = Some 0%Qc).
Proof.
  intros (Hn & Hax & Hav & Hmas & Hw & (f & Hf & Hfv) & Hmk & Hpen & Halpha & Hg).
  pose proof (get_random_uids_draw self rng 3 (Some []) ltac:(lia)) as Huids.
  rewrite candidate_uids_all in Huids by (by rewrite Hn).
  rewrite Hn in Huids. change (Z.to_nat 3 `min` length (seq 0 5)) with 3 in Huids.
  destruct (draw_Permutation rng 3 0 (seq 0 5)) as [Hlen [rest Hperm]]; [simpl; lia|].
  remember (draw rng 0 3 (seq 0 5)) as uids eqn:Hu.
  assert (NoDup uids) as Hnd.
  { pose proof (NoDup_seq 0 5) as Hs. rewrite Hperm in Hs.
    by apply list.NoDup_app in Hs as [? _]. }
  assert (Forall (fun u => u < 5) uids) as Hin.
  { apply Forall_forall. intros u Hu'%list_elem_of_In.
    assert (u ∈ seq 0 5) as Hs by (rewrite Hperm; apply elem_of_app; by left).
    apply list_elem_of_In, in_seq in Hs. lia. }
  destruct uids as [|u0 [|u1 [|u2 [|? ?]]]]; try discriminate Hlen. clear Hlen.
  unfold run_step. rewrite (get_random_uids_tensor_cons _ _ _ _ _ _ Huids), bind_Ok.
  simpl Torch.tolist.
  destruct (mapM_py_index_ok (axons (metagraph self)) [u0; u1; u2])
    as (axs & -> & Hlaxs); [by rewrite Hax|].
  rewrite bind_Ok. cbv zeta. rewrite compute_rewards_set_blacklist_added.
  set (responses := restrict_format_followup_responses _ _).
  assert (length responses = 3) as Hlr.
  { unfold responses, restrict_format_followup_responses. by rewrite !length_map. }
  rewrite (compute_rewards_single self task responses (task_name task) f)
    by (try done; rewrite Hfv by done; by rewrite Hlr).
  rewrite Hfv by done. rewrite bind_Ok.
  destruct (mapM_py_index_ok (gating_model self (compose_prompt task)) [u0; u1; u2])
    as (sel & Hsel & _); [by rewrite Hg|].
  change (gating_model (set_blacklist_added self _) (compose_prompt task))
    with (gating_model self (compose_prompt task)).
  unfold Torch.index. simpl Torch.index_dtype. simpl Torch.tolist. cbv iota.
  rewrite Hsel, bind_Ok.
  change (Torch.argmax _) with (Ok (A:=nat) 2). rewrite bind_Ok.
  destruct (lookup_lt_is_Some_2 (map completion responses) 2) as [c Hc];
    [rewrite length_map; lia|].
  rewrite (py_index_Some _ _ _ Hc), fmap_Ok, bind_Ok.
  change (moving_average_alpha (config (set_gating_trained _ _)))
    with (moving_average_alpha (config self)).
  change (moving_averaged_scores (set_gating_trained _ _))
    with (moving_averaged_scores self).
  rewrite Halpha, Hmas.
  destruct (update_step_spec (Q2Qc (1 # 2)) (Torch.zeros 5) [u0; u1; u2]
              [Q2Qc (1 # 5); Q2Qc (2 # 5); Q2Qc (3 # 5)])
    as (new & -> & Hlnew & Hat & Hother); [by repeat split|].
  rewrite bind_Ok.
  assert (forall u, u < 5 -> Torch.zeros 5 !! u = Some 0%Qc) as Hz
    by (intros u Hu5; by apply lookup_replicate_2).
  inversion_clear Hin as [|? ? H0 Hin']. inversion_clear Hin' as [|? ? H1 Hin''].
  inversion_clear Hin'' as [|? ? H2 _].
  eexists _, _, u0, u1, u2. split; [reflexivity|]. simpl.
  split; [done|]. split; [done|]. split; [done|]. split; [done|].
  split; [|split; [|split]].
  - rewrite (Hat 0 u0 _ 0%Qc) by (try done; by apply Hz). f_equal; compute_done.
  - rewrite (Hat 1 u1 _ 0%Qc) by (try done; by apply Hz). f_equal; compute_done.
  - rewrite (Hat 2 u2 _ 0%Qc) by (try done; by apply Hz). f_equal; compute_done.
  - intros j Hj Hnot. rewrite Hother by done. by apply Hz.
Qed.

(** A reward vector that [compute_rewards] returns has one entry per
    response. *)
Lemma compute_rewards_length (self : neuron) task responses name rewards :
  compute_rewards self task responses name = Ok rewards ->
  length rewards = length responses.
Proof.
  unfold compute_rewards. intros Hp.
  apply (foldl_imul_keep (fun f : PenaltyFn => (f responses task).2)) in Hp
    as (r2 & Hmask & Hl2 & _).
  apply (foldl_imul_keep (fun f : RewardFn => f (base_text task) responses name)) in Hmask
    as (r1 & Hw & Hl1 & _).
  apply foldl_weighted_keep in Hw as (r0 & [= <-] & Hl0).
  unfold Torch.zeros in Hl0. rewrite length_replicate in Hl0. lia.
Qed.

(** When no peer is a candidate the sampler returns the empty sample,
    whatever [k] is. *)
Lemma get_random_uids_no_candidate `{Utils} (self : neuron) rng k exclude :
  candidate_uids self exclude = [] -> get_random_uids self rng k exclude = Ok [].
Proof. unfold get_random_uids. by intros ->. Qed.

(** A draw of at least one element from a pool that is not empty is not
    empty. *)
Lemma draw_nil {A} (rng : Rng) (i k : nat) (pool : list A) :
  draw rng i k pool = [] -> k = 0 \/ pool = [].
Proof.
  destruct k as [|k]; [by left|]. destruct pool as [|x pool]; [by right|].
  destruct (lookup_lt_is_Some_2 (x :: pool) (rng i mod length (x :: pool))) as [y Hy].
  { apply Nat.mod_upper_bound. simpl. lia. }
  change (draw rng i (S k) (x :: pool))
    with (match (x :: pool) !! (rng i mod length (x :: pool)) with
          | Some y => y :: draw rng (S i) k (delete (rng i mod length (x :: pool)) (x :: pool))
          | None => []
          end).
  rewrite Hy. discriminate.
Qed.

(** The empty sample: an int64 tensor when there is no candidate, and the
    float tensor [torch.tensor([])] when there are candidates, which
    happens for [k = 0] only. *)
Lemma get_random_uids_tensor_nil `{Utils} (self : neuron) rng k exclude :
  get_random_uids self rng k exclude = Ok [] ->
  get_random_uids_tensor self rng k exclude
  = Ok (Torch.mkIndexTensor
          (match candidate_uids self exclude with
           | [] => Torch.int64
           | _ => Torch.float32
           end) [])
  /\ (candidate_uids self exclude <> [] -> k = 0%Z).
Proof.
  intros Huids. split.
  - rewrite get_random_uids_tensor_spec, Huids.
    by destruct (candidate_uids self exclude).
  - unfold get_random_uids in Huids.
    destruct (candidate_uids self exclude) as [|c cs]; [done|]. intros _.
    unfold random_sample in Huids. case_bool_decide as Hk; [|done].
    injection Huids as Hdraw. apply draw_nil in Hdraw as [Hz|Hz]; [|done].
    simpl length in Hk, Hz. case_bool_decide; lia.
Qed.

(** Runs [run_step] on the empty sample [Huids] up to the reward vector
    [Hr] of the empty batch. *)
Ltac run_step_on_empty Huids Hr :=
  unfold run_step; rewrite Huids, bind_Ok; simpl Torch.tolist; simpl mapM;
  rewrite bind_Ok; cbv zeta; rewrite compute_rewards_set_blacklist_added;
  simpl map;
  match goal with
  | |- context [restrict_format_followup_responses [] ?name] =>
      change (restrict_format_followup_responses [] name) with (@nil Response)
  end;
  rewrite Hr.

(** The round on an empty sample, from the reward vector on. *)
Lemma run_step_on_empty_sample `{Utils} (self : neuron) (rng : Rng)
    (task : RoleplayTask) (k : Z) (timeout : Qc) (exclude : list nat) :
  get_random_uids self rng k (Some exclude) = Ok [] ->
  run_step self rng task k timeout exclude
  = (_ ← compute_rewards self task [] (task_name task);
     Raise (IndexError
              match candidate_uids self (Some exclude) with
              | [] => "argmax(): Expected reduction dim 0 to have non-zero size."
              | _ => "tensors used as indices must be long, int, byte or bool tensors"
              end)).
Proof.
  intros Huids. apply get_random_uids_tensor_nil in Huids as [Huids _].
  destruct (compute_rewards self task [] (task_name task)) as [rewards|e] eqn:Hr.
  - assert (rewards = []) as ->.
    { apply compute_rewards_length in Hr. by destruct rewards. }
    run_step_on_empty Huids Hr. by destruct (candidate_uids self (Some exclude)).
  - by run_step_on_empty Huids Hr.
Qed.



(** ** Conversion to float32 *)

Section Float32.
Import Torch.
Local Open Scope Q_scope.

Ltac lra_Z :=
  rewrite ?inject_Z_plus in *;
  change (inject_Z 1) with 1 in *; Lqa.lra.

Lemma floor_bounds (x : Q) :
  inject_Z (Qround.Qfloor x) <= x /\ x < inject_Z (Qround.Qfloor x) + 1.
Proof.
  split; [apply Qround.Qfloor_le|].
  pose proof (Qround.Qlt_floor x) as Hlt. rewrite inject_Z_plus in Hlt. exact Hlt.
Qed.

Lemma inject_Z_lt_1 (a b : Z) : inject_Z a < inject_Z b + 1 -> (a <= b)%Z.
Proof.
  intros Hlt. destruct (Z.le_gt_cases a b) as [Hle|Hgt]; [done|].
  assert (b + 1 <= a)%Z as Hle by lia. rewrite Zle_Qle, inject_Z_plus in Hle.
  change (inject_Z 1) with 1 in Hle. Lqa.lra.
Qed.

Lemma round_half_even_bounds (x : Q) :
  inject_Z (round_half_even x) - (1 # 2) <= x <= inject_Z (round_half_even x) + (1 # 2).
Proof.
  unfold Torch.round_half_even. destruct (floor_bounds x) as [Hlo Hhi].
  set (f := Qround.Qfloor x) in *.
  destruct (Qcompare_spec (x - inject_Z f) (1 # 2)) as [Heq|Hlt|Hgt].
  - destruct (Z.even f); lra_Z.
  - Lqa.lra.
  - lra_Z.
Qed.

Lemma round_half_even_even (x : Q) (k : Z) :
  Z.even k = true ->
  inject_Z k - (1 # 2) <= x <= inject_Z k + (1 # 2) ->
  round_half_even x = k.
Proof.
  intros Hev [Hlo Hhi]. unfold Torch.round_half_even. destruct (floor_bounds x) as [Hflo Hfhi].
  set (f := Qround.Qfloor x) in *. clearbody f.
  assert (f = k \/ k = (f + 1)%Z) as [Hf|Hf].
  { assert (f <= k)%Z by (apply inject_Z_lt_1; Lqa.lra).
    assert (k <= f + 1)%Z by (apply inject_Z_lt_1; lra_Z).
    lia. }
  - rewrite Hf in *. destruct (Qcompare_spec (x - inject_Z k) (1 # 2)) as [Heq|Hlt|Hgt].
    + by rewrite Hev.
    + done.
    + Lqa.lra.
  - assert (Z.even f = false) as Hodd.
    { rewrite Hf, Z.even_add in Hev. by destruct (Z.even f). }
    rewrite Hf in Hlo, Hhi.
    destruct (Qcompare_spec (x - inject_Z f) (1 # 2)) as [Heq|Hlt|Hgt].
    + rewrite Hodd. lia.
    + lra_Z.
    + lia.
Qed.

Lemma round_half_even_ge (x : Q) (k : Z) : inject_Z k <= x -> (k <= round_half_even x)%Z.
Proof.
  intros Hk. pose proof (round_half_even_bounds x) as [_ Hhi].
  apply inject_Z_lt_1. Lqa.lra.
Qed.

Lemma round_half_even_le (x : Q) (k : Z) : x <= inject_Z k -> (round_half_even x <= k)%Z.
Proof.
  intros Hk. pose proof (round_half_even_bounds x) as [Hlo _].
  apply inject_Z_lt_1. Lqa.lra.
Qed.

Lemma pow2_pos (z : Z) : 0 < 2 ^ z.
Proof. by apply Qpower.Qpower_0_lt. Qed.

Lemma pow2_plus (a b : Z) : 2 ^ (a + b) == 2 ^ a * 2 ^ b.
Proof. by apply Qpower.Qpower_plus. Qed.

Lemma pow2_succ (a : Z) : 2 ^ (a + 1) == 2 * 2 ^ a.
Proof. rewrite pow2_plus. change (2 ^ 1) with 2. ring. Qed.

Lemma pow2_inject (a : Z) : (0 <= a)%Z -> inject_Z (2 ^ a) == 2 ^ a.
Proof. intros Ha. by rewrite Qpower.Zpower_Qpower. Qed.

(** The binade of a positive rational: the power of two at or below it. *)
Lemma binade_spec (x : Q) : 0 < x -> 2 ^ binade x <= x < 2 ^ (binade x + 1).
Proof.
  intros Hx. unfold Torch.binade.
  set (e := (Z.log2 (Qnum x) - Z.log2 (Z.pos (Qden x)))%Z).
  assert (2 ^ (e - 1) < x < 2 ^ (e + 1)) as [Hlo Hhi].
  { destruct x as [p q]. unfold e. simpl Qnum. simpl Qden.
    assert (0 < p)%Z as Hp by (unfold Qlt in Hx; simpl in Hx; lia).
    destruct (Z.log2_spec p Hp) as [Hp1 Hp2].
    destruct (Z.log2_spec (Z.pos q) ltac:(lia)) as [Hq1 Hq2].
    pose proof (Z.log2_nonneg p) as Ha. pose proof (Z.log2_nonneg (Z.pos q)) as Hb.
    set (a := Z.log2 p) in *. set (b := Z.log2 (Z.pos q)) in *.
    rewrite Zle_Qle, pow2_inject in Hp1, Hq1 by lia.
    rewrite Zlt_Qlt, pow2_inject in Hp2, Hq2 by lia.
    rewrite <- Z.add_1_r, pow2_succ in Hp2, Hq2.
    rewrite (Qmake_Qdiv p q).
    pose proof (pow2_pos a) as Hpa. pose proof (pow2_pos b) as Hpb.
    assert (2 ^ a == 2 ^ (a - b) * 2 ^ b) as Hab.
    { rewrite <- pow2_plus. by replace (a - b + b)%Z with a by lia. }
    pose proof (pow2_pos (a - b)) as Hpab.
    assert (2 ^ (a - b) == 2 * 2 ^ (a - b - 1)) as Hm.
    { rewrite <- pow2_succ. by replace (a - b - 1 + 1)%Z with (a - b)%Z by lia. }
    pose proof (pow2_pos (a - b - 1)) as Hpab1.
    rewrite pow2_succ.
    assert (0 < inject_Z (Z.pos q)) as HQ by Lqa.lra.
    split.
    - apply Qlt_shift_div_l; [done|].
      apply Qlt_le_trans with (2 ^ (a - b - 1) * (2 * 2 ^ b)); [|Lqa.nra].
      apply Qmult_lt_l; [|done]. Lqa.nra.
    - apply Qlt_shift_div_r; [done|].
      apply Qlt_le_trans with (2 * 2 ^ a); [done|].
      rewrite Hab. Lqa.nra. }
  destruct (Qle_bool (2 ^ e) x) eqn:Hle.
  - apply Qle_bool_iff in Hle. by split.
  - assert (x < 2 ^ e) as Hlt.
    { apply Qnot_le_lt. intros Hc. apply Qle_bool_iff in Hc. congruence. }
    replace (e - 1 + 1)%Z with e by lia. split; [by apply Qlt_le_weak | done].
Qed.

(** The rounded value stays in the closed binade of a normal number, and
    below the smallest normal number otherwise. *)
Lemma round_float32_range (x : Q) :
  0 < x ->
  let e := binade x in
  let ulp := 2 ^ ((e `max` (-126))%Z - 23) in
  let r := inject_Z (round_half_even (x / ulp)) * ulp in
  0 <= r
  /\ ((-126 <= e)%Z -> 2 ^ e <= r <= 2 ^ (e + 1))
  /\ ((e < -126)%Z -> r <= 2 ^ (-126)).
Proof.
  intros Hx e ulp r. destruct (binade_spec x Hx) as [Hlo Hhi]. fold e in Hlo, Hhi.
  pose proof (pow2_pos ((e `max` (-126))%Z - 23)) as Hulp. fold ulp in Hulp.
  assert (0 <= round_half_even (x / ulp))%Z as Hn0.
  { apply round_half_even_ge. apply Qle_shift_div_l; [done|].
    change (inject_Z 0) with 0. Lqa.lra. }
  split; [|split].
  - unfold r. rewrite Zle_Qle in Hn0. apply Qmult_le_0_compat; [done | Lqa.lra].
  - intros He. assert ((e `max` (-126))%Z = e) as HE by lia.
    assert (2 ^ e == 2 ^ 23 * ulp) as He23.
    { unfold ulp. rewrite HE, <- pow2_plus. by replace (23 + (e - 23))%Z with e by lia. }
    assert (8388608 <= round_half_even (x / ulp))%Z as Hn1.
    { apply round_half_even_ge. apply Qle_shift_div_l; [done|].
      change (inject_Z 8388608) with (2 ^ 23). by rewrite <- He23. }
    assert (round_half_even (x / ulp) <= 16777216)%Z as Hn2.
    { apply round_half_even_le. apply Qle_shift_div_r; [done|].
      apply Qlt_le_weak. rewrite pow2_succ, He23 in Hhi.
      change (inject_Z 16777216) with (2 * 2 ^ 23). Lqa.lra. }
    rewrite Zle_Qle in Hn1, Hn2. rewrite pow2_succ, He23. unfold r.
    change (inject_Z 8388608) with (2 ^ 23) in Hn1.
    change (inject_Z 16777216) with (2 * 2 ^ 23) in Hn2.
    split.
    + apply Qmult_le_compat_r; [done | Lqa.lra].
    + apply Qle_trans with (2 * 2 ^ 23 * ulp); [|Lqa.lra].
      apply Qmult_le_compat_r; [done | Lqa.lra].
  - intros He. assert ((e `max` (-126))%Z = (-126)%Z) as HE by lia.
    assert (ulp = 2 ^ (-149)) as Hu by (unfold ulp; by rewrite HE).
    assert (x < 2 ^ (-126)) as Hsub.
    { apply Qlt_le_trans with (2 ^ (e + 1)); [done|].
      apply Qpower.Qpower_le_compat_l; [lia | done]. }
    assert (2 ^ (-126) == inject_Z 8388608 * 2 ^ (-149)) as H126 by (by vm_compute).
    assert (round_half_even (x / ulp) <= 8388608)%Z as Hn2.
    { apply round_half_even_le. apply Qle_shift_div_r; [done|].
      apply Qlt_le_weak. rewrite Hu, <- H126. exact Hsub. }
    rewrite Zle_Qle in Hn2. unfold r. rewrite Hu in *. rewrite H126.
    apply Qmult_le_compat_r; [done | Lqa.lra].
Qed.

(** The rationals that float32 rounds to 1: those from [1 - 2^-25] to
    [1 + 2^-24], ends included (both are ties, and 1 is the even
    neighbour). *)
Lemma round_float32_one (x : Q) :
  0 < x ->
  (exists r, round_to_float32 x = Some r /\ r == 1)
  <-> (33554431 # 33554432) <= x <= (16777217 # 16777216).
Proof.
  intros Hx. destruct (binade_spec x Hx) as [Hlo Hhi].
  destruct (round_float32_range x Hx) as (_ & Hnormal & Hsub).
  unfold Torch.round_to_float32. cbv zeta. split.
  - intros (r & Hr & Hr1).
    destruct (Qle_bool _ _); [done|]. injection Hr as Hr. rewrite <- Hr in Hr1. clear Hr r.
    destruct (Z.le_gt_cases (-126) (binade x)) as [He|He].
    + destruct (Hnormal He) as [Hr_lo Hr_hi]. rewrite Hr1 in Hr_lo, Hr_hi.
      apply (Qpower.Qpower_le_compat_l_inv 2 _ 0) in Hr_lo; [|done].
      apply (Qpower.Qpower_le_compat_l_inv 2 0) in Hr_hi; [|done].
      pose proof (round_half_even_bounds (x / 2 ^ ((binade x `max` (-126))%Z - 23)))
        as [Hn_lo Hn_hi].
      assert (binade x = 0%Z \/ binade x = (-1)%Z) as [Hb|Hb] by lia;
        rewrite Hb in *; clear Hb.
      * change (2 ^ (0 `max` (-126) - 23)%Z) with (1 # 8388608) in *.
        change (2 ^ 0) with 1 in Hlo.
        assert (inject_Z (round_half_even (x / (1 # 8388608))) == 8388608) as Hn.
        { apply (Qmult_inj_r _ _ (1 # 8388608)); [done|]. rewrite Hr1. reflexivity. }
        rewrite Hn in Hn_hi. unfold Qdiv in Hn_hi.
        change (/ (1 # 8388608)) with 8388608 in Hn_hi. split; Lqa.lra.
      * change (2 ^ ((-1) `max` (-126) - 23)%Z) with (1 # 16777216) in *.
        change (2 ^ (-1 + 1)) with 1 in Hhi.
        assert (inject_Z (round_half_even (x / (1 # 16777216))) == 16777216) as Hn.
        { apply (Qmult_inj_r _ _ (1 # 16777216)); [done|]. rewrite Hr1. reflexivity. }
        rewrite Hn in Hn_lo. unfold Qdiv in Hn_lo.
        change (/ (1 # 16777216)) with 16777216 in Hn_lo. split; Lqa.lra.
    + specialize (Hsub He). rewrite Hr1 in Hsub. exfalso. revert Hsub. by vm_compute.
  - intros [Hx_lo Hx_hi].
    assert (binade x = 0%Z /\ 1 <= x \/ binade x = (-1)%Z /\ x < 1) as [[Hb H1]|[Hb H1]].
    { destruct (Qlt_le_dec x 1) as [Hlt|Hge].
      - right. split; [|done].
        assert (binade x < 0)%Z.
        { apply (Qpower.Qpower_lt_compat_l_inv 2); [|done]. change (2 ^ 0) with 1. Lqa.lra. }
        assert (-1 < binade x + 1)%Z.
        { apply (Qpower.Qpower_lt_compat_l_inv 2); [|done].
          change (2 ^ (-1)) with (1 # 2). Lqa.lra. }
        lia.
      - left. split; [|done].
        assert (binade x < 1)%Z.
        { apply (Qpower.Qpower_lt_compat_l_inv 2); [|done]. change (2 ^ 1) with 2. Lqa.lra. }
        assert (0 < binade x + 1)%Z.
        { apply (Qpower.Qpower_lt_compat_l_inv 2); [|done]. change (2 ^ 0) with 1. Lqa.lra. }
        lia. }
    + rewrite Hb. change (2 ^ (0 `max` (-126) - 23)%Z) with (1 # 8388608).
      rewrite (round_half_even_even _ 8388608).
      * eexists. split; [reflexivity | reflexivity].
      * reflexivity.
      * change (inject_Z 8388608) with 8388608. split.
        -- apply Qle_shift_div_l; [done|]. Lqa.lra.
        -- apply Qle_shift_div_r; [done|]. Lqa.lra.
    + rewrite Hb. change (2 ^ ((-1) `max` (-126) - 23)%Z) with (1 # 16777216).
      rewrite (round_half_even_even _ 16777216).
      * eexists. split; [reflexivity | reflexivity].
      * reflexivity.
      * change (inject_Z 16777216) with 16777216. split.
        -- apply Qle_shift_div_l; [done|]. Lqa.lra.
        -- apply Qle_shift_div_r; [done|]. Lqa.lra.
Qed.

Lemma round_float32_nonneg (x r : Q) : 0 < x -> round_to_float32 x = Some r -> 0 <= r.
Proof.
  intros Hx. destruct (round_float32_range x Hx) as (Hr & _).
  unfold Torch.round_to_float32. cbv zeta. destruct (Qle_bool _ _); [done|]. by intros [= <-].
Qed.

Local Close Scope Q_scope.

Lemma to_float32_one (w : Qc) :
  Torch.to_float32 w = Some 1%Qc <-> (float32_one_min <= w <= float32_one_max)%Qc.
Proof.
  unfold Torch.to_float32, Qcle, Qccompare. change (this 0%Qc) with 0%Q.
  change (this float32_one_min) with (33554431 # 33554432)%Q.
  change (this float32_one_max) with (16777217 # 16777216)%Q.
  destruct (Qcompare_spec w 0) as [Heq|Hlt|Hgt].
  - split; [intros [= Hc]; apply (f_equal this) in Hc; discriminate Hc|].
    intros [Hlo _]. rewrite Heq in Hlo. by vm_compute in Hlo.
  - split.
    + destruct (round_to_float32 (- w)) as [r|] eqn:Hr; [|done]. simpl. intros [= Hr1].
      apply round_float32_nonneg in Hr; [|by apply (Qopp_lt_compat w 0)].
      apply Qred_eq_iff in Hr1. rewrite Qred_correct in Hr1. Lqa.lra.
    + intros [Hlo _]. exfalso. apply (Qlt_not_le _ _ Hlt).
      apply Qle_trans with (33554431 # 33554432)%Q; [done | exact Hlo].
  - rewrite <- (round_float32_one w Hgt). split.
    + destruct (round_to_float32 w) as [r|]; [|done]. simpl. intros [= Hr1].
      exists r. split; [done|]. by apply Qred_eq_iff in Hr1.
    + intros (r & -> & Hr1). simpl. f_equal. apply Qc_is_canon. simpl.
      by rewrite Qred_correct.
Qed.

End Float32.

(** ** Construction of the scoring pipeline *)

(** The check of [init_reward_models] on the float32 tensor of one weight
    passes exactly for the weights that float32 rounds to 1. *)
Lemma tensor_float32_sum_one (w : Qc) :
  tensor_sum <$> Torch.tensor_float32 [w] = Some 1%Qc
  <-> (float32_one_min <= w <= float32_one_max)%Qc.
Proof.
  rewrite <- to_float32_one. unfold Torch.tensor_float32. simpl.
  destruct (Torch.to_float32 w) as [r|]; simpl; [|done].
  assert (r + 0 = r)%Qc as -> by ring. done.
Qed.

(** What [init_reward_models] does outside the mock configuration, by the
    float32 tensor of the weight. *)
Lemma init_reward_models_live_cases (cfg : RewardConfig) :
  mock_reward_models cfg = false ->
  (Torch.to_float32 (mistral_weight cfg) = Some 1%Qc
   /\ exists models,
        init_reward_models cfg = ([], Ok models)
        /\ rm_reward_weights models = [1%Qc]
        /\ rm_reward_functions models = [MistralRewardModel])
  \/ (Torch.to_float32 (mistral_weight cfg) <> Some 1%Qc
      /\ init_reward_models cfg = log_and_raise "Reward function weights do not sum to 1").
Proof.
  intros Hmock. unfold init_reward_models. rewrite Hmock.
  unfold Torch.tensor_float32. simpl mapM.
  destruct (Torch.to_float32 (mistral_weight cfg)) as [r|] eqn:Hr; simpl; [|by right].
  case_bool_decide as Hsum.
  - right. split; [|done]. intros [= ->]. apply Hsum. ring.
  - assert (r = 1%Qc) as ->.
    { destruct (decide (r + 0 = 1)%Qc) as [Heq|Hne]; [|done]. rewrite <- Heq. ring. }
    left. split; [done|].
    assert (0 < mistral_weight cfg)%Qc as Hpos.
    { apply to_float32_one in Hr as [Hlo _].
      apply Qclt_le_trans with float32_one_min; [done | exact Hlo]. }
    rewrite bool_decide_eq_true_2 by done. by eexists.
Qed.

(** C3 as stated fails: with [mock_reward_models] set, the weight list is
    empty, its sum is 0, and construction completes without any check. *)
Lemma init_reward_models_mock_unchecked :
  mock_reward_models Examples.mock_config = true
  /\ configured_reward_weights Examples.mock_config = Some []
  /\ tensor_sum [] <> 1%Qc
  /\ exists models,
       init_reward_models Examples.mock_config = ([], Ok models)
       /\ tensor_sum (rm_reward_weights models) <> 1%Qc.
Proof.
  split; [reflexivity|]. split; [reflexivity|]. split; [compute_done|].
  eexists. split; [reflexivity | compute_done].
Qed.

(** It also fails outside the mock configuration: the weight [1 + 2^-30]
    is not 1, and construction completes, because the check is made on the
    float32 tensor, in which that weight is 1. *)
Lemma init_reward_models_rounded_weight :
  mock_reward_models Examples.rounded_config = false
  /\ tensor_sum [mistral_weight Examples.rounded_config] <> 1%Qc
  /\ exists models,
       init_reward_models Examples.rounded_config = ([], Ok models)
       /\ rm_reward_weights models = [1%Qc].
Proof.
  split; [reflexivity|]. split; [compute_done|].
  destruct (init_reward_models_live_cases Examples.rounded_config eq_refl)
    as [(_ & models & Hinit & Hw & _)|[Hne _]].
  - by exists models.
  - exfalso. apply Hne, to_float32_one. split; compute_done.
Qed.

(** C3, amended.  For every configuration with [mock_reward_models] off, the
    weights are converted to a float32 tensor and the check is made on that
    tensor: construction logs an error and raises whenever the sum of the
    tensor is not 1, and completes only when it is 1 (then it does complete,
    with as many functions as weights and nothing logged).  For the one
    configured weight the sum of the tensor is 1 exactly when the weight
    lies between [1 - 2^-25] and [1 + 2^-24].  With [mock_reward_models] on
    construction completes with no weighted function, unchecked. *)
Theorem init_reward_models_checked (cfg : RewardConfig) :
  (mock_reward_models cfg = false ->
     (tensor_sum <$> configured_reward_weights cfg <> Some 1%Qc ->
        init_reward_models cfg = log_and_raise "Reward function weights do not sum to 1"
        /\ raises (init_reward_models cfg).2)
     /\ (forall models,
           (init_reward_models cfg).2 = Ok models ->
           configured_reward_weights cfg = Some (rm_reward_weights models)
           /\ tensor_sum (rm_reward_weights models) = 1%Qc
           /\ length (rm_reward_functions models) = length (rm_reward_weights models)
           /\ (init_reward_models cfg).1 = [])
     /\ (tensor_sum <$> configured_reward_weights cfg = Some 1%Qc ->
           exists models, init_reward_models cfg = ([], Ok models))
     /\ (tensor_sum <$> configured_reward_weights cfg = Some 1%Qc
         <-> (float32_one_min <= mistral_weight cfg <= float32_one_max)%Qc))
  /\ (mock_reward_models cfg = true ->
        exists models,
          init_reward_models cfg = ([], Ok models)
          /\ rm_reward_weights models = [] /\ rm_reward_functions models = []).
Proof.
  split.
  - intros Hmock. unfold configured_reward_weights. rewrite Hmock.
    pose proof (tensor_float32_sum_one (mistral_weight cfg)) as Hsum.
    pose proof (to_float32_one (mistral_weight cfg)) as Hone.
    destruct (init_reward_models_live_cases cfg Hmock)
      as [(Hw & models & Hinit & Hweights & _)|[Hw Hinit]]; rewrite Hinit.
    + split; [|split; [|split]].
      * intros Hne. exfalso. by apply Hne, Hsum, Hone.
      * intros models' [= <-]. rewrite Hweights.
        unfold Torch.tensor_float32. simpl mapM. rewrite Hw.
        split; [done|]. split; [compute_done|]. split; [|done].
        destruct (init_reward_models_live_cases cfg Hmock)
          as [(_ & models'' & Hinit' & _ & Hf)|[Hw' _]]; [|done].
        rewrite Hinit in Hinit'. injection Hinit' as <-. by rewrite Hf.
      * intros _. by exists models.
      * exact Hsum.
    + split; [|split; [|split]].
      * intros _. split; [done | by eexists].
      * intros models [=].
      * intros Hone'. exfalso. by apply Hw, Hone, Hsum.
      * exact Hsum.
  - intros Hmock. unfold init_reward_models. rewrite Hmock. by eexists.
Qed.

(** ** The epoch loop *)

Lemma bind_Ok_inv {A B} (m : result A) (f : A -> result B) (b : B) :
  m ≫= f = Ok b -> exists a, m = Ok a /\ f a = Ok b.
Proof. destruct m as [a|e]; [by exists a | done]. Qed.

Lemma fmap_Ok_inv {A B} (m : result A) (f : A -> B) (b : B) :
  f <$> m = Ok b -> exists a, m = Ok a /\ f a = b.
Proof. destruct m as [a|e]; [intros [= <-]; by exists a | done]. Qed.

Section Loop.
Context `{Utils}.
Implicit Types (self : neuron) (rd : Round) (rounds : list Round).

(** A round leaves the configuration, the hotkey, the registry, the
    recorded height and the step as they are. *)
Lemma run_step_frame self rng task k timeout exclude self' event :
  run_step self rng task k timeout exclude = Ok (self', event) ->
  same_loop_state self' self.
Proof.
  unfold run_step. intros Hrun.
  repeat (apply bind_Ok_inv in Hrun as (? & _ & Hrun); cbv zeta in Hrun).
  injection Hrun as <- _. by repeat split.
Qed.

Lemma forward_frame self rng task self' :
  forward self rng task = Ok self' -> same_loop_state self' self.
Proof.
  unfold forward. intros ([s ev] & Hrun & <-)%fmap_Ok_inv.
  by apply run_step_frame in Hrun.
Qed.

Lemma same_loop_state_trans (a b c : neuron) :
  same_loop_state a b -> same_loop_state b c -> same_loop_state a c.
Proof. unfold same_loop_state. intuition congruence. Qed.

Lemma run_forward_frame self inputs self' :
  run_forward self inputs = Ok self' -> same_loop_state self' self.
Proof.
  unfold run_forward. generalize (seq 0 (num_concurrent_forwards (config self))).
  intros l. revert self'. induction l as [|i l IH] using rev_ind; intros self'.
  - intros [= <-]. by repeat split.
  - rewrite foldl_app. simpl. intros (s & Hs & Hf)%bind_Ok_inv.
    apply forward_frame in Hf. eapply same_loop_state_trans; [exact Hf | by apply IH].
Qed.

(** The loop over two stretches of rounds. *)
Lemma run_app rounds1 rounds2 self :
  run (rounds1 ++ rounds2) self
  = match run rounds1 self with
    | (tr, Running self') => let '(tr', out) := run rounds2 self' in (tr ++ tr', out)
    | (tr, Stopped err) => (tr, Stopped err)
    end.
Proof.
  revert self. induction rounds1 as [|rd rounds1 IH]; intros self; simpl.
  - by destruct (run rounds2 self).
  - destruct (iteration rd self) as [tr [self'|err]]; [|done].
    rewrite IH. destruct (run rounds1 self') as [tr1 [s1|e1]]; [|done].
    destruct (run rounds2 s1) as [tr2 out]. by rewrite app_assoc.
Qed.

End Loop.

(** C7.  Whenever the hotkey of the validator is absent from the registry
    snapshot at the start of a loop iteration, the iteration raises before
    any forward runs; [run] catches the exception, logs the error and its
    traceback, and ends: the rounds that would follow are not run. *)
Theorem run_unregistered `{Utils} (rounds1 : list Round) (rd : Round)
    (rounds2 : list Round) (self0 self : neuron) (tr : list LoopEvent) :
  run rounds1 self0 = (tr, Running self) ->
  wallet_hotkey self ∉ hotkeys (metagraph self) ->
  let err := Exception ("Validator is not registered - hotkey " +:+ wallet_hotkey self
                        +:+ " not in metagraph") in
  iteration rd self = ([], Raise err)
  /\ run (rounds1 ++ rd :: rounds2) self0
     = (tr ++ [LogError "Error in training loop" (exn_str err); PrintException err],
        Stopped err).
Proof.
  intros Hrun Hreg err.
  assert (iteration rd self = ([], Raise err)) as Hit.
  { unfold iteration. by rewrite bool_decide_eq_false_2. }
  split; [done|]. rewrite run_app, Hrun. simpl. by rewrite Hit.
Qed.

(** C6.  In an iteration that reaches the check (the validator is registered
    and the forwards return), the epoch boundary is entered exactly when the
    current height minus the last recorded height is strictly greater than
    the epoch length (100 when no override is configured); it is entered
    once; and when it is entered the last recorded height becomes the height
    read at the end of the boundary, whether or not the weights were due and
    whether or not the chain accepted them.  At that height the next check
    does not fire again. *)
Theorem epoch_boundary_once `{Utils} (rd : Round) (self self1 : neuron) :
  wallet_hotkey self ∈ hotkeys (metagraph self) ->
  run_forward self (forward_inputs rd) = Ok self1 ->
  let due := (block_at_check rd - prev_block self > epoch_length (config self))%Z in
  (forall (fresh : neuron) (block : Z),
     epoch_length_override (config fresh) = 0%Z ->
     epoch_length (config (init_epoch_state fresh block)) = 100%Z)
  /\ (should_update (block_at_check rd) self1 = true <-> due)
  /\ exists tr self',
       iteration rd self = (tr, Ok self')
       /\ (due ->
             boundary_entries tr = 1
             /\ tr = LogStep (step self) (block_at_log rd) :: Forwarded :: Checkpoint
                     :: (if weights_due rd then [SetWeights (commit_ok rd); SaveState] else [])
                     ++ (if wandb_due rd then [ReinitWandb] else [])
             /\ prev_block self' = block_at_record rd
             /\ ((0 <= epoch_length (config self'))%Z ->
                 should_update (block_at_record rd) self' = false))
       /\ (~ due ->
             boundary_entries tr = 0 /\ prev_block self' = prev_block self).
Proof.
  intros Hreg Hfw due.
  destruct (run_forward_frame _ _ _ Hfw) as (Hcfg & _ & _ & Hprev & Hstep).
  split; [intros fresh block Hov; simpl; by rewrite Hov|].
  assert (should_update (block_at_check rd) self1 = true <-> due) as Hdue.
  { unfold should_update, due. rewrite Hcfg, Hprev. apply bool_decide_eq_true. }
  split; [done|].
  unfold iteration. rewrite bool_decide_eq_true_2 by done. simpl negb. cbv iota.
  rewrite Hfw. destruct (should_update (block_at_check rd) self1) eqn:Hsu.
  - eexists _, _. split; [reflexivity|]. split.
    + intros _. unfold epoch_boundary. simpl. rewrite Hstep.
      split; [|split; [|split]].
      * unfold boundary_entries. by destruct (weights_due rd), (wandb_due rd).
      * done.
      * done.
      * intros Hpos. unfold should_update. simpl. apply bool_decide_eq_false_2.
        simpl in Hpos. lia.
    + intros Hnd. exfalso. by apply Hnd, Hdue.
  - eexists _, _. split; [reflexivity|]. split.
    + intros Hd. apply Hdue in Hd. discriminate.
    + intros _. simpl. split; [|done].
      unfold boundary_entries. by destruct (wandb_due rd).
Qed.

(** ** The statements on concrete validators *)

Section Instances.
Import Examples.

(** The ledger on the trust [1, 1]: peer 0 is queried with reward 0 and
    then with reward 1; peer 1 is never queried and keeps its trust. *)
Lemma update_moving_averaged_scores_spec_witness :
  (exists new,
     update_moving_averaged_scores half [1; 1]%Qc [0] [0%Qc] = Ok new
     /\ new !! 0 = Some (half * 0 + (1 - half) * 1)%Qc
     /\ new !! 1 = Some 1%Qc)
  /\ (exists new,
        update_rounds half [1; 1]%Qc [([0], [0%Qc]); ([0], [1%Qc])] = Ok new
        /\ new !! 1 = Some 1%Qc).
Proof.
  destruct (update_moving_averaged_scores_spec half [1; 1]%Qc) as [Hstep Hrounds].
  assert (forall q : Qc, round_ok 2 ([0], [q])) as Hok.
  { intros q. split; [apply NoDup_singleton|].
    split; [simpl; lia | repeat constructor]. }
  split.
  - destruct (Hstep [0] [0%Qc]) as (new & Hnew & _ & Hat & Hother); [apply Hok|].
    exists new. split; [exact Hnew|]. split.
    + by apply (Hat 0).
    + rewrite Hother; [reflexivity|]. intros Hin. by apply list_elem_of_singleton in Hin.
  - destruct (Hrounds [([0], [0%Qc]); ([0], [1%Qc])]) as (new & Hnew & _ & Hkeep).
    { constructor; [apply Hok|]. constructor; [apply Hok | constructor]. }
    exists new. split; [exact Hnew|]. rewrite Hkeep; [reflexivity|].
    repeat constructor; simpl; intros Hin; by apply list_elem_of_singleton in Hin.
Defined.

(** Scenario B: the blacklist flags the second of three responses. *)
Lemma compute_rewards_masked_witness :
  exists rewards,
    compute_rewards validator_B task_A responses_B "followup" = Ok rewards
    /\ length rewards = length responses_B
    /\ rewards !! 1 = Some 0%Qc.
Proof.
  destruct (compute_rewards_masked validator_B task_A responses_B "followup" mask_B 1)
    as [_ Hreturns].
  - apply list_elem_of_singleton. reflexivity.
  - simpl. lia.
  - reflexivity.
  - apply Hreturns. repeat split; repeat constructor.
Defined.

(** The weight 1, the weight [1 + 2^-30], and the mock configuration. *)
Lemma init_reward_models_checked_witness :
  (exists models, init_reward_models live_config = ([], Ok models))
  /\ (exists models, init_reward_models rounded_config = ([], Ok models))
  /\ (exists models, init_reward_models mock_config = ([], Ok models)
                     /\ rm_reward_weights models = [] /\ rm_reward_functions models = []).
Proof.
  split; [|split].
  - destruct (init_reward_models_checked live_config) as [Hlive _].
    destruct (Hlive eq_refl) as (_ & _ & Hok & Hiff). apply Hok, Hiff.
    split; compute_done.
  - destruct (init_reward_models_checked rounded_config) as [Hlive _].
    destruct (Hlive eq_refl) as (_ & _ & Hok & Hiff). apply Hok, Hiff.
    split; compute_done.
  - destruct (init_reward_models_checked mock_config) as [_ Hmock].
    apply Hmock. reflexivity.
Defined.

(** Three of the four peers that are left when peer 1 is excluded. *)
Lemma get_random_uids_spec_witness :
  exists uids,
    @get_random_uids all_available validator_A rng_A 3 (Some [1]) = Ok uids
    /\ (Z.of_nat (length uids) <= 3)%Z
    /\ NoDup uids
    /\ (forall uid, uid ∈ uids -> @eligible all_available validator_A (Some [1]) uid)
    /\ (forall all_eligible : list nat,
          NoDup all_eligible ->
          (forall uid, uid ∈ all_eligible
                       <-> @eligible all_available validator_A (Some [1]) uid) ->
          (Z.of_nat (length all_eligible) < 3)%Z ->
          uids ≡ₚ all_eligible).
Proof.
  apply (@get_random_uids_spec all_available validator_A rng_A 3 (Some [1])). lia.
Defined.

Lemma epoch_boundary_once_witness :
  exists tr self',
    @iteration all_available round_A validator_A = (tr, Ok self')
    /\ boundary_entries tr = 1
    /\ prev_block self' = 1102%Z.
Proof.
  destruct (@epoch_boundary_once all_available round_A validator_A validator_A_forwarded)
    as (_ & _ & tr & self' & Hit & Hdue & _).
  - apply list_elem_of_here.
  - vm_compute. reflexivity.
  - exists tr, self'. split; [exact Hit|].
    destruct Hdue as (Hone & _ & Hprev & _); [simpl; lia|]. by split.
Defined.

(** The validator is dropped from the registry at an epoch boundary: the
    next iteration stops the loop, and the round after it is not run. *)
Lemma run_unregistered_witness :
  exists err,
    @iteration all_available round_A validator_dropped = ([], Raise err)
    /\ @run all_available ([round_drop] ++ round_A :: [round_A]) validator_A
       = (trace_dropped
            ++ [LogError "Error in training loop" (exn_str err); PrintException err],
          Stopped err).
Proof.
  eexists.
  apply (@run_unregistered all_available [round_drop] round_A [round_A]
           validator_A validator_dropped trace_dropped).
  - vm_compute. reflexivity.
  - intros Hin. vm_compute in Hin.
    repeat (apply elem_of_cons in Hin as [Hin|Hin]; [discriminate Hin|]).
    by apply elem_of_nil in Hin.
Defined.

Lemma run_step_scenario_A_witness :
  exists self' event u0 u1 u2,
    @run_step all_available validator_A rng_A task_A 3 1%Qc [] = Ok (self', event)
    /\ ev_uids event = [u0; u1; u2]
    /\ NoDup [u0; u1; u2]
    /\ ev_rewards event = [Q2Qc (1 # 5); Q2Qc (2 # 5); Q2Qc (3 # 5)]
    /\ length (moving_averaged_scores self') = 5
    /\ moving_averaged_scores self' !! u0 = Some (Q2Qc (1 # 10))
    /\ moving_averaged_scores self' !! u1 = Some (Q2Qc (1 # 5))
    /\ moving_averaged_scores self' !! u2 = Some (Q2Qc (3 # 10))
    /\ (forall j, j < 5 -> j ∉ [u0; u1; u2] ->
                  moving_averaged_scores self' !! j = Some 0%Qc).
Proof.
  apply (@run_step_scenario_A all_available validator_A rng_A task_A 1%Qc).
  unfold scenario_A. repeat split; try reflexivity.
  exists score_A. split; reflexivity.
Defined.


End Instances.

(* ================================================================= *)
(** * Part III: further properties of the two files *)
(* ================================================================= *)

(** ** The peer sampler: sample size and the edge cases of [k] *)

(** X1.  For every [k >= 0], [get_random_uids] returns exactly
    [min k e] ids, where [e] is the number of eligible peers. *)
Theorem get_random_uids_length `{Utils} (self : neuron) (rng : Rng) (k : Z)
    (exclude : option (list nat)) (all_eligible : list nat) :
  (0 <= k)%Z ->
  NoDup all_eligible ->
  (forall uid, uid ∈ all_eligible <-> eligible self exclude uid) ->
  exists uids,
    get_random_uids self rng k exclude = Ok uids
    /\ length uids = Z.to_nat k `min` length all_eligible.
Proof.
  intros Hk Hnd Hiff. rewrite get_random_uids_draw by done.
  assert (all_eligible ≡ₚ candidate_uids self exclude) as Hperm.
  { apply NoDup_Permutation; [done | apply NoDup_candidate_uids|].
    intros uid. rewrite Hiff. symmetry. apply elem_of_candidate_uids. }
  eexists. split; [done|]. rewrite (Permutation_length Hperm).
  apply draw_Permutation. lia.
Qed.

(** X2.  When no peer is eligible, [get_random_uids] returns the empty
    sample for every [k], a negative one included; when some peer is
    eligible and [k] is negative, it raises the ValueError of
    [random.sample]. *)
Theorem get_random_uids_edge `{Utils} (self : neuron) (rng : Rng) (k : Z)
    (exclude : option (list nat)) :
  ((forall uid, ~ eligible self exclude uid) ->
     get_random_uids self rng k exclude = Ok [])
  /\ ((k < 0)%Z -> (exists uid, eligible self exclude uid) ->
      get_random_uids self rng k exclude
      = Raise (ValueError "Sample larger than population or is negative")).
Proof.
  split.
  - intros Hnone. apply get_random_uids_no_candidate.
    destruct (candidate_uids self exclude) as [|uid l] eqn:Hc; [done|].
    exfalso. apply (Hnone uid), elem_of_candidate_uids. rewrite Hc. by left.
  - intros Hk [uid Huid]. apply elem_of_candidate_uids in Huid.
    unfold get_random_uids.
    destruct (candidate_uids self exclude) as [|c cs] eqn:Hc; [by apply elem_of_nil in Huid|].
    rewrite bool_decide_eq_false_2 by (simpl; lia).
    unfold random_sample. by rewrite bool_decide_eq_false_2 by lia.
Qed.

(** ** The response normalizer: the shape of its output, and what it leaves *)

Section NormalizerShape.
Import PyStr.
Implicit Types (s t w c : string).

Lemma split_app_nochar_length (sep : ascii) s t :
  nochar sep t -> length (split sep (s +:+ t)) = length (split sep s).
Proof.
  intros Ht. induction s as [|a s IH]; simpl.
  - by rewrite split_nochar.
  - change (String.append s t) with (s +:+ t).
    destruct (is_char sep a); simpl; [by rewrite IH|].
    pose proof (split_not_nil sep (s +:+ t)). pose proof (split_not_nil sep s).
    destruct (split sep (s +:+ t)), (split sep s); simpl in *; congruence.
Qed.

Lemma normal_form_word_count s : normal_form s -> length (split space s) <= max_words.
Proof.
  intros (ws & -> & Hne & Hlen & Hf).
  change " "%string with (String space "").
  rewrite split_join; [done..|].
  eapply List.Forall_impl; [|exact Hf]. by intros w (? & ? & ?).
Qed.

Lemma followup_question_fragment c :
  normal_form
    (join " " (last_n max_words
                 (split space (final (split dot (first (split qmark c))))))).
Proof.
  apply normal_form_fragment.
  - apply (final_in (nochar dot)); [apply split_not_nil | apply split_pieces].
  - apply (final_in (nochar qmark)); [apply split_not_nil|].
    apply split_keeps_nochar.
    apply (first_in (nochar qmark)); [apply split_not_nil | apply split_pieces].
Qed.

Lemma followup_plain_fragment c :
  nochar qmark c ->
  normal_form
    (join " " (last_n max_words
                 (split space (final (split dot (final (split dot c))))))).
Proof.
  intros Hq. apply normal_form_fragment.
  - apply (final_in (nochar dot)); [apply split_not_nil | apply split_pieces].
  - apply (final_in (nochar qmark)); [apply split_not_nil|].
    apply split_keeps_nochar.
    apply (final_in (nochar qmark)); [apply split_not_nil|].
    by apply split_keeps_nochar.
Qed.

End NormalizerShape.

(** X3.  For a follow-up task and a completion that is not made of periods
    only, the normalized completion holds no period and at most 40 words;
    it is a text without question mark followed by one question mark when
    the completion holds a question mark, and it holds no question mark
    otherwise. *)
Theorem restrict_format_followup_shape (task_name c0 : string) :
  PyStr.contains "followup" task_name = true ->
  PyStr.strip (PyStr.is_char dot) c0 <> EmptyString ->
  let out := restrict_format_completion task_name c0 in
  nochar dot out
  /\ length (PyStr.split space out) <= 40
  /\ (PyStr.has_char qmark (PyStr.strip (PyStr.is_char dot) c0) = true ->
      exists w, out = w +:+ "?" /\ nochar qmark w)
  /\ (PyStr.has_char qmark (PyStr.strip (PyStr.is_char dot) c0) = false ->
      nochar qmark out).
Proof.
  intros Ht Hne. cbv zeta. unfold restrict_format_completion.
  set (c := PyStr.strip (PyStr.is_char dot) c0) in *.
  rewrite Ht. assert ((0 <? String.length c) = true) as ->.
  { apply Nat.ltb_lt. destruct c; [done | simpl; lia]. }
  simpl andb. cbv iota.
  destruct (PyStr.has_char qmark c) eqn:Hq.
  - pose proof (followup_question_fragment c) as Hnf.
    destruct (normal_form_nochar _ Hnf) as [Hdot Hqm].
    split; [by apply nochar_app|]. split.
    + rewrite split_app_nochar_length by done. by apply normal_form_word_count.
    + split; [|done]. intros _. eexists. by split.
  - pose proof (followup_plain_fragment c Hq) as Hnf.
    destruct (normal_form_nochar _ Hnf) as [Hdot Hqm].
    split; [done|]. split; [by apply normal_form_word_count|].
    split; [done|]. by intros _.
Qed.

Lemma restrict_format_followup_shape_witness :
  let out := restrict_format_completion "followup" "Hi. Who are you? I am Ada." in
  out = " Who are you?"%string /\ nochar dot out /\ length (PyStr.split space out) <= 40.
Proof.
  destruct (restrict_format_followup_shape "followup" "Hi. Who are you? I am Ada.")
    as (Hdot & Hwords & _); [reflexivity | discriminate |].
  cbv zeta. split; [reflexivity|]. by split.
Defined.

(** X4.  The normalizer keeps the number and the order of the responses
    and their status fields; and it leaves a response as it is, periods
    included, when the task is no follow-up task or when the completion is
    made of periods only. *)
Theorem restrict_format_frame (responses : list Response) (task_name : string)
    (i : nat) (r : Response) :
  responses !! i = Some r ->
  length (restrict_format_followup_responses responses task_name) = length responses
  /\ exists r',
       restrict_format_followup_responses responses task_name !! i = Some r'
       /\ status_code r' = status_code r
       /\ status_message r' = status_message r
       /\ process_time r' = process_time r
       /\ (PyStr.contains "followup" task_name = false
           \/ PyStr.strip (PyStr.is_char dot) (completion r) = EmptyString ->
           r' = r).
Proof.
  intros Hr. unfold restrict_format_followup_responses.
  split; [apply length_map|].
  eexists. split.
  - change (map ?f ?l) with (f <$> l). rewrite list_lookup_fmap, Hr. reflexivity.
  - simpl. repeat split. intros Hcase.
    assert (restrict_format_completion task_name (completion r) = completion r) as ->.
    { unfold restrict_format_completion. destruct Hcase as [-> | ->]; [done|].
      by rewrite andb_false_r. }
    by destruct r.
Qed.

Lemma restrict_format_frame_witness :
  exists r',
    restrict_format_followup_responses
      [mkResponse "...A. B." "200" "Success" None; mkResponse "..." "408" "Timeout" None]
      "followup" !! 1 = Some r'
    /\ r' = mkResponse "..." "408" "Timeout" None.
Proof.
  destruct (restrict_format_frame
              [mkResponse "...A. B." "200" "Success" None;
               mkResponse "..." "408" "Timeout" None]
              "followup" 1 (mkResponse "..." "408" "Timeout" None) eq_refl)
    as (_ & r' & Hr' & _ & _ & _ & Hsame).
  exists r'. split; [exact Hr'|]. apply Hsame. right. reflexivity.
Defined.

(** ** The reward aggregator: closed form, bounds, shapes *)

Section AggregatorClosedForm.
Implicit Types (r t : list Qc) (i : nat).

Lemma in_unit_0 : in_unit 0%Qc.
Proof. split; compute_done. Qed.

Lemma in_unit_1 : in_unit 1%Qc.
Proof. split; compute_done. Qed.

Lemma in_unit_mult (x y : Qc) : in_unit x -> in_unit y -> in_unit (x * y)%Qc.
Proof.
  intros [Hx0 Hx1] [Hy0 Hy1]. split; [by apply Qcmult_nonneg_nonneg|].
  eapply Qcle_trans; [apply Qcmult_le_mono_nonneg_r; [exact Hy0 | exact Hx1]|].
  by rewrite Qcmult_1_l.
Qed.

(** A convex combination of two values of the unit interval. *)
Lemma in_unit_convex (a x y : Qc) :
  in_unit a -> in_unit x -> in_unit y -> in_unit (a * x + (1 - a) * y)%Qc.
Proof.
  intros [Ha0 Ha1] [Hx0 Hx1] [Hy0 Hy1].
  assert (0 <= 1 - a)%Qc as Hb by (by apply Qcle_minus_iff in Ha1).
  split.
  - apply Qcplus_nonneg_nonneg; by apply Qcmult_nonneg_nonneg.
  - apply (Qcle_trans _ (a * 1 + (1 - a) * 1)%Qc).
    + apply Qcplus_le_compat; by apply Qcmult_le_mono_nonneg_l.
    + replace (a * 1 + (1 - a) * 1)%Qc with 1%Qc by ring. apply Qcle_refl.
Qed.

Lemma expand_to_shape (k : nat) t t' :
  Torch.expand_to k t = Ok t' -> length t = k \/ length t = 1.
Proof.
  unfold Torch.expand_to. destruct (length t =? k) eqn:Hk.
  - apply Nat.eqb_eq in Hk. by left.
  - destruct t as [|y [|? ?]]; try discriminate. by right.
Qed.

Lemma iadd_lookup r t r' i x y :
  Torch.iadd r t = Ok r' -> length t = length r ->
  r !! i = Some x -> t !! i = Some y -> r' !! i = Some (x + y)%Qc.
Proof.
  unfold Torch.iadd. intros Hr Hlen Hx Hy. rewrite expand_to_same in Hr by done.
  injection Hr as <-. by rewrite lookup_zip_with, Hx, Hy.
Qed.

Lemma imul_lookup r t r' i x y :
  Torch.imul r t = Ok r' -> length t = length r ->
  r !! i = Some x -> t !! i = Some y -> r' !! i = Some (x * y)%Qc.
Proof.
  unfold Torch.imul. intros Hr Hlen Hx Hy. rewrite expand_to_same in Hr by done.
  injection Hr as <-. by rewrite lookup_zip_with, Hx, Hy.
Qed.

Lemma imul_shape r t r' : Torch.imul r t = Ok r' -> length t = length r \/ length t = 1.
Proof.
  unfold Torch.imul. destruct (Torch.expand_to (length r) t) eqn:He; [|done].
  intros _. by apply expand_to_shape in He.
Qed.

Lemma iadd_shape r t r' : Torch.iadd r t = Ok r' -> length t = length r \/ length t = 1.
Proof.
  unfold Torch.iadd. destruct (Torch.expand_to (length r) t) eqn:He; [|done].
  intros _. by apply expand_to_shape in He.
Qed.

Lemma product_at_cons (t : list Qc) (ts : list (list Qc)) i :
  product_at (t :: ts) i = (default 1%Qc (t !! i) * product_at ts i)%Qc.
Proof. reflexivity. Qed.

Lemma weighted_sum_at_cons (wt : Qc * list Qc) (wts : list (Qc * list Qc)) i :
  weighted_sum_at (wt :: wts) i
  = (wt.1 * default 0%Qc (wt.2 !! i) + weighted_sum_at wts i)%Qc.
Proof. reflexivity. Qed.

Lemma product_at_Permutation (ts ts' : list (list Qc)) i :
  ts ≡ₚ ts' -> product_at ts i = product_at ts' i.
Proof.
  induction 1 as [|t ts ts' _ IH|t1 t2 ts|ts1 ts2 ts3 _ IH1 _ IH2]; simpl.
  - done.
  - by rewrite IH.
  - ring.
  - by rewrite IH1.
Qed.

Lemma product_at_in_unit (ts : list (list Qc)) i :
  Forall (Forall in_unit) ts -> in_unit (product_at ts i).
Proof.
  induction 1 as [|t ts Ht _ IH]; simpl; [apply in_unit_1|].
  apply in_unit_mult; [|done].
  destruct (t !! i) as [x|] eqn:Hx; simpl; [|apply in_unit_1].
  rewrite Forall_forall in Ht. apply Ht, list_elem_of_In. by eapply list_elem_of_lookup_2.
Qed.

Lemma weighted_sum_at_bound (wts : list (Qc * list Qc)) i :
  Forall (fun wt => (0 <= wt.1)%Qc /\ Forall in_unit wt.2) wts ->
  (0 <= weighted_sum_at wts i)%Qc /\ (weighted_sum_at wts i <= tensor_sum wts.*1)%Qc.
Proof.
  induction 1 as [|[w t] wts [Hw Ht] _ [IH0 IH1]]; simpl in *.
  - split; compute_done.
  - assert (in_unit (default 0%Qc (t !! i))) as [Hx0 Hx1].
    { destruct (t !! i) as [x|] eqn:Hx; simpl; [|apply in_unit_0].
      rewrite Forall_forall in Ht. apply Ht, list_elem_of_In.
      by eapply list_elem_of_lookup_2. }
    split.
    + apply Qcplus_nonneg_nonneg; [by apply Qcmult_nonneg_nonneg | done].
    + apply Qcplus_le_compat; [|done].
      rewrite <- (Qcmult_1_r w) at 2. by apply Qcmult_le_mono_nonneg_l.
Qed.

(** The weights that [zip] pairs with a function are a prefix of the
    weights: they sum to no more than all of them. *)
Lemma tensor_sum_zip_le {B} (ws : list Qc) (fs : list B) :
  Forall (fun w => (0 <= w)%Qc) ws ->
  (0 <= tensor_sum ws)%Qc /\ (tensor_sum (zip ws fs).*1 <= tensor_sum ws)%Qc.
Proof.
  intros Hws. revert fs. induction Hws as [|w ws Hw _ IH]; intros fs; simpl.
  - split; compute_done.
  - destruct (IH []) as [Hs0 _]. split; [by apply Qcplus_nonneg_nonneg|].
    destruct fs as [|f fs]; simpl.
    + by apply Qcplus_nonneg_nonneg.
    + destruct (IH fs) as [_ Hle]. apply Qcplus_le_compat; [apply Qcle_refl | done].
Qed.

Context {X : Type} (g : X -> list Qc).

Lemma foldl_imul_closed (xs : list X) r :
  Forall (fun x => length (g x) = length r) xs ->
  exists r',
    foldl (imul_step g) (Ok r) xs = Ok r'
    /\ length r' = length r
    /\ forall i x, r !! i = Some x -> r' !! i = Some (x * product_at (g <$> xs) i)%Qc.
Proof.
  revert r. induction xs as [|x0 xs IH]; intros r Hf.
  - exists r. split; [done|]. split; [done|]. intros i x ->. simpl. f_equal. ring.
  - inversion_clear Hf as [|? ? Hx Hxs].
    destruct (imul_total r (g x0) Hx) as [r1 Hr1].
    change (foldl (imul_step g) (Ok r) (x0 :: xs))
      with (foldl (imul_step g) (Torch.imul r (g x0)) xs). rewrite Hr1.
    pose proof (imul_spec _ _ _ Hr1) as [Hlen1 _].
    destruct (IH r1) as (r' & Hr' & Hlen' & Hlook).
    { eapply List.Forall_impl; [|exact Hxs]. simpl. intros; lia. }
    exists r'. split; [done|]. split; [lia|].
    intros i x Hi.
    destruct (lookup_lt_is_Some_2 (g x0) i) as [y Hy].
    { rewrite Hx. by eapply lookup_lt_Some. }
    rewrite (Hlook i (x * y)%Qc) by (by eapply imul_lookup).
    rewrite fmap_cons, product_at_cons, Hy. simpl default. f_equal. ring.
Qed.

(** A fold that returns has met shapes that broadcast only. *)
Lemma foldl_imul_shapes (xs : list X) acc r' :
  foldl (imul_step g) acc xs = Ok r' ->
  Forall (fun x => length (g x) = length r' \/ length (g x) = 1) xs.
Proof.
  revert acc. induction xs as [|x0 xs IH]; intros acc; simpl; [by constructor|].
  intros Hf. constructor; [|by eapply IH].
  apply foldl_imul_keep in Hf as (r1 & Hstep & Hlen & _).
  destruct acc as [r|e]; [|done]. simpl in Hstep.
  pose proof (imul_spec _ _ _ Hstep) as [Hlen1 _].
  apply imul_shape in Hstep. lia.
Qed.

End AggregatorClosedForm.

Section AggregatorWeightedClosedForm.
Context (base : string) (responses : list Response) (name : string).

Lemma foldl_weighted_closed (wfs : list (Qc * RewardFn)) (r : list Qc) :
  Forall (fun wf => length (wf.2 base responses name) = length r) wfs ->
  exists r',
    foldl (apply_weighted base responses name) (Ok r) wfs = Ok r'
    /\ length r' = length r
    /\ forall i x,
         r !! i = Some x ->
         r' !! i
         = Some (x + weighted_sum_at
                       ((fun wf : Qc * RewardFn => (wf.1, wf.2 base responses name)) <$> wfs)
                       i)%Qc.
Proof.
  revert r. induction wfs as [|wf wfs IH]; intros r Hf.
  - exists r. split; [done|]. split; [done|]. intros i x ->. simpl. f_equal. ring.
  - inversion_clear Hf as [|? ? Hx Hxs].
    destruct (iadd_total r (Torch.scale wf.1 (wf.2 base responses name))) as [r1 Hr1].
    { unfold Torch.scale. by rewrite length_fmap. }
    change (foldl (apply_weighted base responses name) (Ok r) (wf :: wfs))
      with (foldl (apply_weighted base responses name)
              (Torch.iadd r (Torch.scale wf.1 (wf.2 base responses name))) wfs).
    rewrite Hr1. pose proof (iadd_spec _ _ _ Hr1) as Hlen1.
    destruct (IH r1) as (r' & Hr' & Hlen' & Hlook).
    { eapply List.Forall_impl; [|exact Hxs]. simpl. intros; lia. }
    exists r'. split; [done|]. split; [lia|].
    intros i x Hi.
    destruct (lookup_lt_is_Some_2 (wf.2 base responses name) i) as [y Hy].
    { apply lookup_lt_Some in Hi. rewrite <- Hx in Hi. exact Hi. }
    rewrite (Hlook i (x + wf.1 * y)%Qc).
    + rewrite fmap_cons, weighted_sum_at_cons. simpl fst. simpl snd.
      rewrite Hy. simpl default. f_equal. ring.
    + eapply iadd_lookup; [exact Hr1 | | done |].
      * unfold Torch.scale. by rewrite length_fmap.
      * unfold Torch.scale. by rewrite list_lookup_fmap, Hy.
Qed.

Lemma foldl_weighted_shapes (wfs : list (Qc * RewardFn)) acc r' :
  foldl (apply_weighted base responses name) acc wfs = Ok r' ->
  Forall (fun wf => length (wf.2 base responses name) = length r'
                    \/ length (wf.2 base responses name) = 1) wfs.
Proof.
  revert acc. induction wfs as [|wf wfs IH]; intros acc; simpl; [by constructor|].
  intros Hf. constructor; [|by eapply IH].
  apply foldl_weighted_keep in Hf as (r1 & Hstep & Hlen).
  destruct acc as [r|e]; [|done]. simpl in Hstep.
  pose proof (iadd_spec _ _ _ Hstep) as Hlen1.
  apply iadd_shape in Hstep. unfold Torch.scale in Hstep.
  rewrite length_fmap in Hstep. rewrite Hlen, Hlen1. exact Hstep.
Qed.

End AggregatorWeightedClosedForm.

(** The closed form of the aggregation, shared by the statements below. *)
Lemma compute_rewards_closed (self : neuron) (task : RoleplayTask)
    (responses : list Response) (name : string) :
  well_shaped self task responses name ->
  exists rewards,
    compute_rewards self task responses name = Ok rewards
    /\ length rewards = length responses
    /\ forall i, i < length responses ->
         rewards !! i
         = Some (weighted_sum_at (weighted_scores self task responses name) i
                 * product_at (masks self task responses name) i
                 * product_at (applied_penalties self task responses) i)%Qc.
Proof.
  intros (Hw & Hmk & Hp). unfold compute_rewards.
  assert (length (Torch.zeros (length responses)) = length responses) as Hz0
    by apply length_replicate.
  destruct (foldl_weighted_closed (base_text task) responses name
              (zip (reward_weights self) (reward_functions self))
              (Torch.zeros (length responses))) as (r1 & -> & Hlen1 & Hl1).
  { apply (Forall_zip_snd (fun f : RewardFn => length (f _ _ _) = _)).
    by rewrite Hz0. }
  destruct (foldl_imul_closed (fun f : RewardFn => f (base_text task) responses name)
              (masking_functions self) r1) as (r2 & Hr2 & Hlen2 & Hl2).
  { by rewrite Hlen1, Hz0. }
  unfold apply_masking, apply_penalty. unfold imul_step in Hr2. rewrite Hr2.
  destruct (foldl_imul_closed (fun f : PenaltyFn => (f responses task).2)
              (penalty_functions self) r2) as (r3 & Hr3 & Hlen3 & Hl3).
  { by rewrite Hlen2, Hlen1, Hz0. }
  exists r3. split; [exact Hr3|]. split; [lia|].
  intros i Hi. erewrite Hl3; [|erewrite Hl2; [|erewrite Hl1; [|by apply lookup_replicate_2]]];
    try reflexivity.
  unfold weighted_scores, masks, applied_penalties. f_equal. ring.
Qed.

(** X5.  When every configured function returns one entry per response,
    [compute_rewards] returns, at each index, the weighted sum of the scores
    (over the weights and functions that [zip] pairs) times the product of
    the masks times the product of the applied penalties. *)
Theorem compute_rewards_closed_form (self : neuron) (task : RoleplayTask)
    (responses : list Response) (name : string) :
  well_shaped self task responses name ->
  exists rewards,
    compute_rewards self task responses name = Ok rewards
    /\ length rewards = length responses
    /\ forall i, i < length responses ->
         rewards !! i
         = Some (weighted_sum_at (weighted_scores self task responses name) i
                 * product_at (masks self task responses name) i
                 * product_at (applied_penalties self task responses) i)%Qc.
Proof. apply compute_rewards_closed. Qed.

(** X6.  When the weights are not negative and sum to at most 1 and every
    score, mask and applied penalty lies in [0,1], every reward that
    [compute_rewards] returns lies in [0,1]. *)
Theorem compute_rewards_in_unit (self : neuron) (task : RoleplayTask)
    (responses : list Response) (name : string) :
  well_shaped self task responses name ->
  Forall (fun w => (0 <= w)%Qc) (reward_weights self) ->
  (tensor_sum (reward_weights self) <= 1)%Qc ->
  Forall (fun wt => Forall in_unit wt.2) (weighted_scores self task responses name) ->
  Forall (Forall in_unit) (masks self task responses name) ->
  Forall (Forall in_unit) (applied_penalties self task responses) ->
  exists rewards,
    compute_rewards self task responses name = Ok rewards
    /\ Forall in_unit rewards.
Proof.
  intros Hws Hw Hsum Hsc Hmk Hpen.
  destruct (compute_rewards_closed self task responses name Hws)
    as (rewards & Hr & Hlen & Hform).
  exists rewards. split; [done|]. apply Forall_lookup. intros i x Hx.
  rewrite Hform in Hx by (rewrite <- Hlen; by eapply lookup_lt_Some).
  injection Hx as <-.
  assert (in_unit (weighted_sum_at (weighted_scores self task responses name) i)) as Hunit.
  { destruct (weighted_sum_at_bound (weighted_scores self task responses name) i)
      as [H0 H1].
    - apply Forall_forall. intros wt Hwt. split.
      + unfold weighted_scores in Hwt. apply list_elem_of_In, list_elem_of_fmap in Hwt
          as ([w f] & -> & Hin).
        apply elem_of_zip_l in Hin. simpl.
        rewrite Forall_forall in Hw. by apply Hw, list_elem_of_In.
      + rewrite Forall_forall in Hsc. by apply Hsc.
    - split; [done|]. eapply Qcle_trans; [exact H1|].
      destruct (tensor_sum_zip_le (reward_weights self) (reward_functions self) Hw)
        as [_ Hle].
      unfold weighted_scores. rewrite <- list_fmap_compose.
      eapply Qcle_trans; [|exact Hsum].
      replace ((fst ∘ (fun wf : Qc * RewardFn => (wf.1, wf.2 (base_text task) responses name)))
                 <$> zip (reward_weights self) (reward_functions self))
        with ((zip (reward_weights self) (reward_functions self)).*1); [done|].
      by apply list_fmap_ext. }
  apply in_unit_mult; [apply in_unit_mult|]; [done | |]; by apply product_at_in_unit.
Qed.

(** X7.  With no weighted scoring function (or no weight), as in the mock
    configuration, every reward vector [compute_rewards] returns is all
    zeros, whatever the masking and penalty functions return. *)
Theorem compute_rewards_no_weighted (self : neuron) (task : RoleplayTask)
    (responses : list Response) (name : string) (rewards : list Qc) :
  reward_weights self = [] \/ reward_functions self = [] ->
  compute_rewards self task responses name = Ok rewards ->
  rewards = Torch.zeros (length responses).
Proof.
  intros Hnone. unfold compute_rewards.
  assert (zip (reward_weights self) (reward_functions self) = []) as ->.
  { destruct Hnone as [-> | ->]; [done|]. by destruct (reward_weights self). }
  simpl. intros Hp.
  apply (foldl_imul_keep (fun f : PenaltyFn => (f responses task).2)) in Hp
    as (r2 & Hmask & Hl2 & Hk2).
  apply (foldl_imul_keep (fun f : RewardFn => f (base_text task) responses name)) in Hmask
    as (r1 & [= <-] & Hl1 & Hk1).
  unfold Torch.zeros in *. rewrite length_replicate in Hl1.
  apply list_eq. intros i. destruct (decide (i < length responses)) as [Hi|Hi].
  - rewrite lookup_replicate_2 by done. apply Hk2, Hk1. by apply lookup_replicate_2.
  - rewrite (proj2 (lookup_ge_None _ _)) by lia.
    symmetry. apply lookup_ge_None. rewrite length_replicate. lia.
Qed.

(** X8.  Whenever [compute_rewards] returns, the reward vector has one
    entry per response, and every vector that a paired weighted function, a
    masking function or a penalty function returned had one entry per
    response or a single entry (which torch broadcasts): any other size
    makes [compute_rewards] raise. *)
Theorem compute_rewards_shapes (self : neuron) (task : RoleplayTask)
    (responses : list Response) (name : string) (rewards : list Qc) :
  compute_rewards self task responses name = Ok rewards ->
  length rewards = length responses
  /\ Forall (fun wt => length wt.2 = length responses \/ length wt.2 = 1)
            (weighted_scores self task responses name)
  /\ Forall (fun t => length t = length responses \/ length t = 1)
            (masks self task responses name)
  /\ Forall (fun t => length t = length responses \/ length t = 1)
            (applied_penalties self task responses).
Proof.
  intros Hr. pose proof (compute_rewards_length _ _ _ _ _ Hr) as Hlen.
  split; [done|]. unfold compute_rewards in Hr.
  pose proof (foldl_imul_shapes (fun f : PenaltyFn => (f responses task).2) _ _ _ Hr) as Hpen.
  apply (foldl_imul_keep (fun f : PenaltyFn => (f responses task).2)) in Hr
    as (r2 & Hmask & Hl2 & _).
  pose proof (foldl_imul_shapes (fun f : RewardFn => f (base_text task) responses name)
                _ _ _ Hmask) as Hmk.
  apply (foldl_imul_keep (fun f : RewardFn => f (base_text task) responses name)) in Hmask
    as (r1 & Hw & Hl1 & _).
  pose proof (foldl_weighted_shapes _ _ _ _ _ _ Hw) as Hws.
  assert (length r2 = length responses) as Hr2 by lia.
  assert (length r1 = length responses) as Hr1 by lia.
  rewrite Hlen in Hpen. rewrite Hr2 in Hmk. rewrite Hr1 in Hws.
  split; [|split].
  - unfold weighted_scores. apply Forall_fmap. exact Hws.
  - unfold masks. apply Forall_fmap. exact Hmk.
  - unfold applied_penalties. apply Forall_fmap. exact Hpen.
Qed.

(** X9.  The order of the masking functions does not matter: when every
    configured function returns one entry per response, a validator whose
    masking functions are a permutation of those of another returns the same
    reward vector. *)
Theorem compute_rewards_masking_order (self : neuron) (task : RoleplayTask)
    (responses : list Response) (name : string) (fs : list RewardFn) :
  well_shaped self task responses name ->
  fs ≡ₚ masking_functions self ->
  compute_rewards (set_masking_functions self fs) task responses name
  = compute_rewards self task responses name.
Proof.
  intros Hws Hperm.
  assert (well_shaped (set_masking_functions self fs) task responses name) as Hws'.
  { destruct Hws as (Hw & Hmk & Hp). split; [done|]. split; [|done].
    simpl. by rewrite Hperm. }
  destruct (compute_rewards_closed _ _ _ _ Hws) as (r & -> & Hlen & Hform).
  destruct (compute_rewards_closed _ _ _ _ Hws') as (r' & -> & Hlen' & Hform').
  f_equal. apply list_eq. intros i.
  destruct (decide (i < length responses)) as [Hi|Hi].
  - rewrite Hform, Hform' by done. f_equal.
    assert (product_at (masks (set_masking_functions self fs) task responses name) i
            = product_at (masks self task responses name) i) as ->.
    { apply product_at_Permutation. unfold masks. simpl. by rewrite Hperm. }
    reflexivity.
  - rewrite !(proj2 (lookup_ge_None _ _)) by lia. done.
Qed.

(** ** The trust ledger: when it raises, and the range of the trust *)

Lemma foldl_put_Forall (P : Qc -> Prop) (t : list Qc) (ivs : list (nat * Qc)) :
  Forall P t -> Forall (fun iv => P iv.2) ivs -> Forall P (foldl put t ivs).
Proof.
  intros Ht Hivs. revert t Ht. induction Hivs as [|iv ivs Hiv _ IH]; intros t Ht; simpl.
  - done.
  - apply IH. unfold put. by apply Forall_insert.
Qed.

(** X10.  The ledger update returns exactly when there are no more uids
    than rewards and every uid is a position of the trust vector, and then
    the trust vector keeps its size; otherwise it raises the RuntimeError
    of [scatter] and leaves no new trust vector. *)
Theorem update_moving_averaged_scores_returns (alpha : Qc) (scores : list Qc)
    (uids : list nat) (rewards : list Qc) :
  (length uids <= length rewards /\ Forall (fun u => u < length scores) uids ->
     exists new,
       update_moving_averaged_scores alpha scores uids rewards = Ok new
       /\ length new = length scores)
  /\ (~ (length uids <= length rewards /\ Forall (fun u => u < length scores) uids) ->
      update_moving_averaged_scores alpha scores uids rewards
      = Raise (RuntimeError "index out of bounds in scatter")).
Proof.
  split.
  - intros [Hlen Hin].
    destruct (scatter_spec scores uids rewards Hlen Hin) as (t' & Ht' & Hl' & _).
    destruct (add_scaled_lookup alpha t' scores Hl') as (new & Hnew & Hln & _).
    exists new. unfold update_moving_averaged_scores. rewrite Ht'. by split.
  - intros Hnot. unfold update_moving_averaged_scores, Torch.scatter.
    destruct (length uids <=? length rewards) eqn:Hlen; [|done].
    destruct (forallb (fun i => i <? length scores) uids) eqn:Hall; [|done].
    exfalso. apply Hnot. split; [by apply Nat.leb_le|].
    apply Forall_forall. intros u Hu. apply Nat.ltb_lt.
    by apply (proj1 (forallb_forall _ _) Hall).
Qed.

Lemma update_moving_averaged_scores_returns_witness :
  (exists new,
     update_moving_averaged_scores (Q2Qc (1 # 2)) [1; 1]%Qc [1] [0%Qc] = Ok new
     /\ length new = 2)
  /\ update_moving_averaged_scores (Q2Qc (1 # 2)) [1; 1]%Qc [2] [0%Qc]
     = Raise (RuntimeError "index out of bounds in scatter").
Proof.
  split.
  - destruct (update_moving_averaged_scores_returns (Q2Qc (1 # 2)) [1; 1]%Qc [1] [0%Qc])
      as [Hok _].
    apply Hok. split; [simpl; lia|]. repeat constructor.
  - destruct (update_moving_averaged_scores_returns (Q2Qc (1 # 2)) [1; 1]%Qc [2] [0%Qc])
      as [_ Hraise].
    apply Hraise. intros [_ Hin]. inversion_clear Hin as [|? ? H2 _]. simpl in H2. lia.
Defined.

(** X11.  When [alpha], the previous trust and the rewards lie in [0,1],
    so does the trust that the update returns. *)
Theorem update_moving_averaged_scores_in_unit (alpha : Qc) (scores : list Qc)
    (uids : list nat) (rewards new : list Qc) :
  in_unit alpha -> Forall in_unit scores -> Forall in_unit rewards ->
  update_moving_averaged_scores alpha scores uids rewards = Ok new ->
  Forall in_unit new.
Proof.
  intros Ha Hs Hr. unfold update_moving_averaged_scores.
  intros (t' & Ht' & Hadd)%bind_Ok_inv.
  assert (Forall in_unit t' /\ length t' = length scores) as [Hunit Hlen].
  { unfold Torch.scatter in Ht'.
    destruct (_ && _); [|done]. injection Ht' as <-. rewrite scatter_fold. split.
    - apply foldl_put_Forall; [done|]. apply Forall_forall.
      intros [u v] Hin%list_elem_of_In. apply elem_of_zip_r in Hin. simpl.
      rewrite Forall_forall in Hr. by apply Hr, list_elem_of_In.
    - apply foldl_put_length. }
  destruct (add_scaled_lookup alpha t' scores Hlen) as (c & Hc & Hlc & Hlook).
  rewrite Hc in Hadd. injection Hadd as <-.
  apply Forall_lookup. intros i z Hz.
  assert (i < length scores) as Hi by (rewrite <- Hlc; by eapply lookup_lt_Some).
  destruct (lookup_lt_is_Some_2 scores i Hi) as [y Hy].
  destruct (lookup_lt_is_Some_2 t' i ltac:(lia)) as [x Hx].
  rewrite (Hlook i x y Hx Hy) in Hz. injection Hz as <-.
  apply in_unit_convex; [done| |].
  - rewrite Forall_forall in Hunit. apply Hunit, list_elem_of_In.
    by eapply list_elem_of_lookup_2.
  - rewrite Forall_forall in Hs. apply Hs, list_elem_of_In.
    by eapply list_elem_of_lookup_2.
Qed.

Lemma update_moving_averaged_scores_in_unit_witness :
  Forall in_unit [Q2Qc (3 # 4); 1%Qc].
Proof.
  apply (update_moving_averaged_scores_in_unit (Q2Qc (1 # 2)) [1; 1]%Qc [0] [Q2Qc (1 # 2)]).
  - split; compute_done.
  - repeat constructor; compute_done.
  - repeat constructor; compute_done.
  - compute_done.
Defined.

(** ** One round: what a returned event holds *)



Lemma mapM_py_index_length {A} (l : list A) (idx : list nat) (xs : list A) :
  mapM (py_index l) idx = Ok xs -> length xs = length idx.
Proof.
  revert xs. induction idx as [|i idx IH]; intros xs; simpl.
  - by intros [= <-].
  - intros (x & _ & (ys & Hys & [= <-])%bind_Ok_inv)%bind_Ok_inv.
    simpl. f_equal. by apply IH.
Qed.


(** The steps of a round that returns. *)
Lemma run_step_Ok_inv `{Utils} (self : neuron) (rng : Rng) (task : RoleplayTask)
    (k : Z) (timeout : Qc) (exclude : list nat) (self' : neuron) (ev : Event) :
  run_step self rng task k timeout exclude = Ok (self', ev) ->
  exists uids axs rewards sel bi c scores,
    let synapse :=
      mkPrompting (character_name task) (character_description task)
        [character_name task] ["user"%string]
        [mkMessage "system" (compose_instruction task)] (get_criteria_strs task) in
    let answers := map (fun axon => dendrite self axon synapse timeout) axs in
    let responses := restrict_format_followup_responses answers (task_name task) in
    get_random_uids self rng k (Some exclude) = Ok uids
    /\ uids <> []
    /\ get_random_uids_tensor self rng k (Some exclude) = Ok (Torch.LongTensor uids)
    /\ mapM (py_index (axons (metagraph self))) uids = Ok axs
    /\ compute_rewards self task responses (task_name task) = Ok rewards
    /\ mapM (py_index (gating_model self (compose_prompt task))) uids = Ok sel
    /\ Torch.argmax rewards = Ok bi
    /\ map completion responses !! bi = Some c
    /\ update_moving_averaged_scores (moving_average_alpha (config self))
         (moving_averaged_scores self) uids rewards = Ok scores
    /\ self'
       = set_moving_averaged_scores
           (set_gating_trained
              (set_blacklist_added self
                 (blacklist_added self
                  ++ [filter (fun c => c ≠ EmptyString) (map completion answers)]))
              (gating_trained self ++ [(sel, rewards)]))
           scores
    /\ ev
       = mkEvent (task_name task) (task_type task) (compose_prompt task) uids
           (map completion responses)
           (map (fun r => default 0%Qc (process_time r)) responses)
           (map status_message responses) (map status_code responses) rewards
           (gating_backward self (gating_trained self) sel rewards)
           (PyStr.strip PyStr.is_space c).
Proof.
  unfold run_step. intros Hrun.
  apply bind_Ok_inv in Hrun as (t & Ht & Hrun).
  apply bind_Ok_inv in Hrun as (axs & Haxs & Hrun). cbv zeta in Hrun.
  apply bind_Ok_inv in Hrun as (rewards & Hrew & Hrun).
  apply bind_Ok_inv in Hrun as (sel & Hsel & Hrun).
  apply bind_Ok_inv in Hrun as (bi & Hbi & Hrun).
  apply bind_Ok_inv in Hrun as (best & Hbest & Hrun).
  apply bind_Ok_inv in Hrun as (scores & Hsc & Hrun).
  injection Hrun as <- <-.
  apply get_random_uids_tensor_Ok in Ht as Huids. destruct Huids as [Huids _].
  rewrite compute_rewards_set_blacklist_added in Hrew.
  apply compute_rewards_length in Hrew as Hlr.
  unfold restrict_format_followup_responses in Hlr. rewrite !length_map in Hlr.
  apply mapM_py_index_length in Haxs as Hlaxs.
  assert (Torch.tolist t <> []) as Hne.
  { intros Hnil. rewrite Hnil in Hlaxs. destruct axs; [|done].
    destruct rewards; [|done]. discriminate Hbi. }
  destruct t as [dt uids]. simpl in *.
  assert (dt = Torch.int64) as ->.
  { unfold Torch.index in Hsel. simpl in Hsel. by destruct dt. }
  apply fmap_Ok_inv in Hbest as (c & Hc & <-).
  unfold py_index in Hc.
  destruct (map completion _ !! bi) as [c'|] eqn:Hc'; [|done]. injection Hc as ->.
  by exists uids, axs, rewards, sel, bi, c, scores.
Qed.



(** ** The epoch loop: traces, counters and quiet rounds *)

Section LoopTraces.
Context `{Utils}.
Implicit Types (self : neuron) (rd : Round) (rounds : list Round).

Lemma boundary_entries_app (tr1 tr2 : list LoopEvent) :
  boundary_entries (tr1 ++ tr2) = boundary_entries tr1 + boundary_entries tr2.
Proof. unfold boundary_entries. by rewrite List.filter_app, length_app. Qed.

(** What one iteration leaves: an exception before any boundary, or the
    next step with at most one boundary; no event of the handler. *)
Lemma iteration_trace rd self tr (res : result neuron) :
  iteration rd self = (tr, res) ->
  Forall (fun ev => is_error_event ev = false) tr
  /\ match res with
     | Ok self' => step self' = S (step self) /\ boundary_entries tr <= 1
     | Raise _ => boundary_entries tr = 0
     end.
Proof.
  unfold iteration. destruct (negb _); [by intros [= <- <-]|].
  destruct (run_forward self (forward_inputs rd)) as [self1|e] eqn:Hfw;
    [|intros [= <- <-]; split; [by repeat constructor | done]].
  destruct (run_forward_frame _ _ _ Hfw) as (_ & _ & _ & _ & Hstep).
  destruct (should_update (block_at_check rd) self1); unfold epoch_boundary;
    intros [= <- <-]; simpl; rewrite Hstep;
    destruct (weights_due rd), (wandb_due rd); simpl;
    (split; [by repeat constructor | split; [done | unfold boundary_entries; simpl; lia]]).
Qed.

(** An iteration that finds the epoch not elapsed leaves the registry, the
    recorded height and the configuration as they are. *)
Lemma iteration_quiet rd self tr (res : result neuron) :
  (block_at_check rd - prev_block self <= epoch_length (config self))%Z ->
  iteration rd self = (tr, res) ->
  boundary_entries tr = 0
  /\ forall self', res = Ok self' ->
       metagraph self' = metagraph self /\ prev_block self' = prev_block self
       /\ config self' = config self /\ wallet_hotkey self' = wallet_hotkey self.
Proof.
  intros Hq. unfold iteration. destruct (negb _); [by intros [= <- <-]|].
  destruct (run_forward self (forward_inputs rd)) as [self1|e] eqn:Hfw;
    [|by intros [= <- <-]].
  destruct (run_forward_frame _ _ _ Hfw) as (Hcfg & Hhk & Hmg & Hprev & _).
  assert (should_update (block_at_check rd) self1 = false) as ->.
  { unfold should_update. rewrite Hcfg, Hprev. apply bool_decide_eq_false_2. lia. }
  intros [= <- <-]. split.
  - unfold boundary_entries. by destruct (wandb_due rd).
  - by intros self' [= <-].
Qed.

Lemma run_forward_Raise_fold (inputs : nat -> Rng * RoleplayTask) (l : list nat) e :
  foldl (fun acc i => self ← acc; forward self (inputs i).1 (inputs i).2) (Raise e) l
  = Raise e.
Proof. induction l; simpl; auto. Qed.

(** The round on an empty sample raises. *)
Lemma run_step_raises_on_empty self rng task k timeout exclude :
  get_random_uids self rng k (Some exclude) = Ok [] ->
  raises (run_step self rng task k timeout exclude).
Proof.
  intros Huids. rewrite (run_step_on_empty_sample self rng task k timeout exclude Huids).
  destruct (compute_rewards self task [] (task_name task)); by eexists.
Qed.

End LoopTraces.

(** X13.  However the loop ends, it entered the epoch boundary at most once
    per round.  While it runs, the step counter has advanced by one per
    round and the trace holds no event of the error handler; when it has
    stopped, the trace ends with the one error log and the one traceback of
    the exception that stopped it. *)
Theorem run_outcome `{Utils} (rounds : list Round) (self : neuron) :
  boundary_entries (run rounds self).1 <= length rounds
  /\ match (run rounds self).2 with
     | Running self' =>
         step self' = step self + length rounds
         /\ Forall (fun ev => is_error_event ev = false) (run rounds self).1
     | Stopped err =>
         exists tr,
           (run rounds self).1
           = tr ++ [LogError "Error in training loop" (exn_str err); PrintException err]
           /\ Forall (fun ev => is_error_event ev = false) tr
     end.
Proof.
  revert self. induction rounds as [|rd rounds IH]; intros self; simpl.
  - split; [done|]. split; [lia | constructor].
  - destruct (iteration rd self) as [tr [self1|e]] eqn:Hit.
    + destruct (iteration_trace _ _ _ _ Hit) as (Hclean & Hstep & Hb).
      specialize (IH self1). destruct (run rounds self1) as [tr' out]. simpl in *.
      destruct IH as [Hb' Hout]. split; [rewrite boundary_entries_app; lia|].
      destruct out as [self'|err].
      * destruct Hout as [Hs Hc]. split; [lia | by apply Forall_app].
      * destruct Hout as (tr0 & -> & Hc). exists (tr ++ tr0).
        split; [by rewrite app_assoc | by apply Forall_app].
    + destruct (iteration_trace _ _ _ _ Hit) as (Hclean & Hb). simpl. split.
      * rewrite boundary_entries_app, Hb. unfold boundary_entries. simpl. lia.
      * by exists tr.
Qed.

(** X14.  When the validator is registered, an iteration runs at least one
    forward and no peer is eligible, the loop stops in its first iteration:
    the forward raises on the empty sample, the handler logs it, and no
    later round runs. *)
Theorem run_no_eligible_peer `{Utils} (rd : Round) (rounds : list Round) (self : neuron) :
  wallet_hotkey self ∈ hotkeys (metagraph self) ->
  0 < num_concurrent_forwards (config self) ->
  (forall uid, ~ eligible self (Some []) uid) ->
  exists err,
    run (rd :: rounds) self
    = ([LogStep (step self) (block_at_log rd);
        LogError "Error in training loop" (exn_str err);
        PrintException err],
       Stopped err).
Proof.
  intros Hreg Hfw Hnone.
  assert (get_random_uids self (forward_inputs rd 0).1 (followup_sample_size (config self))
            (Some []) = Ok []) as Huids.
  { apply get_random_uids_no_candidate.
    destruct (candidate_uids self (Some [])) as [|uid l] eqn:Hc; [done|].
    exfalso. apply (Hnone uid), elem_of_candidate_uids. rewrite Hc. by left. }
  destruct (run_step_raises_on_empty self (forward_inputs rd 0).1 (forward_inputs rd 0).2
              (followup_sample_size (config self)) (followup_timeout (config self)) []
              Huids) as [err Herr].
  exists err. simpl. unfold iteration.
  rewrite bool_decide_eq_true_2 by done. simpl negb. cbv iota.
  assert (run_forward self (forward_inputs rd) = Raise err) as ->; [|done].
  unfold run_forward.
  destruct (num_concurrent_forwards (config self)) as [|m]; [lia|].
  simpl. unfold forward at 2. rewrite Herr. simpl.
  apply run_forward_Raise_fold.
Qed.

Lemma run_no_eligible_peer_witness :
  exists err,
    @run Examples.none_available [Examples.round_A; Examples.round_A] Examples.validator_C
    = ([LogStep 0 1101;
        LogError "Error in training loop" (exn_str err);
        PrintException err],
       Stopped err).
Proof.
  apply (@run_no_eligible_peer Examples.none_available Examples.round_A
           [Examples.round_A] Examples.validator_C).
  - apply list_elem_of_here.
  - simpl. lia.
  - intros uid (_ & Hav & _). discriminate Hav.
Defined.

(** X15.  Across rounds in none of which the epoch has elapsed since the
    height recorded at their start, the loop never enters the epoch
    boundary, and as long as it runs the registry, the recorded height and
    the configuration stay as they were: a registered validator stays
    registered. *)
Theorem run_quiet `{Utils} (rounds : list Round) (self : neuron) :
  Forall (fun rd => (block_at_check rd - prev_block self <= epoch_length (config self))%Z)
         rounds ->
  boundary_entries (run rounds self).1 = 0
  /\ forall self',
       (run rounds self).2 = Running self' ->
       metagraph self' = metagraph self /\ prev_block self' = prev_block self
       /\ config self' = config self /\ wallet_hotkey self' = wallet_hotkey self.
Proof.
  revert self. induction rounds as [|rd rounds IH]; intros self Hq; simpl.
  - split; [done|]. by intros self' [= <-].
  - inversion_clear Hq as [|? ? Hrd Hrest].
    destruct (iteration rd self) as [tr [self1|e]] eqn:Hit.
    + destruct (iteration_quiet _ _ _ _ Hrd Hit) as [Hb Hsame].
      destruct (Hsame self1 eq_refl) as (Hmg & Hprev & Hcfg & Hhk).
      specialize (IH self1). rewrite Hprev, Hcfg in IH. specialize (IH Hrest).
      destruct (run rounds self1) as [tr' out]. simpl in *.
      destruct IH as [Hb' Hout]. split; [rewrite boundary_entries_app; lia|].
      intros self' ->. destruct (Hout self' eq_refl) as (? & ? & ? & ?).
      repeat split; congruence.
    + destruct (iteration_quiet _ _ _ _ Hrd Hit) as [Hb _]. simpl. split; [|done].
      rewrite boundary_entries_app, Hb. done.
Qed.

Lemma run_quiet_witness :
  boundary_entries
    (@run Examples.all_available [MoreExamples.round_quiet; MoreExamples.round_quiet]
       Examples.validator_A).1
  = 0.
Proof.
  apply (@run_quiet Examples.all_available
           [MoreExamples.round_quiet; MoreExamples.round_quiet] Examples.validator_A).
  constructor; [vm_compute; discriminate|].
  constructor; [vm_compute; discriminate | constructor].
Defined.

(** ** The further statements on concrete validators *)

Section MoreInstances.
Import Examples MoreExamples.

Lemma get_random_uids_length_witness :
  exists uids,
    @get_random_uids all_available validator_A rng_A 3 (Some [1]) = Ok uids
    /\ length uids = 3.
Proof.
  apply (@get_random_uids_length all_available validator_A rng_A 3 (Some [1]) [0; 2; 3; 4]).
  - lia.
  - compute_done.
  - intros uid. rewrite <- (@elem_of_candidate_uids all_available). reflexivity.
Defined.

Lemma get_random_uids_edge_witness :
  @get_random_uids none_available validator_A rng_A (-1) None = Ok []
  /\ @get_random_uids all_available validator_A rng_A (-1) None
     = Raise (ValueError "Sample larger than population or is negative").
Proof.
  split.
  - destruct (@get_random_uids_edge none_available validator_A rng_A (-1) None) as [Hnone _].
    apply Hnone. intros uid (_ & Hav & _). discriminate Hav.
  - destruct (@get_random_uids_edge all_available validator_A rng_A (-1) None) as [_ Hneg].
    apply Hneg; [lia|]. exists 0. split; [simpl; lia|]. split; [reflexivity|]. by intros ex [=].
Defined.

(** Scenario B by the closed form: 1 * 0.5 * 0 at the flagged response. *)
Lemma compute_rewards_closed_form_witness :
  exists rewards,
    compute_rewards validator_B task_A responses_B "followup" = Ok rewards
    /\ rewards !! 1 = Some (Q2Qc (1 # 2) * 0 * 1)%Qc.
Proof.
  destruct (compute_rewards_closed_form validator_B task_A responses_B "followup")
    as (rewards & Hr & _ & Hform).
  - repeat split; repeat constructor.
  - exists rewards. split; [exact Hr|]. rewrite (Hform 1) by (simpl; lia).
    f_equal; compute_done.
Defined.

Lemma compute_rewards_in_unit_witness :
  exists rewards,
    compute_rewards validator_E task_A responses_B "followup" = Ok rewards
    /\ Forall in_unit rewards.
Proof.
  apply (compute_rewards_in_unit validator_E task_A responses_B "followup").
  - repeat split; repeat constructor.
  - repeat constructor. compute_done.
  - compute_done.
  - repeat constructor; compute_done.
  - repeat constructor; compute_done.
  - repeat constructor; compute_done.
Defined.

Lemma compute_rewards_no_weighted_witness :
  compute_rewards validator_mock task_A responses_B "followup" = Ok (Torch.zeros 3).
Proof.
  destruct (compute_rewards validator_mock task_A responses_B "followup")
    as [rewards|e] eqn:Hr; [|vm_compute in Hr; discriminate Hr].
  f_equal.
  apply (compute_rewards_no_weighted validator_mock task_A responses_B "followup" rewards);
    [by left | exact Hr].
Defined.

(** A mask of a single entry is broadcast over the three responses. *)
Lemma compute_rewards_shapes_witness :
  exists rewards,
    compute_rewards validator_D task_A responses_B "followup" = Ok rewards
    /\ length rewards = 3.
Proof.
  destruct (compute_rewards validator_D task_A responses_B "followup")
    as [rewards|e] eqn:Hr; [|vm_compute in Hr; discriminate Hr].
  exists rewards. split; [reflexivity|].
  by destruct (compute_rewards_shapes validator_D task_A responses_B "followup" rewards Hr).
Defined.

Lemma compute_rewards_masking_order_witness :
  compute_rewards (set_masking_functions validator_E [mask_C; mask_B])
    task_A responses_B "followup"
  = compute_rewards validator_E task_A responses_B "followup".
Proof.
  apply (compute_rewards_masking_order validator_E task_A responses_B "followup"
           [mask_C; mask_B]).
  - repeat split; repeat constructor.
  - apply Permutation_swap.
Defined.

End MoreInstances.

(** ** Construction of the scoring pipeline: what a completed construction holds *)

(** X16.  Whenever construction completes outside the mock configuration,
    the configured weight lies between [1 - 2^-25] and [1 + 2^-24], so that
    it is 1 in the float32 tensor; the weight tensor is [1.0] and the
    weighted function is the Mistral model, and nothing was logged.  The mock
    model that the code would take for a weight that is not positive is
    never constructed, because such a weight fails the sum check first. *)
Theorem init_reward_models_live (cfg : RewardConfig) (models : RewardModels) :
  mock_reward_models cfg = false ->
  (init_reward_models cfg).2 = Ok models ->
  (float32_one_min <= mistral_weight cfg <= float32_one_max)%Qc
  /\ (0 < mistral_weight cfg)%Qc
  /\ Torch.tensor_float32 [mistral_weight cfg] = Some [1%Qc]
  /\ rm_reward_weights models = [1%Qc]
  /\ rm_reward_functions models = [MistralRewardModel]
  /\ (init_reward_models cfg).1 = [].
Proof.
  intros Hmock.
  destruct (init_reward_models_live_cases cfg Hmock)
    as [(Hw & models' & Hinit & Hweights & Hf)|[_ Hinit]]; rewrite Hinit; [|done].
  intros [= <-]. apply to_float32_one in Hw as Hint.
  split; [exact Hint|]. split.
  { apply Qclt_le_trans with float32_one_min; [done | apply Hint]. }
  split; [|done]. unfold Torch.tensor_float32. simpl mapM. by rewrite Hw.
Qed.

Lemma init_reward_models_live_witness :
  exists models,
    (init_reward_models Examples.rounded_config).2 = Ok models
    /\ rm_reward_weights models = [1%Qc]
    /\ rm_reward_functions models = [MistralRewardModel].
Proof.
  destruct (init_reward_models Examples.rounded_config).2 as [models|e] eqn:Hinit;
    [|vm_compute in Hinit; discriminate Hinit].
  exists models. split; [reflexivity|].
  by destruct (init_reward_models_live Examples.rounded_config models eq_refl Hinit)
    as (_ & _ & _ & Hw & Hf & _).
Defined.

(** Refutes the membership of a constructor in a list of other
    constructors. *)
Ltac not_in_list :=
  let Hin := fresh "Hin" in
  intros Hin;
  repeat (apply elem_of_cons in Hin as [Hin|Hin]; [discriminate Hin|]);
  by apply elem_of_nil in Hin.

(** X17.  Whenever construction completes, there are exactly two masking
    functions, the blacklist (the object kept as [self.blacklist]) and the
    NSFW model, each real or mock as its switch says, and three penalty
    functions; the relevance and diversity models are never among the
    masking functions, whatever [relevance_off] and [diversity_off] are. *)
Theorem init_reward_models_masking (cfg : RewardConfig) (models : RewardModels) :
  (init_reward_models cfg).2 = Ok models ->
  rm_masking_functions models
  = [rm_blacklist models;
     if mock_reward_models cfg || nsfw_off cfg then MockRewardModel rmt_nsfw
     else NSFWRewardModel]
  /\ rm_blacklist models
     = (if mock_reward_models cfg || blacklist_off cfg then MockRewardModel rmt_blacklist
        else Blacklist)
  /\ length (rm_penalty_functions models) = 3
  /\ (RelevanceRewardModel ∉ rm_masking_functions models)
  /\ (DiversityRewardModel ∉ rm_masking_functions models)
  /\ (MockRewardModel rmt_relevance ∉ rm_masking_functions models)
  /\ (MockRewardModel rmt_diversity ∉ rm_masking_functions models).
Proof.
  unfold init_reward_models. destruct (mock_reward_models cfg).
  - intros [= <-]. simpl. repeat split; try done; not_in_list.
  - destruct (Torch.tensor_float32 _) as [reward_weights|]; [|done].
    case_bool_decide; [done|]. case_bool_decide; [done|].
    intros [= <-]. simpl.
    destruct (blacklist_off cfg), (nsfw_off cfg); simpl;
      repeat split; try done; not_in_list.
Qed.

Lemma init_reward_models_masking_witness :
  exists models,
    (init_reward_models (mkRewardConfig false 1%Qc true false false false)).2 = Ok models
    /\ rm_masking_functions models = [MockRewardModel rmt_blacklist; NSFWRewardModel].
Proof.
  destruct (init_reward_models (mkRewardConfig false 1%Qc true false false false)).2
    as [models|e] eqn:Hinit; [|vm_compute in Hinit; discriminate Hinit].
  exists models. split; [reflexivity|].
  destruct (init_reward_models_masking _ models Hinit) as (Hmask & Hbl & _).
  rewrite Hmask, Hbl. reflexivity.
Defined.

(** ** The character flow: the truncated description *)

Section Truncation.
Import PyStr.
Implicit Types (s w : string) (m : nat) (sep : ascii) (ws : list string).

Lemma py_split_max_not_nil sep s m : py_split_max sep s m <> [].
Proof.
  revert m. induction s as [|a s IH]; intros m; simpl; [discriminate|].
  destruct m as [|m]; [discriminate|].
  destruct (is_char sep a); [discriminate|].
  by destruct (py_split_max sep s (S m)).
Qed.

Lemma join_cons_char sep a w ws :
  join (String sep "") (String a w :: ws) = String a (join (String sep "") (w :: ws)).
Proof. unfold join. simpl. by destruct ws. Qed.

(** Joining the pieces gives the string back. *)
Lemma join_py_split_max sep s m : join (String sep "") (py_split_max sep s m) = s.
Proof.
  revert m. induction s as [|a s IH]; intros m; simpl; [done|].
  destruct m as [|m]; [done|].
  destruct (is_char sep a) eqn:Ha.
  - apply Ascii.eqb_eq in Ha as ->. specialize (IH m).
    pose proof (py_split_max_not_nil sep s m).
    unfold join in *. destruct (py_split_max sep s m) as [|w ws]; [done|].
    rewrite <- IH. reflexivity.
  - specialize (IH (S m)). pose proof (py_split_max_not_nil sep s (S m)).
    destruct (py_split_max sep s (S m)) as [|w ws]; [done|].
    by rewrite join_cons_char, IH.
Qed.

Lemma py_split_max_length sep s m : length (py_split_max sep s m) <= S m.
Proof.
  revert m. induction s as [|a s IH]; intros m; simpl; [lia|].
  destruct m as [|m]; [simpl; lia|].
  destruct (is_char sep a); simpl.
  - specialize (IH m). lia.
  - specialize (IH (S m)). pose proof (py_split_max_not_nil sep s (S m)).
    destruct (py_split_max sep s (S m)); simpl in *; [done | lia].
Qed.

(** Every piece but the last holds no separator. *)
Lemma py_split_max_init sep s m : Forall (nochar sep) (removelast (py_split_max sep s m)).
Proof.
  revert m. induction s as [|a s IH]; intros m; simpl; [constructor|].
  destruct m as [|m]; [constructor|].
  destruct (is_char sep a) eqn:Ha.
  - pose proof (py_split_max_not_nil sep s m). specialize (IH m).
    destruct (py_split_max sep s m) as [|w ws] eqn:Hs; [done|].
    by constructor.
  - pose proof (py_split_max_not_nil sep s (S m)). specialize (IH (S m)).
    destruct (py_split_max sep s (S m)) as [|w ws] eqn:Hs; [done|].
    destruct ws as [|w' ws]; [constructor|].
    inversion_clear IH as [|? ? Hw Hws]. constructor; [by apply nochar_cons|done].
Qed.

Lemma py_split_max_nochar sep s m : nochar sep s -> py_split_max sep s m = [s].
Proof.
  revert m. induction s as [|a s IH]; intros m Hs; [done|]. simpl.
  destruct m as [|m]; [done|].
  apply nochar_cons in Hs as [Ha Hs]. by rewrite Ha, (IH _ Hs).
Qed.

Lemma py_split_max_has_char sep s m :
  has_char sep s = true -> 2 <= length (py_split_max sep s (S m)).
Proof.
  induction s as [|a s IH]; [done|]. simpl.
  destruct (is_char sep a); simpl.
  - intros _. pose proof (py_split_max_not_nil sep s m).
    destruct (py_split_max sep s m); simpl; [done | lia].
  - intros Hs. specialize (IH Hs).
    destruct (py_split_max sep s (S m)); simpl in *; lia.
Qed.

(** With no more separators than [maxsplit], the split is the full one. *)
Lemma py_split_max_full sep s m :
  length (split sep s) <= S m -> py_split_max sep s m = split sep s.
Proof.
  revert m. induction s as [|a s IH]; intros m; simpl; [done|].
  destruct (is_char sep a) eqn:Ha.
  - destruct m as [|m].
    + pose proof (split_not_nil sep s). destruct (split sep s); simpl; [done | lia].
    + simpl. intros Hlen. rewrite IH by lia. done.
  - pose proof (split_not_nil sep s) as Hne.
    destruct m as [|m].
    + destruct (split sep s) as [|w [|w' ws]] eqn:Hs; [done| |simpl; lia].
      intros _. f_equal. f_equal.
      rewrite <- (join_py_split_max sep s 0). specialize (IH 0).
      rewrite IH by (simpl; lia). reflexivity.
    + intros Hlen. rewrite IH; [done|].
      destruct (split sep s); simpl in *; [done | lia].
Qed.

Lemma append_assoc_str (s1 s2 s3 : string) : (s1 +:+ s2) +:+ s3 = s1 +:+ (s2 +:+ s3).
Proof.
  induction s1 as [|a s1 IH]; [done|].
  change (String a ((s1 +:+ s2) +:+ s3) = String a (s1 +:+ (s2 +:+ s3))).
  by f_equal.
Qed.

Lemma join_snoc sep ws w :
  ws <> [] -> join (String sep "") (ws ++ [w]) = join (String sep "") ws +:+ String sep w.
Proof.
  induction ws as [|w0 ws IH]; [done|]. intros _. unfold join in *. simpl.
  destruct ws as [|w1 ws]; simpl.
  - done.
  - simpl in IH. rewrite IH by done. by rewrite !append_assoc_str.
Qed.

End Truncation.

(** X18.  For every cutoff of at least one sentence, the description that
    [run_character_flow] puts in its prompt holds at most [cutoff]
    sentences; it is empty when the character description holds no period;
    otherwise the character description is that text, a period and a rest,
    and the rest holds no period when the description has no more than
    [cutoff] periods: the text after the last period is always dropped. *)
Theorem truncate_description_spec (description : string) (cutoff : nat) :
  0 < cutoff ->
  let d := truncate_description description cutoff in
  length (PyStr.split dot d) <= cutoff
  /\ (PyStr.has_char dot description = false -> d = EmptyString)
  /\ (PyStr.has_char dot description = true ->
      exists rest,
        description = d +:+ "." +:+ rest
        /\ (length (PyStr.split dot description) <= S cutoff -> nochar dot rest)).
Proof.
  intros Hc. cbv zeta. unfold truncate_description.
  pose proof (py_split_max_not_nil dot description cutoff) as Hne.
  pose proof (py_split_max_length dot description cutoff) as Hlen.
  pose proof (py_split_max_init dot description cutoff) as Hinit.
  pose proof (join_py_split_max dot description cutoff) as Hjoin.
  pose proof (app_removelast_last EmptyString Hne) as Hsnoc.
  set (l := py_split_max dot description cutoff) in *.
  set (init := removelast l) in *.
  assert (length l = S (length init)) as Hl.
  { rewrite Hsnoc at 1. rewrite length_app. simpl. lia. }
  split; [|split].
  - destruct init as [|w ws] eqn:Hi; [simpl; lia|].
    change "."%string with (String dot ""). rewrite split_join by done. lia.
  - intros Hno. unfold init, l. by rewrite py_split_max_nochar.
  - intros Hhas. exists (List.last l EmptyString).
    assert (init <> []) as Hine.
    { destruct cutoff as [|m]; [lia|].
      pose proof (py_split_max_has_char dot description m Hhas) as H2.
      fold l in H2. intros Heq. rewrite Heq in Hl. simpl in Hl. lia. }
    split.
    + rewrite <- Hjoin at 1. rewrite Hsnoc at 1.
      change "."%string with (String dot ""). rewrite join_snoc by done. reflexivity.
    + intros Hfew. unfold l. rewrite py_split_max_full by done.
      pose proof (split_pieces dot description) as Hp.
      pose proof (split_not_nil dot description) as Hn.
      rewrite (app_removelast_last EmptyString Hn) in Hp.
      apply Forall_app in Hp as [_ Hp]. by inversion_clear Hp.
Qed.

Lemma truncate_description_spec_witness :
  truncate_description "Ada is kind. She likes maps. She" 20
  = "Ada is kind. She likes maps"%string
  /\ length (PyStr.split dot (truncate_description "Ada is kind. She likes maps. She" 20))
     <= 20.
Proof.
  destruct (truncate_description_spec "Ada is kind. She likes maps. She" 20) as [Hlen _];
    [lia|].
  split; [reflexivity | exact Hlen].
Defined.

(** ** Construction of the validator *)

Section Construction.
Implicit Types (cfg : NeuronConfig) (env : InitEnv).

Lemma returns_Ok {A} (a : A) : returns (Ok a).
Proof. by exists a. Qed.

Lemma returns_Raise {A} (e : exn) : ~ returns (Raise (A:=A) e).
Proof. by intros [a Ha]. Qed.

Lemma returns_bind {A B} (m : result A) (f : A -> result B) :
  returns (m ≫= f) <-> exists a, m = Ok a /\ returns (f a).
Proof.
  destruct m as [a|e]; simpl.
  - split; [by exists a | by intros (a' & [= <-] & Hf)].
  - split; [by intros ?%returns_Raise | by intros (a & [=] & _)].
Qed.

Lemma check_registered_returns cfg env :
  returns (check_registered cfg env)
  <-> (wallet_mock cfg = false -> hotkey_registered env = Ok true).
Proof.
  unfold check_registered. destruct (wallet_mock cfg); simpl.
  - split; [done | intros _; apply returns_Ok].
  - destruct (hotkey_registered env) as [[|]|e]; simpl.
    + split; [done | intros _; apply returns_Ok].
    + split; [by intros ?%returns_Raise | intros Hc; by specialize (Hc eq_refl)].
    + split; [by intros ?%returns_Raise | intros Hc; by specialize (Hc eq_refl)].
Qed.

(** The part before the axon returns exactly when each of its calls does
    and the registration check passes. *)
Lemma init_before_axon_returns cfg env :
  returns (init_before_axon cfg env)
  <-> returns (config_loaded env) /\ returns (subtensor_created env)
      /\ returns (wallet_created env)
      /\ (wallet_mock cfg = false -> hotkey_registered env = Ok true)
      /\ returns (synced_metagraph env)
      /\ returns (character_set_loaded env)
      /\ (gating_num_uids cfg = 0%Z -> returns (subtensor_max_n env))
      /\ returns (gating_model_created env).
Proof.
  rewrite <- check_registered_returns. unfold init_before_axon, init_characterset.
  destruct (config_loaded env) as [[]|e]; simpl;
    [|split; [by intros ?%returns_Raise | by intros (?%returns_Raise & _)]].
  destruct (subtensor_created env) as [[]|e]; simpl;
    [|split; [by intros ?%returns_Raise | by intros (_ & ?%returns_Raise & _)]].
  destruct (wallet_created env) as [[]|e]; simpl;
    [|split; [by intros ?%returns_Raise | by intros (_ & _ & ?%returns_Raise & _)]].
  destruct (check_registered cfg env) as [[]|e]; simpl;
    [|split; [by intros ?%returns_Raise | by intros (_ & _ & _ & ?%returns_Raise & _)]].
  destruct (synced_metagraph env) as [mg|e]; simpl;
    [|split; [by intros ?%returns_Raise | by intros (_ & _ & _ & _ & ?%returns_Raise & _)]].
  destruct (character_set_loaded env) as [[]|e]; simpl;
    [|split; [by intros ?%returns_Raise
             | by intros (_ & _ & _ & _ & _ & ?%returns_Raise & _)]].
  case_bool_decide as Hnum; simpl.
  - destruct (gating_model_created env) as [[]|e]; simpl.
    + split; [intros _ | intros _; apply returns_Ok].
      repeat (split; [apply returns_Ok|]). split; [done | apply returns_Ok].
    + split; [by intros ?%returns_Raise
             | by intros (_ & _ & _ & _ & _ & _ & _ & ?%returns_Raise)].
  - destruct (subtensor_max_n env) as [m|e]; simpl.
    + destruct (gating_model_created env) as [[]|e]; simpl.
      * split; [intros _ | intros _; apply returns_Ok].
        repeat (split; [apply returns_Ok|]). split; [intros _|]; apply returns_Ok.
      * split; [by intros ?%returns_Raise
               | by intros (_ & _ & _ & _ & _ & _ & _ & ?%returns_Raise)].
    + split; [by intros ?%returns_Raise|].
      intros (_ & _ & _ & _ & _ & _ & Hmax & _). by apply returns_Raise in Hmax.
Qed.

(** What the part before the axon leaves. *)
Lemma init_before_axon_Ok cfg env mg hks scores cs num gm :
  init_before_axon cfg env = Ok (mg, hks, scores, cs, num, gm) ->
  synced_metagraph env = Ok mg /\ hks = hotkeys mg /\ scores = Torch.zeros (n mg).
Proof.
  unfold init_before_axon.
  intros (_ & _ & (_ & _ & (_ & _ & (_ & _ & (mg' & Hmg & Hrest)%bind_Ok_inv)
    %bind_Ok_inv)%bind_Ok_inv)%bind_Ok_inv)%bind_Ok_inv.
  cbv zeta in Hrest.
  apply bind_Ok_inv in Hrest as (cs' & _ & (num' & _ & (_ & _ & Hret)%bind_Ok_inv)
    %bind_Ok_inv).
  by injection Hret as -> -> -> _ _ _.
Qed.

Lemma init_after_reward_models_returns cfg env :
  returns (init_after_reward_models cfg env)
  <-> returns (event_loop env)
      /\ (wandb_off cfg = false -> returns (wandb_inited env))
      /\ returns (init_block env).
Proof.
  unfold init_after_reward_models.
  destruct (event_loop env) as [[]|e]; simpl;
    [|split; [by intros ?%returns_Raise | by intros (?%returns_Raise & _)]].
  destruct (wandb_off cfg); simpl.
  - destruct (init_block env) as [b|e]; simpl.
    + split; [intros _ | intros _; apply returns_Ok].
      split; [apply returns_Ok|]. split; [done | apply returns_Ok].
    + split; [by intros ?%returns_Raise | by intros (_ & _ & ?%returns_Raise)].
  - destruct (wandb_inited env) as [[]|e]; simpl.
    + destruct (init_block env) as [b|e]; simpl.
      * split; [intros _ | intros _; apply returns_Ok].
        split; [apply returns_Ok|]. split; [intros _|]; apply returns_Ok.
      * split; [by intros ?%returns_Raise | by intros (_ & _ & ?%returns_Raise)].
    + split; [by intros ?%returns_Raise|].
      intros (_ & Hw & _). specialize (Hw eq_refl). by apply returns_Raise in Hw.
Qed.

Lemma init_after_reward_models_Ok cfg env wandb block :
  init_after_reward_models cfg env = Ok (wandb, block) ->
  init_block env = Ok block
  /\ wandb = (if negb (wandb_off cfg) then [InitWandb] else []).
Proof.
  unfold init_after_reward_models.
  intros (_ & _ & (w & Hw & (b & Hb & [= <- <-])%bind_Ok_inv)%bind_Ok_inv)%bind_Ok_inv.
  split; [done|]. destruct (wandb_off cfg); simpl in *.
  - by injection Hw as <-.
  - by apply bind_Ok_inv in Hw as (_ & _ & [= <-]).
Qed.

Lemma serve_axon_length cfg env : length (serve_axon cfg env) <= 1.
Proof.
  unfold serve_axon.
  destruct (axon_off cfg), (axon_created env), (axon_served env); simpl; lia.
Qed.

Lemma serve_axon_errors cfg env :
  List.filter is_init_error (serve_axon cfg env) = serve_axon cfg env.
Proof.
  unfold serve_axon.
  by destruct (axon_off cfg), (axon_created env), (axon_served env).
Qed.

Lemma init_reward_models_log (rc : RewardConfig) :
  length (init_reward_models rc).1 <= 1
  /\ List.filter is_init_error (init_reward_models rc).1 = (init_reward_models rc).1
  /\ (returns (init_reward_models rc).2 -> (init_reward_models rc).1 = []).
Proof.
  unfold init_reward_models. destruct (mock_reward_models rc); [by simpl; auto|].
  destruct (Torch.tensor_float32 _) as [ws|].
  - case_bool_decide.
    + simpl. split; [lia|]. split; [done | by intros ?%returns_Raise].
    + case_bool_decide; simpl.
      * split; [lia|]. split; [done | by intros ?%returns_Raise].
      * auto.
  - simpl. split; [lia|]. split; [done | by intros ?%returns_Raise].
Qed.

End Construction.

(** X19.  Construction of the validator completes exactly when every call
    it makes outside a [try] returns (the configuration, the subtensor, the
    wallet, the sync of the registry, the character set, [max_n] when no
    number of uids is configured, the gating model, the dendrite, the event
    loop, wandb when it is on, the block height), the wallet is a mock or
    the chain knows its hotkey, and the scoring pipeline is constructed.
    Whether creating or serving the axon raises never changes the outcome:
    such a failure is logged, once, and passed over.  A construction logs at
    most two errors, and a completed one none but that of the axon.  A
    constructed validator starts with an all-zero trust vector of the size
    of the synced registry, the hotkeys of that registry, step 0 and the
    current block as its recorded height. *)
Theorem neuron_init_outcome (cfg : NeuronConfig) (env : InitEnv) :
  (returns (neuron_init cfg env).2 <->
     returns (config_loaded env) /\ returns (subtensor_created env)
     /\ returns (wallet_created env)
     /\ (wallet_mock cfg = false -> hotkey_registered env = Ok true)
     /\ returns (synced_metagraph env)
     /\ returns (character_set_loaded env)
     /\ (gating_num_uids cfg = 0%Z -> returns (subtensor_max_n env))
     /\ returns (gating_model_created env)
     /\ returns (dendrite_created env)
     /\ returns (init_reward_models (reward_config cfg)).2
     /\ returns (event_loop env)
     /\ (wandb_off cfg = false -> returns (wandb_inited env))
     /\ returns (init_block env))
  /\ (forall created served,
        (neuron_init cfg
           (mkInitEnv (config_loaded env) (subtensor_created env) (wallet_created env)
              (hotkey_registered env) (synced_metagraph env) (character_set_loaded env)
              (subtensor_max_n env) (gating_model_created env) created served
              (dendrite_created env) (event_loop env) (wandb_inited env)
              (init_block env))).2
        = (neuron_init cfg env).2)
  /\ length (serve_axon cfg env) <= 1
  /\ length (List.filter is_init_error (neuron_init cfg env).1) <= 2
  /\ (forall self,
        (neuron_init cfg env).2 = Ok self ->
        List.filter is_init_error (neuron_init cfg env).1 = serve_axon cfg env
        /\ synced_metagraph env = Ok (c_metagraph self)
        /\ c_moving_averaged_scores self = Torch.zeros (n (c_metagraph self))
        /\ length (c_moving_averaged_scores self) = n (c_metagraph self)
        /\ c_hotkeys self = hotkeys (c_metagraph self)
        /\ c_step self = 0
        /\ init_block env = Ok (c_prev_block self)
        /\ init_reward_models (reward_config cfg) = ([], Ok (c_reward_models self))).
Proof.
  pose proof (init_before_axon_returns cfg env) as Hbefore.
  pose proof (init_after_reward_models_returns cfg env) as Hafter.
  pose proof (serve_axon_length cfg env) as Haxon.
  pose proof (serve_axon_errors cfg env) as Haxon_err.
  pose proof (init_reward_models_log (reward_config cfg)) as (Hlog & Hlog_err & Hlog_ok).
  split; [|split; [|split; [exact Haxon|split]]].
  - unfold neuron_init.
    destruct (init_before_axon cfg env) as [[[[[[mg hks] scores] cs] num] gm]|e]; simpl.
    2:{ split; [by intros ?%returns_Raise|]. intros Hall.
        destruct (proj2 Hbefore ltac:(tauto)) as [? [=]]. }
    destruct (dendrite_created env) as [[]|e]; simpl.
    2:{ split; [by intros ?%returns_Raise|].
        intros (_ & _ & _ & _ & _ & _ & _ & _ & Hd & Hm & _);
          first [by apply returns_Raise in Hd | by apply returns_Raise in Hm]. }
    destruct (init_reward_models (reward_config cfg)) as [log [models|e]]; simpl.
    2:{ split; [by intros ?%returns_Raise|].
        intros (_ & _ & _ & _ & _ & _ & _ & _ & Hd & Hm & _);
          first [by apply returns_Raise in Hd | by apply returns_Raise in Hm]. }
    destruct (init_after_reward_models cfg env) as [[wandb block]|e]; simpl.
    2:{ split; [by intros ?%returns_Raise|]. intros Hall.
        destruct (proj2 Hafter ltac:(tauto)) as [? [=]]. }
    pose proof (proj1 Hbefore (returns_Ok _)). pose proof (proj1 Hafter (returns_Ok _)).
    split; [intros _ | intros _; apply returns_Ok].
    repeat (split; [tauto|]). split; [apply returns_Ok|]. split; [apply returns_Ok|]. tauto.
  - intros created served. unfold neuron_init, init_before_axon, init_after_reward_models,
      init_characterset, check_registered. simpl.
    destruct (_ ≫= _) as [[[[[[mg hks] scores] cs] num] gm]|e]; [|done].
    destruct (dendrite_created env) as [[]|e]; [|done].
    destruct (init_reward_models (reward_config cfg)) as [log [models|e]]; [|done].
    by destruct (_ ≫= _) as [[wandb block]|e].
  - unfold neuron_init.
    destruct (init_before_axon cfg env) as [[[[[[mg hks] scores] cs] num] gm]|e];
      [|simpl; lia].
    destruct (dendrite_created env) as [[]|e]; [|simpl; rewrite Haxon_err; lia].
    destruct (init_reward_models (reward_config cfg)) as [log [models|e]]; simpl in *.
    + rewrite (Hlog_ok (returns_Ok _)).
      destruct (init_after_reward_models cfg env) as [[wandb block]|e] eqn:Hafter'; simpl.
      * apply init_after_reward_models_Ok in Hafter' as [_ ->].
        rewrite List.filter_app, Haxon_err, length_app.
        destruct (wandb_off cfg); simpl; lia.
      * rewrite app_nil_r, Haxon_err. lia.
    + rewrite List.filter_app, Haxon_err, Hlog_err, length_app. lia.
  - intros self. unfold neuron_init.
    destruct (init_before_axon cfg env) as [[[[[[mg hks] scores] cs] num] gm]|e] eqn:Hb;
      [|done].
    apply init_before_axon_Ok in Hb as (Hmg & -> & ->).
    destruct (dendrite_created env) as [[]|e]; [|done].
    destruct (init_reward_models (reward_config cfg)) as [log [models|e]]; [|done].
    simpl in Hlog_ok. rewrite (Hlog_ok (returns_Ok _)).
    destruct (init_after_reward_models cfg env) as [[wandb block]|e] eqn:Hafter'; [|done].
    apply init_after_reward_models_Ok in Hafter' as [Hblock ->].
    simpl. intros [= <-]. simpl.
    split.
    { rewrite List.filter_app, Haxon_err.
      destruct (wandb_off cfg); simpl; by rewrite app_nil_r. }
    repeat split; try done. apply length_replicate.
Qed.

(** The chain knows the hotkey, the axon cannot be created: the validator
    is constructed, and the failure is the one error in the log. *)
Lemma neuron_init_outcome_witness :
  exists self,
    (neuron_init config_axon_fails env_axon_fails).2 = Ok self
    /\ List.filter is_init_error (neuron_init config_axon_fails env_axon_fails).1
       = [InitLogError "Failed to create Axon initialize with exception: port in use"]
    /\ c_moving_averaged_scores self = Torch.zeros 5
    /\ c_step self = 0.
Proof.
  destruct (neuron_init_outcome config_axon_fails env_axon_fails) as (Hreturns & _ & _ & _ & Hself).
  destruct (proj2 Hreturns) as [self Hinit].
  { assert (returns (init_reward_models (reward_config config_axon_fails)).2) as Hmodels.
    { destruct (init_reward_models_live_cases (reward_config config_axon_fails) eq_refl)
        as [(_ & models & -> & _)|[Hne _]]; [apply returns_Ok|].
      exfalso. apply Hne, to_float32_one. split; compute_done. }
    repeat split; first [exact Hmodels | apply returns_Ok | done | intros _; apply returns_Ok]. }
  exists self. split; [exact Hinit|].
  destruct (Hself self Hinit) as (Hlog & Hmg & Hz & _ & _ & Hs & _).
  split; [by rewrite Hlog|]. injection Hmg as Hmg. rewrite Hz, <- Hmg. by split.
Defined.

(** ** One round: the trust it leaves *)

(** A sample that [get_random_uids] returns has no repetition. *)
Lemma get_random_uids_NoDup `{Utils} (self : neuron) (rng : Rng) (k : Z)
    (exclude : option (list nat)) (uids : list nat) :
  get_random_uids self rng k exclude = Ok uids -> NoDup uids.
Proof.
  unfold get_random_uids.
  pose proof (NoDup_candidate_uids self exclude) as Hnd.
  destruct (candidate_uids self exclude) as [|c cs] eqn:Hc.
  - intros [= <-]. constructor.
  - unfold random_sample. case_bool_decide as Hk; [|done]. intros [= <-].
    destruct (draw_Permutation rng
                (Z.to_nat (if bool_decide (Z.of_nat (length (c :: cs)) < k)%Z
                           then Z.of_nat (length (c :: cs)) else k))
                0 (c :: cs)) as [_ [rest Hrest]]; [lia|].
    rewrite Hrest in Hnd. by apply list.NoDup_app in Hnd as [? _].
Qed.

(** X20.  When [run_step] returns, the trust of each sampled peer is
    [alpha] times the reward of its response plus [1 - alpha] times its
    previous trust, the rewards being those that [compute_rewards] gives the
    normalized responses, and the trust of every peer that was not sampled
    is unchanged. *)
Theorem run_step_trust `{Utils} (self : neuron) (rng : Rng) (task : RoleplayTask)
    (k : Z) (timeout : Qc) (exclude : list nat) (self' : neuron) (ev : Event) :
  run_step self rng task k timeout exclude = Ok (self', ev) ->
  let alpha := moving_average_alpha (config self) in
  (forall p u r x,
     ev_uids ev !! p = Some u -> ev_rewards ev !! p = Some r ->
     moving_averaged_scores self !! u = Some x ->
     moving_averaged_scores self' !! u = Some (alpha * r + (1 - alpha) * x)%Qc)
  /\ (forall j, j ∉ ev_uids ev ->
                moving_averaged_scores self' !! j = moving_averaged_scores self !! j)
  /\ Forall (fun u => u < length (moving_averaged_scores self)) (ev_uids ev)
  /\ NoDup (ev_uids ev).
Proof.
  intros Hrun. apply run_step_Ok_inv in Hrun
    as (uids & axs & rewards & sel & bi & c & scores & Hrun).
  cbv zeta in Hrun.
  destruct Hrun as (Huids & _ & _ & Haxs & Hrew & _ & _ & _ & Hsc & -> & ->).
  simpl in *.
  apply get_random_uids_NoDup in Huids as Hnd.
  apply mapM_py_index_length in Haxs.
  apply compute_rewards_length in Hrew as Hlr.
  unfold restrict_format_followup_responses in Hlr. rewrite !length_map in Hlr.
  assert (Forall (fun u => u < length (moving_averaged_scores self)) uids) as Hin.
  { unfold update_moving_averaged_scores, Torch.scatter in Hsc.
    destruct (length uids <=? length rewards); [|done].
    destruct (forallb _ uids) eqn:Hall; [|done].
    apply Forall_forall. intros u Hu. apply Nat.ltb_lt.
    by apply (proj1 (forallb_forall _ _) Hall). }
  destruct (update_step_spec (moving_average_alpha (config self))
              (moving_averaged_scores self) uids rewards)
    as (new & Hnew & _ & Hat & Hother).
  { split; [done|]. split; [simpl; lia | done]. }
  rewrite Hnew in Hsc. injection Hsc as <-.
  split; [exact Hat|]. split; [exact Hother|]. by split.
Qed.

Lemma run_step_trust_witness :
  exists self' ev,
    @run_step Examples.all_available Examples.validator_A Examples.rng_A
      Examples.task_A 3 1%Qc [] = Ok (self', ev)
    /\ NoDup (ev_uids ev).
Proof.
  destruct (@run_step Examples.all_available Examples.validator_A Examples.rng_A
              Examples.task_A 3 1%Qc []) as [[self' ev]|e] eqn:Hrun;
    [|vm_compute in Hrun; discriminate Hrun].
  exists self', ev. split; [reflexivity|].
  by destruct (@run_step_trust Examples.all_available Examples.validator_A Examples.rng_A
                 Examples.task_A 3 1%Qc [] self' ev Hrun) as (_ & _ & _ & Hnd).
Defined.
